(** * github-backup: the paged fetcher, the synchronizers and the mirror

    A shallow embedding of [github_backup/github_backup.py] (Python 3
    semantics, [PY2 = False]).  The program talks to the network, the clock,
    the file system and [git]; all of that is gathered in a [world] that the
    functions thread through a small state-and-exit monad.  Every call of
    [urlopen] consumes the next entry of a script of outcomes, so that an
    arbitrary behaviour of the server is an arbitrary script. *)

From Stdlib Require Import List String Ascii ZArith Lia Bool Arith DecimalString.
From Stdlib Require OrderedTypeEx.
From Stdlib Require Import Sorted RelationClasses.
Import ListNotations.

Local Open Scope string_scope.
Local Open Scope list_scope.
Local Open Scope Z_scope.

Infix "^^" := String.append (at level 60, right associativity).

(** ** Strings as Python uses them *)

Module Str.

(** [str.isspace] on the ASCII range: TAB..CR, FS..US and the space. *)
Definition is_space (c : ascii) : bool :=
  let n := nat_of_ascii c in
  ((9 <=? n) && (n <=? 13) || (28 <=? n) && (n <=? 32))%nat.

Fixpoint lstrip (s : string) : string :=
  match s with
  | EmptyString => EmptyString
  | String c r => if is_space c then lstrip r else s
  end.

Fixpoint rev_onto (s acc : string) : string :=
  match s with
  | EmptyString => acc
  | String c r => rev_onto r (String c acc)
  end.

Definition rev (s : string) : string := rev_onto s EmptyString.

Definition rstrip (s : string) : string := rev (lstrip (rev s)).

(** [s.strip()] *)
Definition strip (s : string) : string := rstrip (lstrip s).

(** [s.lower()] on the ASCII range. *)
Definition lower_char (c : ascii) : ascii :=
  let n := nat_of_ascii c in
  if ((65 <=? n) && (n <=? 90))%nat then ascii_of_nat (n + 32) else c.

Fixpoint lower (s : string) : string :=
  match s with
  | EmptyString => EmptyString
  | String c r => String (lower_char c) (lower r)
  end.

(** [s.startswith(p)] *)
Definition startswith (p s : string) : bool := String.prefix p s.

Fixpoint endswith_slash (s : string) : bool :=
  match s with
  | EmptyString => false
  | String c EmptyString => Ascii.eqb c "/"
  | String _ r => endswith_slash r
  end.

(** [s[n:]] *)
Fixpoint drop (n : nat) (s : string) : string :=
  match n, s with
  | O, _ => s
  | S n', String _ r => drop n' r
  | S _, EmptyString => EmptyString
  end.

(** [p in s] for strings: [p] occurs as a substring of [s]. *)
Fixpoint contains (p s : string) : bool :=
  String.prefix p s ||
  match s with
  | EmptyString => false
  | String _ r => contains p r
  end.

(** [s.replace(old, new)], every occurrence from left to right, for a
    non-empty [old]. *)
Fixpoint replace_from (fuel : nat) (old new s : string) : string :=
  match fuel with
  | O => s
  | S fuel' =>
      match s with
      | EmptyString => EmptyString
      | String c r =>
          if String.prefix old s
          then new ^^ replace_from fuel' old new (drop (String.length old) s)
          else String c (replace_from fuel' old new r)
      end
  end.

Fixpoint interleave (new s : string) : string :=
  match s with
  | EmptyString => new
  | String c r => new ^^ String c (interleave new r)
  end.

Definition replace (old new s : string) : string :=
  if String.eqb old "" then interleave new s
  else replace_from (S (String.length s)) old new s.

(** [f.readline()] of a text: up to and including the first newline. *)
Fixpoint readline (s : string) : string :=
  match s with
  | EmptyString => EmptyString
  | String c r =>
      if Ascii.eqb c "010" then String c EmptyString else String c (readline r)
  end.

(** [str(n)] for an integer. *)
Definition of_Z (n : Z) : string := NilZero.string_of_int (Z.to_int n).

(** [os.path.join(a, b)] on a POSIX system. *)
Definition path_join (a b : string) : string :=
  if startswith "/" b then b
  else if orb (String.eqb a "") (endswith_slash a) then a ^^ b
  else a ^^ "/" ^^ b.

(** Python compares [str] values code point by code point. *)
Definition lt (a b : string) : bool := String.ltb a b.
Definition ge (a b : string) : bool := negb (lt a b).

(** [max] of a non-empty list of strings: the first maximal element. *)
Definition max2 (a b : string) : string := if lt a b then b else a.

Fixpoint max_from (cur : string) (l : list string) : string :=
  match l with
  | [] => cur
  | x :: r => max_from (max2 cur x) r
  end.

End Str.

(** ** JSON documents, as [json.loads] returns them

    Numbers are the integers the API sends in the fields the program
    inspects; objects keep the order of their keys. *)

#[warnings="-register-all"]
Inductive json : Type :=
| JNull
| JBool (b : bool)
| JNum (n : Z)
| JStr (s : string)
| JList (l : list json)
| JDict (d : list (string * json)).

(** The truth value Python gives to a value in [if v:]. *)
Definition truthy (v : json) : bool :=
  match v with
  | JNull => false
  | JBool b => b
  | JNum n => negb (n =? 0)
  | JStr s => negb (String.eqb s "")
  | JList l => match l with [] => false | _ => true end
  | JDict d => match d with [] => false | _ => true end
  end.

(** [v == s] for a [str] s. *)
Definition json_is_str (v : json) (s : string) : bool :=
  match v with
  | JStr s' => String.eqb s' s
  | _ => false
  end.

(** ** Insertion-ordered dictionaries

    A Python [dict] is an association list without repeated keys: writing an
    existing key replaces the value in place, a new key goes to the end. *)

Section Dict.
Context {K V : Type} (eqb : K -> K -> bool).

Fixpoint dict_get (k : K) (d : list (K * V)) : option V :=
  match d with
  | [] => None
  | (k', v) :: r => if eqb k' k then Some v else dict_get k r
  end.

Fixpoint dict_set (k : K) (v : V) (d : list (K * V)) : list (K * V) :=
  match d with
  | [] => [(k, v)]
  | (k', v') :: r =>
      if eqb k' k then (k', v) :: r else (k', v') :: dict_set k v r
  end.

Definition dict_mem (k : K) (d : list (K * V)) : bool :=
  match dict_get k d with Some _ => true | None => false end.

(** How many entries of [d] sit under the key [k]. *)
Definition dict_count (k : K) (d : list (K * V)) : nat :=
  List.length (filter (fun kv => eqb (fst kv) k) d).

(** [dict(pairs)] *)
Definition dict_of_list (l : list (K * V)) : list (K * V) :=
  fold_left (fun d kv => dict_set (fst kv) (snd kv) d) l [].
End Dict.

Definition sget {V} := @dict_get string V String.eqb.
Definition sset {V} := @dict_set string V String.eqb.

(** Keys of the dictionaries the synchronizers build ([issue['number']] and
    the like): the hashable JSON scalars.  Python has [True == 1], so a
    boolean is the number it equals. *)
Inductive key : Type :=
| KNum (n : Z)
| KStr (s : string)
| KNull.

Definition key_eqb (a b : key) : bool :=
  match a, b with
  | KNum x, KNum y => x =? y
  | KStr x, KStr y => String.eqb x y
  | KNull, KNull => true
  | _, _ => false
  end.

Definition as_key (v : json) : option key :=
  match v with
  | JNull => Some KNull
  | JBool b => Some (KNum (if b then 1 else 0))
  | JNum n => Some (KNum n)
  | JStr s => Some (KStr s)
  | JList _ | JDict _ => None
  end.

(** [str(k)], as ['{0}'.format(k)] prints a key. *)
Definition key_str (k : key) : string :=
  match k with
  | KNum n => Str.of_Z n
  | KStr s => s
  | KNull => "None"
  end.

Definition kget {V} := @dict_get key V key_eqb.
Definition kset {V} := @dict_set key V key_eqb.
Definition kcount {V} := @dict_count key V key_eqb.

(** [str(v)] of a value, as [format] prints it (strings inside containers
    are quoted without escapes). *)
Fixpoint py_repr (v : json) : string :=
  match v with
  | JNull => "None"
  | JBool true => "True"
  | JBool false => "False"
  | JNum n => Str.of_Z n
  | JStr s => "'" ^^ s ^^ "'"
  | JList l =>
      "[" ^^
      (fix go (l : list json) : string :=
         match l with
         | [] => ""
         | x :: r => py_repr x ^^ match r with [] => "" | _ => ", " ^^ go r end
         end) l ^^ "]"
  | JDict d =>
      "{" ^^
      (fix go (d : list (string * json)) : string :=
         match d with
         | [] => ""
         | (k, x) :: r =>
             "'" ^^ k ^^ "': " ^^ py_repr x ^^
             match r with [] => "" | _ => ", " ^^ go r end
         end) d ^^ "}"
  end.

Definition py_str (v : json) : string :=
  match v with
  | JStr s => s
  | _ => py_repr v
  end.

(** ** The options bag

    [args] is the namespace built by [args.py]; the program both reads it and
    writes to it ([args.token], [args.password], [args.since]). *)

Record Args := {
  arg_user : string;
  arg_username : option string;
  arg_password : option string;
  arg_token : option string;
  arg_as_app : bool;
  arg_incremental : bool;
  arg_include_everything : bool;
  arg_include_issues : bool;
  arg_include_issue_comments : bool;
  arg_include_issue_events : bool;
  arg_include_pulls : bool;
  arg_include_pull_comments : bool;
  arg_include_pull_commits : bool;
  arg_include_pull_details : bool;
  arg_include_labels : bool;
  arg_include_hooks : bool;
  arg_include_milestones : bool;
  arg_include_repository : bool;
  arg_bare_clone : bool;
  arg_lfs_clone : bool;
  arg_include_wiki : bool;
  arg_include_gists : bool;
  arg_include_starred_gists : bool;
  arg_skip_existing : bool;
  arg_languages : option (list string);
  arg_name_regex : option string;
  arg_github_host : option string;
  arg_private : bool;
  arg_fork : bool;
  arg_prefer_ssh : bool;
  arg_osx_keychain_item_name : option string;
  arg_osx_keychain_item_account : option string;
  arg_include_releases : bool;
  arg_include_assets : bool;
  arg_throttle_limit : Z;
  arg_throttle_pause : Z;
  arg_since : option string
}.

(** [if s:] for an attribute that is a [str] or [None]. *)
Definition given (o : option string) : bool :=
  match o with
  | Some s => negb (String.eqb s "")
  | None => false
  end.

Definition text (o : option string) : string :=
  match o with Some s => s | None => "" end.

(** ** The world outside the program *)

Record headers := {
  x_ratelimit_remaining : option Z;
  x_ratelimit_reset : option Z;
  x_ratelimit_limit : option string
}.

(** What a file or a response body holds: a JSON document or other text. *)
Inductive content : Type :=
| Json (v : json)
| Text (s : string).

Record response := {
  r_code : Z;
  r_reason : string;
  r_headers : headers;
  r_body : content
}.

(** One call of [urlopen]: it returns a response, or raises [HTTPError]
    (which carries the response), [URLError] or [socket.error].  The
    [reason] or [strerror] of the latter two is a [str], or ([None]) some
    other object, such as the exception urllib wraps. *)
Inductive outcome : Type :=
| Responded (r : response)
| HTTPError (exc : response)
| URLError (reason : option string)
| SocketError (strerror : option string).

(** The value of [get_auth]: the text itself, or its base64 encoding. *)
Inductive credential : Type :=
| Plain (s : string)
| B64 (s : string).

Inductive header_value : Type :=
| Hv (s : string)
| HvAuth (scheme : string) (c : credential).

Record Request := {
  req_url : string;
  req_query : list (string * json);
  req_headers : list (string * header_value)
}.

Inductive node : Type :=
| Dir
| File (c : content).

Inductive event : Type :=
| EvInfo (msg : string)
| EvWarn (msg : string)
| EvUrlopen (rq : Request)
| EvDownload (rq : Request)
| EvSleep (seconds : Z)
| EvRun (argv : list string) (cwd : option string)
| EvShell (cmd : string)
| EvMkdir (path : string)
| EvWrite (path : string) (c : content)
| EvStderr (line : string).

(** What the program asks of its surroundings.  [env_getpass] is what will
    be typed at the password prompt, one answer for each time the program
    asks; the rest the program cannot change. *)
Record environment := {
  env_platform : string;
  env_win32 : bool;
  env_keychain : string -> string -> option string;
  env_getpass : list string;
  env_localtime : Z -> string;
  env_re_match : string -> string -> bool;
  env_urlparse : string -> option string * option string;
  env_gist_ssh_url : string -> string;
  env_git_is_bare : string -> option string;
  env_git_ls_remote : string -> Z;
  env_git_remotes : string -> option (list string);
  env_git_rc : list string -> Z
}.

Record world := {
  w_args : Args;
  w_env : environment;
  w_net : list outcome;
  w_clock : Z;
  w_fs : list (string * node);
  w_trace : list event
}.

Definition with_args (a : Args) (w : world) : world :=
  {| w_args := a; w_env := w_env w; w_net := w_net w; w_clock := w_clock w;
     w_fs := w_fs w; w_trace := w_trace w |}.

Definition with_net (n : list outcome) (w : world) : world :=
  {| w_args := w_args w; w_env := w_env w; w_net := n; w_clock := w_clock w;
     w_fs := w_fs w; w_trace := w_trace w |}.

Definition with_clock (c : Z) (w : world) : world :=
  {| w_args := w_args w; w_env := w_env w; w_net := w_net w; w_clock := c;
     w_fs := w_fs w; w_trace := w_trace w |}.

Definition with_fs (f : list (string * node)) (w : world) : world :=
  {| w_args := w_args w; w_env := w_env w; w_net := w_net w;
     w_clock := w_clock w; w_fs := f; w_trace := w_trace w |}.

Definition with_env (e : environment) (w : world) : world :=
  {| w_args := w_args w; w_env := e; w_net := w_net w; w_clock := w_clock w;
     w_fs := w_fs w; w_trace := w_trace w |}.

(** The surroundings once the next answer at the prompt has been given. *)
Definition after_prompt (e : environment) (rest : list string) : environment :=
  {| env_platform := env_platform e; env_win32 := env_win32 e;
     env_keychain := env_keychain e; env_getpass := rest;
     env_localtime := env_localtime e; env_re_match := env_re_match e;
     env_urlparse := env_urlparse e; env_gist_ssh_url := env_gist_ssh_url e;
     env_git_is_bare := env_git_is_bare e;
     env_git_ls_remote := env_git_ls_remote e;
     env_git_remotes := env_git_remotes e; env_git_rc := env_git_rc e |}.

Definition emit (e : event) (w : world) : world :=
  {| w_args := w_args w; w_env := w_env w; w_net := w_net w;
     w_clock := w_clock w; w_fs := w_fs w; w_trace := w_trace w ++ [e] |}.

(** ** The monad: state, exceptions and [sys.exit] *)

Inductive exn : Type :=
| KeyError (k : string)
| TypeError
| ValueError
| AttributeError
| IndexError
| OSError (path : string)
| EURLError (reason : string)
| ESocketError (strerror : string)
| CalledProcessError.

Inductive result (A : Type) : Type :=
| Ret (a : A)
| Exit (status : Z)
| Raise (e : exn)
| Starved
| OutOfFuel.

Arguments Ret {A} a.
Arguments Exit {A} status.
Arguments Raise {A} e.
Arguments Starved {A}.
Arguments OutOfFuel {A}.

Definition M (A : Type) : Type := world -> result A * world.

Definition ret {A} (a : A) : M A := fun w => (Ret a, w).

Definition bind {A B} (m : M A) (f : A -> M B) : M B :=
  fun w =>
    match m w with
    | (Ret a, w') => f a w'
    | (Exit s, w') => (Exit s, w')
    | (Raise e, w') => (Raise e, w')
    | (Starved, w') => (Starved, w')
    | (OutOfFuel, w') => (OutOfFuel, w')
    end.

Declare Scope py_scope.
Delimit Scope py_scope with py.
Notation "x <- c1 ;; c2" := (bind c1 (fun x => c2))
  (at level 61, c1 at next level, right associativity) : py_scope.
Notation "' pat <- c1 ;; c2" := (bind c1 (fun x => match x with pat => c2 end))
  (at level 61, pat pattern, c1 at next level, right associativity) : py_scope.
Notation "c1 ;; c2" := (bind c1 (fun _ => c2))
  (at level 61, right associativity) : py_scope.
Local Open Scope py_scope.

Definition raise {A} (e : exn) : M A := fun w => (Raise e, w).
Definition sys_exit {A} (s : Z) : M A := fun w => (Exit s, w).
Definition starve {A} : M A := fun w => (Starved, w).
Definition out_of_fuel {A} : M A := fun w => (OutOfFuel, w).

(** [try: m  except SystemExit: h] *)
Definition except_SystemExit {A} (m : M A) (h : M A) : M A :=
  fun w =>
    match m w with
    | (Exit _, w') => h w'
    | other => other
    end.

Definition get_args : M Args := fun w => (Ret (w_args w), w).
Definition set_args (a : Args) : M unit := fun w => (Ret tt, with_args a w).
Definition get_env : M environment := fun w => (Ret (w_env w), w).
Definition tell (e : event) : M unit := fun w => (Ret tt, emit e w).

(** [for x in l: body], without [break]. *)
Fixpoint for_each {A} (l : list A) (body : A -> M unit) : M unit :=
  match l with
  | [] => ret tt
  | x :: r => body x ;; for_each r body
  end.

(** [when c m]: [if c: m]. *)
Definition when (c : bool) (m : M unit) : M unit := if c then m else ret tt.

(** Assignments to attributes of [args]. *)
Definition set_token (v : option string) (a : Args) : Args :=
  {| arg_user := arg_user a;
     arg_username := arg_username a;
     arg_password := arg_password a;
     arg_token := v;
     arg_as_app := arg_as_app a;
     arg_incremental := arg_incremental a;
     arg_include_everything := arg_include_everything a;
     arg_include_issues := arg_include_issues a;
     arg_include_issue_comments := arg_include_issue_comments a;
     arg_include_issue_events := arg_include_issue_events a;
     arg_include_pulls := arg_include_pulls a;
     arg_include_pull_comments := arg_include_pull_comments a;
     arg_include_pull_commits := arg_include_pull_commits a;
     arg_include_pull_details := arg_include_pull_details a;
     arg_include_labels := arg_include_labels a;
     arg_include_hooks := arg_include_hooks a;
     arg_include_milestones := arg_include_milestones a;
     arg_include_repository := arg_include_repository a;
     arg_bare_clone := arg_bare_clone a;
     arg_lfs_clone := arg_lfs_clone a;
     arg_include_wiki := arg_include_wiki a;
     arg_include_gists := arg_include_gists a;
     arg_include_starred_gists := arg_include_starred_gists a;
     arg_skip_existing := arg_skip_existing a;
     arg_languages := arg_languages a;
     arg_name_regex := arg_name_regex a;
     arg_github_host := arg_github_host a;
     arg_private := arg_private a;
     arg_fork := arg_fork a;
     arg_prefer_ssh := arg_prefer_ssh a;
     arg_osx_keychain_item_name := arg_osx_keychain_item_name a;
     arg_osx_keychain_item_account := arg_osx_keychain_item_account a;
     arg_include_releases := arg_include_releases a;
     arg_include_assets := arg_include_assets a;
     arg_throttle_limit := arg_throttle_limit a;
     arg_throttle_pause := arg_throttle_pause a;
     arg_since := arg_since a |}.

Definition set_password (v : option string) (a : Args) : Args :=
  {| arg_user := arg_user a;
     arg_username := arg_username a;
     arg_password := v;
     arg_token := arg_token a;
     arg_as_app := arg_as_app a;
     arg_incremental := arg_incremental a;
     arg_include_everything := arg_include_everything a;
     arg_include_issues := arg_include_issues a;
     arg_include_issue_comments := arg_include_issue_comments a;
     arg_include_issue_events := arg_include_issue_events a;
     arg_include_pulls := arg_include_pulls a;
     arg_include_pull_comments := arg_include_pull_comments a;
     arg_include_pull_commits := arg_include_pull_commits a;
     arg_include_pull_details := arg_include_pull_details a;
     arg_include_labels := arg_include_labels a;
     arg_include_hooks := arg_include_hooks a;
     arg_include_milestones := arg_include_milestones a;
     arg_include_repository := arg_include_repository a;
     arg_bare_clone := arg_bare_clone a;
     arg_lfs_clone := arg_lfs_clone a;
     arg_include_wiki := arg_include_wiki a;
     arg_include_gists := arg_include_gists a;
     arg_include_starred_gists := arg_include_starred_gists a;
     arg_skip_existing := arg_skip_existing a;
     arg_languages := arg_languages a;
     arg_name_regex := arg_name_regex a;
     arg_github_host := arg_github_host a;
     arg_private := arg_private a;
     arg_fork := arg_fork a;
     arg_prefer_ssh := arg_prefer_ssh a;
     arg_osx_keychain_item_name := arg_osx_keychain_item_name a;
     arg_osx_keychain_item_account := arg_osx_keychain_item_account a;
     arg_include_releases := arg_include_releases a;
     arg_include_assets := arg_include_assets a;
     arg_throttle_limit := arg_throttle_limit a;
     arg_throttle_pause := arg_throttle_pause a;
     arg_since := arg_since a |}.

Definition set_since (v : option string) (a : Args) : Args :=
  {| arg_user := arg_user a;
     arg_username := arg_username a;
     arg_password := arg_password a;
     arg_token := arg_token a;
     arg_as_app := arg_as_app a;
     arg_incremental := arg_incremental a;
     arg_include_everything := arg_include_everything a;
     arg_include_issues := arg_include_issues a;
     arg_include_issue_comments := arg_include_issue_comments a;
     arg_include_issue_events := arg_include_issue_events a;
     arg_include_pulls := arg_include_pulls a;
     arg_include_pull_comments := arg_include_pull_comments a;
     arg_include_pull_commits := arg_include_pull_commits a;
     arg_include_pull_details := arg_include_pull_details a;
     arg_include_labels := arg_include_labels a;
     arg_include_hooks := arg_include_hooks a;
     arg_include_milestones := arg_include_milestones a;
     arg_include_repository := arg_include_repository a;
     arg_bare_clone := arg_bare_clone a;
     arg_lfs_clone := arg_lfs_clone a;
     arg_include_wiki := arg_include_wiki a;
     arg_include_gists := arg_include_gists a;
     arg_include_starred_gists := arg_include_starred_gists a;
     arg_skip_existing := arg_skip_existing a;
     arg_languages := arg_languages a;
     arg_name_regex := arg_name_regex a;
     arg_github_host := arg_github_host a;
     arg_private := arg_private a;
     arg_fork := arg_fork a;
     arg_prefer_ssh := arg_prefer_ssh a;
     arg_osx_keychain_item_name := arg_osx_keychain_item_name a;
     arg_osx_keychain_item_account := arg_osx_keychain_item_account a;
     arg_include_releases := arg_include_releases a;
     arg_include_assets := arg_include_assets a;
     arg_throttle_limit := arg_throttle_limit a;
     arg_throttle_pause := arg_throttle_pause a;
     arg_since := v |}.

(** ** Primitive effects *)

Definition log_info (msg : string) : M unit := tell (EvInfo msg).

Definition log_warning (msg : string) : M unit := tell (EvWarn msg).

(** [log_warning(message)] for a list of messages. *)
Definition log_warnings (msgs : list string) : M unit :=
  for_each msgs log_warning.

(** [log_warning(o)] where [o] is an attribute of an exception: a [str], or
    another object ([None], an exception instance), over which the [for] of
    [log_warning] cannot iterate. *)
Definition log_warning_obj (o : option string) : M unit :=
  match o with
  | Some msg => log_warning msg
  | None => raise TypeError
  end.

(** [log_error]: the messages go to stderr, then [sys.exit(1)]. *)
Definition log_error {A} (msgs : list string) : M A :=
  log_warnings msgs ;; sys_exit 1.

Definition urlopen (rq : Request) : M outcome :=
  fun w =>
    let w1 := emit (EvUrlopen rq) w in
    match w_net w with
    | [] => (Starved, w1)
    | o :: rest => (Ret o, with_net rest w1)
    end.

(** [time.sleep(d)] *)
Definition sleep (d : Z) : M unit :=
  fun w =>
    if d <? 0 then (Raise ValueError, w)
    else (Ret tt, with_clock (w_clock w + d) (emit (EvSleep d) w)).

(** [calendar.timegm(time.gmtime())] *)
Definition timegm_now : M Z := fun w => (Ret (w_clock w), w).

(** [getpass.getpass()]: what is typed at the prompt this time. *)
Definition getpass : M string :=
  fun w =>
    match env_getpass (w_env w) with
    | [] => (Starved, w)
    | p :: rest => (Ret p, with_env (after_prompt (w_env w) rest) w)
    end.

Definition fs_lookup (path : string) : M (option node) :=
  fun w => (Ret (sget path (w_fs w)), w).

Definition fs_store (path : string) (n : node) : M unit :=
  fun w => (Ret tt, with_fs (sset path n (w_fs w)) w).

(** [os.path.exists] *)
Definition path_exists (path : string) : M bool :=
  n <- fs_lookup path ;;
  ret (match n with Some _ => true | None => false end).

(** [os.path.isdir] *)
Definition path_isdir (path : string) : M bool :=
  n <- fs_lookup path ;;
  ret (match n with Some Dir => true | _ => false end).

Definition mkdir_p (paths : list string) : M unit :=
  for_each paths (fun path =>
    tell (EvMkdir path) ;;
    n <- fs_lookup path ;;
    match n with
    | None => fs_store path Dir
    | Some Dir => ret tt
    | Some (File _) => raise (OSError path)
    end).

(** [open(path, 'w').write(c)] *)
Definition write_file (path : string) (c : content) : M unit :=
  n <- fs_lookup path ;;
  match n with
  | Some Dir => raise (OSError path)
  | _ => tell (EvWrite path c) ;; fs_store path (File c)
  end.

(** [open(path).read()] *)
Definition read_file (path : string) : M content :=
  n <- fs_lookup path ;;
  match n with
  | Some (File c) => ret c
  | _ => raise (OSError path)
  end.

(** The text of a file; a file that holds a JSON document reads as the text
    [json_dump] gave it, which [py_repr] stands for. *)
Definition content_text (c : content) : string :=
  match c with
  | Text s => s
  | Json v => py_repr v
  end.

(** ** [urllib] helpers *)

Module Url.

Definition hex_digit (n : nat) : ascii :=
  (if n <? 10 then ascii_of_nat (48 + n) else ascii_of_nat (55 + n))%nat.

Definition unreserved (c : ascii) : bool :=
  let n := nat_of_ascii c in
  ((48 <=? n) && (n <=? 57) || (65 <=? n) && (n <=? 90)
   || (97 <=? n) && (n <=? 122)
   || (n =? 95) || (n =? 46) || (n =? 45) || (n =? 126))%nat.

Definition percent (c : ascii) : string :=
  let n := nat_of_ascii c in
  String "%" (String (hex_digit (n / 16)) (String (hex_digit (n mod 16)) EmptyString)).

(** [urllib.parse.quote(s)], with its default [safe='/']. *)
Fixpoint quote (s : string) : string :=
  match s with
  | EmptyString => EmptyString
  | String c r =>
      if unreserved c || Ascii.eqb c "/" then String c (quote r)
      else percent c ^^ quote r
  end.

(** [quote_plus(s)]: nothing is safe and a space becomes [+]. *)
Fixpoint quote_plus (s : string) : string :=
  match s with
  | EmptyString => EmptyString
  | String c r =>
      if unreserved c then String c (quote_plus r)
      else if Ascii.eqb c " " then String "+" (quote_plus r)
      else percent c ^^ quote_plus r
  end.

(** [urlencode(d)] *)
Fixpoint urlencode (d : list (string * json)) : string :=
  match d with
  | [] => ""
  | (k, v) :: r =>
      quote_plus k ^^ "=" ^^ quote_plus (py_str v) ^^
      match r with [] => "" | _ => "&" ^^ urlencode r end
  end.

End Url.

(** ** Credentials *)

Definition msg_keychain_fields : string :=
  "You must specify both name and account fields for osx keychain password items".

Definition get_auth (encode for_git_cli : bool) : M (option credential) :=
  args <- get_args ;;
  env <- get_env ;;
  auth <-
    (if given (arg_osx_keychain_item_name args) then
       if negb (given (arg_osx_keychain_item_account args)) then
         log_error [msg_keychain_fields]
       else
         when (negb (String.eqb (env_platform env) "Darwin"))
              (log_error ["Keychain arguments are only supported on Mac OSX"]) ;;
         match env_keychain env (text (arg_osx_keychain_item_name args))
                                (text (arg_osx_keychain_item_account args)) with
         | Some out => ret (Some (Str.strip out ^^ ":" ^^ "x-oauth-basic"))
         | None =>
             log_error ["No password item matching the provided name and account could be found in the osx keychain."]
         end
     else if given (arg_osx_keychain_item_account args) then
       log_error [msg_keychain_fields]
     else if given (arg_token args) then
       let _path_specifier := "file://" in
       token <-
         (if Str.startswith _path_specifier (text (arg_token args)) then
            c <- read_file (Str.drop (String.length _path_specifier)
                                     (text (arg_token args))) ;;
            let t := Str.strip (Str.readline (content_text c)) in
            set_args (set_token (Some t) args) ;;
            ret t
          else ret (text (arg_token args))) ;;
       if negb (arg_as_app args) then
         ret (Some (token ^^ ":" ^^ "x-oauth-basic"))
       else if negb for_git_cli then ret (Some token)
       else ret (Some ("x-access-token:" ^^ token))
     else if given (arg_username args) then
       pw <-
         (if negb (given (arg_password args)) then
            p <- getpass ;;
            set_args (set_password (Some p) args) ;;
            ret p
          else ret (text (arg_password args))) ;;
       let password := if encode then pw else Url.quote pw in
       ret (Some (text (arg_username args) ^^ ":" ^^ password))
     else if given (arg_password args) then
       log_error ["You must specify a username for basic auth"]
     else ret None) ;;
  match auth with
  | None => ret None
  | Some a =>
      if String.eqb a "" then ret None
      else if negb encode then ret (Some (Plain a))
      else ret (Some (B64 a))
  end.

Definition get_github_api_host (args : Args) : string :=
  if given (arg_github_host args)
  then text (arg_github_host args) ^^ "/api/v3"
  else "api.github.com".

Definition get_github_host (args : Args) : string :=
  if given (arg_github_host args)
  then text (arg_github_host args)
  else "github.com".

(** ** The paged fetcher *)

Definition per_page : nat := 100.

Definition default {A} (d : A) (o : option A) : A :=
  match o with Some a => a | None => d end.

Definition get_query_args (query_args : option (list (string * json)))
  : list (string * json) :=
  match query_args with
  | Some (e :: q) => e :: q
  | _ => []
  end.

(** The query of a page request: [per_page] and [page], then the caller's
    parameters, a later pair replacing an earlier one of the same key. *)
Definition page_query (per_page : nat) (page : Z)
    (query_args : list (string * json)) : list (string * json) :=
  dict_of_list String.eqb
    ([("per_page", JNum (Z.of_nat per_page)); ("page", JNum page)]
     ++ query_args).

Definition auth_headers (auth : option credential) (as_app : bool)
  : list (string * header_value) :=
  match auth with
  | None => []
  | Some a =>
      if negb as_app then [("Authorization", HvAuth "Basic " a)]
      else [("Authorization", HvAuth "token " a);
            ("Accept", Hv "application/vnd.github.machine-man-preview+json")]
  end.

(** [Request(template + '?' + querystring)] with its headers. *)
Definition page_request (per_page : nat) (page : Z)
    (query_args : list (string * json)) (template : string)
    (auth : option credential) (as_app : bool) : Request :=
  {| req_url := template;
     req_query := page_query per_page page query_args;
     req_headers := auth_headers auth as_app |}.

Definition _construct_request (per_page : nat) (page : Z)
    (query_args : list (string * json)) (template : string)
    (auth : option credential) (as_app : bool) : M Request :=
  let querystring := Url.urlencode (page_query per_page page query_args) in
  let request := page_request per_page page query_args template auth as_app in
  log_info ("Requesting " ^^ template ^^ "?" ^^ querystring) ;;
  ret request.

Definition _request_http_error (exc : response) (auth : option credential)
    (errors : list string) : M (list string * bool) :=
  let headers := r_headers exc in
  let limit_remaining := default 0 (x_ratelimit_remaining headers) in
  if (r_code exc =? 403) && (limit_remaining <? 1) then
    gm_now <- timegm_now ;;
    let reset :=
      let v := default 0 (x_ratelimit_reset headers) in
      if v =? 0 then gm_now else v in
    let delta := Z.max 10 (reset - gm_now) in
    let limit := default "None" (x_ratelimit_limit headers) in
    log_warning ("Exceeded rate limit of " ^^ limit ^^ " requests; waiting "
                 ^^ Str.of_Z delta ^^ " seconds to reset") ;;
    when (match auth with None => true | Some _ => false end)
         (log_info "Hint: Authenticate to raise your GitHub rate limit") ;;
    sleep delta ;;
    ret (errors, true)
  else ret (errors, false).

Definition _request_url_error (template : string) (retry_timeout : Z) : M bool :=
  log_info (template ^^ " timed out") ;;
  let retry_timeout := retry_timeout - 1 in
  if 0 <=? retry_timeout then ret true
  else (@log_error unit ["{} timed out to much, skipping!"] ;; ret false).

(** The [while True] of [_get_response].  [retry_timeout] is a local that
    the loop hands to [_request_url_error] and never assigns again. *)
Fixpoint _get_response_loop (fuel : nat) (request : Request)
    (auth : option credential) (template : string) (retry_timeout : Z)
    (errors : list string) : M (response * list string) :=
  match fuel with
  | O => out_of_fuel
  | S fuel' =>
      o <- urlopen request ;;
      match o with
      | Responded r => ret (r, errors)
      | HTTPError exc =>
          ' (errors', should_continue) <- _request_http_error exc auth errors ;;
          if should_continue
          then _get_response_loop fuel' request auth template retry_timeout errors'
          else ret (exc, errors')
      | URLError reason =>
          log_warning_obj reason ;;
          should_continue <- _request_url_error template retry_timeout ;;
          if should_continue
          then _get_response_loop fuel' request auth template retry_timeout errors
          else raise (EURLError (text reason))
      | SocketError strerror =>
          log_warning_obj strerror ;;
          should_continue <- _request_url_error template retry_timeout ;;
          if should_continue
          then _get_response_loop fuel' request auth template retry_timeout errors
          else raise (ESocketError (text strerror))
      end
  end.

(** Every turn of the loop takes one outcome off the script, so one unit of
    fuel more than the script is long is never used up. *)
Definition _get_response (request : Request) (auth : option credential)
    (template : string) : M (response * list string) :=
  fun w =>
    _get_response_loop (S (List.length (w_net w))) request auth template 3 [] w.

(** [json.loads(r.read().decode('utf-8'))] *)
Definition json_loads (r : response) : M json :=
  match r_body r with
  | Json v => ret v
  | Text _ => raise ValueError
  end.

(** The [while retries < 3 and status_code == 502] of [retrieve_data_gen];
    [left] is [3 - retries]. *)
Fixpoint retry_502 (left : nat) (page : Z) (query_args : list (string * json))
    (template : string) (auth : option credential)
    (r : response) (errors : list string) (status_code : Z)
  : M (response * list string * Z) :=
  match left with
  | O => ret (r, errors, status_code)
  | S left' =>
      if status_code =? 502 then
        log_warning "API request returned HTTP 502: Bad Gateway. Retrying in 5 seconds" ;;
        sleep 5 ;;
        args <- get_args ;;
        request <- _construct_request per_page page query_args template auth
                                      (arg_as_app args) ;;
        ' (r', errors') <- _get_response request auth template ;;
        retry_502 left' page query_args template auth r' errors' (r_code r')
      else ret (r, errors, status_code)
  end.

(** One turn of the [while True] of [retrieve_data_gen], for the page number
    [page] (already incremented): the items it yields, in order, and whether
    the loop goes round again once they are consumed. *)
Definition fetch_page (auth : option credential)
    (query_args : list (string * json)) (template : string)
    (single_request : bool) (page : Z) : M (list json * bool) :=
  args <- get_args ;;
  request <- _construct_request per_page page query_args template auth
                                (arg_as_app args) ;;
  ' (r, errors) <- _get_response request auth template ;;
  let status_code := r_code r in
  let limit_remaining := default 0 (x_ratelimit_remaining (r_headers r)) in
  when (negb (arg_throttle_limit args =? 0)
        && (limit_remaining <=? arg_throttle_limit args))
       (log_info ("API request limit hit: " ^^ Str.of_Z limit_remaining
                  ^^ " requests left, pausing further requests for "
                  ^^ Str.of_Z (arg_throttle_pause args) ^^ "s") ;;
        sleep (arg_throttle_pause args)) ;;
  ' (r, errors, status_code) <-
      retry_502 3 page query_args template auth r errors status_code ;;
  when (negb (status_code =? 200))
       (log_error (errors ++ ["API request returned HTTP "
                              ^^ Str.of_Z status_code ^^ ": " ^^ r_reason r])) ;;
  response <- json_loads r ;;
  match errors with
  | [] =>
      match response with
      | JList l =>
          ret (l, if (List.length l <? per_page)%nat then false
                  else negb single_request)
      | JDict _ =>
          if single_request then ret ([response], false)
          else ret ([], negb single_request)
      | _ => ret ([], negb single_request)
      end
  | _ => log_error errors
  end.

(** [for x in items: body], where the body may [break]; the result tells
    whether it did. *)
Fixpoint for_items {St} (items : list json) (body : json -> St -> M (St * bool))
    (s : St) : M (St * bool) :=
  match items with
  | [] => ret (s, false)
  | x :: rest =>
      ' (s', broke) <- body x s ;;
      if broke then ret (s', true) else for_items rest body s'
  end.

(** The generator at work under a consumer: [page] counts the pages fetched
    so far.  A consumer that breaks leaves the generator suspended at its
    [yield], and nothing more of it runs. *)
Fixpoint for_pages {St} (fuel : nat) (auth : option credential)
    (query_args : list (string * json)) (template : string)
    (single_request : bool) (page : Z)
    (body : json -> St -> M (St * bool)) (s : St) : M St :=
  match fuel with
  | O => out_of_fuel
  | S fuel' =>
      let page := page + 1 in
      ' (items, more) <- fetch_page auth query_args template single_request page ;;
      ' (s', broke) <- for_items items body s ;;
      if broke then ret s'
      else if more
           then for_pages fuel' auth query_args template single_request page body s'
           else ret s'
  end.

(** Calling [retrieve_data_gen] runs nothing: it makes a generator. *)
Record generator := {
  gen_template : string;
  gen_query_args : option (list (string * json));
  gen_single_request : bool
}.

Definition retrieve_data_gen (template : string)
    (query_args : option (list (string * json))) (single_request : bool)
  : generator :=
  {| gen_template := template; gen_query_args := query_args;
     gen_single_request := single_request |}.

(** [for x in g: body].  The first [next] runs the head of the generator
    ([get_auth], [get_query_args]); every page takes at least one outcome off
    the script. *)
Definition for_in {St} (g : generator) (body : json -> St -> M (St * bool))
    (s : St) : M St :=
  args <- get_args ;;
  auth <- get_auth (negb (arg_as_app args)) false ;;
  let query_args := get_query_args (gen_query_args g) in
  fun w =>
    for_pages (S (List.length (w_net w))) auth query_args (gen_template g)
              (gen_single_request g) 0 body s w.

Definition collect (x : json) (acc : list json) : M (list json * bool) :=
  ret (acc ++ [x], false).

(** [list(retrieve_data_gen(...))] *)
Definition retrieve_data (template : string)
    (query_args : option (list (string * json))) (single_request : bool)
  : M (list json) :=
  for_in (retrieve_data_gen template query_args single_request) collect [].

(** ** Python's access to JSON values *)

(** [v.get(k)] and [v.get(k, d)]: only a [dict] has the method. *)
Definition py_get_default (v : json) (k : string) (d : json) : M json :=
  match v with
  | JDict o => ret (default d (sget k o))
  | _ => raise AttributeError
  end.

Definition py_get (v : json) (k : string) : M json := py_get_default v k JNull.

(** [v[k]] for a string [k]. *)
Definition py_item (v : json) (k : string) : M json :=
  match v with
  | JDict o =>
      match sget k o with
      | Some x => ret x
      | None => raise (KeyError k)
      end
  | _ => raise TypeError
  end.

(** [k in v] for a string [k]: a key of a [dict], a substring of a [str],
    an element of a [list]. *)
Definition py_contains (k : string) (v : json) : M bool :=
  match v with
  | JDict o => ret (dict_mem String.eqb k o)
  | JStr s => ret (Str.contains k s)
  | JList l => ret (existsb (fun x => json_is_str x k) l)
  | _ => raise TypeError
  end.

(** A value where Python needs a [str]. *)
Definition as_str (v : json) : M string :=
  match v with
  | JStr s => ret s
  | _ => raise TypeError
  end.

(** A value used as a dictionary key. *)
Definition hashable (v : json) : M key :=
  match as_key v with
  | Some k => ret k
  | None => raise TypeError
  end.

(** [v < s] and [v >= s] for a [str] s: another [str] is compared, any
    other value is a [TypeError]. *)
Definition py_lt_str (v : json) (s : string) : M bool :=
  u <- as_str v ;; ret (Str.lt u s).

Definition py_ge_str (v : json) (s : string) : M bool :=
  u <- as_str v ;; ret (Str.ge u s).

(** [d[k] = x] on an object. *)
Definition set_field (k : string) (x : json) (v : json) : json :=
  match v with
  | JDict o => JDict (sset k x o)
  | _ => v
  end.

Fixpoint filter_m (p : json -> M bool) (l : list json) : M (list json) :=
  match l with
  | [] => ret []
  | x :: r =>
      keep <- p x ;;
      r' <- filter_m p r ;;
      ret (if keep then x :: r' else r')
  end.

Fixpoint fold_m {A St} (f : A -> St -> M St) (l : list A) (s : St) : M St :=
  match l with
  | [] => ret s
  | x :: r => s' <- f x s ;; fold_m f r s'
  end.

Definition of_nat (n : nat) : string := Str.of_Z (Z.of_nat n).

(** ** Filtering the repositories *)

Definition filter_repositories (unfiltered_repositories : list json)
  : M (list json) :=
  args <- get_args ;;
  env <- get_env ;;
  log_info "Filtering repositories" ;;
  repositories <-
    filter_m (fun r =>
      owner <- py_get_default r "owner" (JDict []) ;;
      login <- py_get owner "login" ;;
      if json_is_str login (arg_user args) then ret true
      else is_starred <- py_get r "is_starred" ;; ret (truthy is_starred))
      unfiltered_repositories ;;
  let name_regex :=
    if given (arg_name_regex args) then arg_name_regex args else None in
  let languages :=
    match arg_languages args with
    | Some (x :: l) => map Str.lower (x :: l)
    | _ => []
    end in
  repositories <-
    (if negb (arg_fork args)
     then filter_m (fun r => f <- py_get r "fork" ;; ret (negb (truthy f)))
                   repositories
     else ret repositories) ;;
  repositories <-
    (if negb (arg_private args)
     then filter_m (fun r =>
            p <- py_get r "private" ;;
            if negb (truthy p) then ret true
            else pub <- py_get r "public" ;; ret (truthy pub))
            repositories
     else ret repositories) ;;
  repositories <-
    (match languages with
     | _ :: _ =>
         filter_m (fun r =>
           lang <- py_get r "language" ;;
           if truthy lang then
             match lang with
             | JStr s => ret (existsb (String.eqb (Str.lower s)) languages)
             | _ => raise AttributeError
             end
           else ret false) repositories
     | [] => ret repositories
     end) ;;
  repositories <-
    (match name_regex with
     | Some pattern =>
         filter_m (fun r =>
           name <- py_item r "name" ;;
           s <- as_str name ;;
           ret (env_re_match env pattern s)) repositories
     | None => ret repositories
     end) ;;
  ret repositories.

(** ** Writing results *)

(** [with codecs.open(path, 'w') as f: json_dump(data, f)] *)
Definition json_dump_to (path : string) (data : json) : M unit :=
  write_file path (Json data).

Definition _backup_data (name template output_file output_directory : string)
  : M unit :=
  args <- get_args ;;
  let skip_existing := arg_skip_existing args in
  present <- (if skip_existing then path_exists output_file else ret false) ;;
  if negb skip_existing || negb present then
    log_info ("Retrieving " ^^ arg_user args ^^ " " ^^ name) ;;
    mkdir_p [output_directory] ;;
    data <- retrieve_data template None false ;;
    log_info ("Writing " ^^ of_nat (List.length data) ^^ " " ^^ name
              ^^ " to disk") ;;
    json_dump_to output_file (JList data)
  else ret tt.

(** ** Issues *)

(** The body of [for issue in _issues] in [backup_issues]. *)
Definition merge_issue (should_include_pulls : bool) (issue : json)
    (st : list (key * json) * Z) : M (list (key * json) * Z) :=
  let '(issues, issues_skipped) := st in
  is_pull <- py_contains "pull_request" issue ;;
  if is_pull && should_include_pulls then ret (issues, issues_skipped + 1)
  else
    number <- py_item issue "number" ;;
    k <- hashable number ;;
    ret (kset k issue issues, issues_skipped).

Definition backup_issues (repo_cwd : string) (repository : json)
    (repos_template : string) : M unit :=
  args <- get_args ;;
  has_issues_dir <- path_isdir (repo_cwd ^^ "/issues/.git") ;;
  if arg_skip_existing args && has_issues_dir then ret tt
  else
    full_name <- py_item repository "full_name" ;;
    log_info ("Retrieving " ^^ py_str full_name ^^ " issues") ;;
    let issue_cwd := Str.path_join repo_cwd "issues" in
    mkdir_p [repo_cwd; issue_cwd] ;;
    let _issue_template :=
      repos_template ^^ "/" ^^ py_str full_name ^^ "/issues" in
    let should_include_pulls :=
      arg_include_pulls args || arg_include_everything args in
    let issue_states := ["open"; "closed"] in
    ' (issues, issues_skipped) <-
      fold_m (fun issue_state st =>
        args <- get_args ;;
        let query_args :=
          [("filter", JStr "all"); ("state", JStr issue_state)]
          ++ (if given (arg_since args)
              then [("since", JStr (text (arg_since args)))] else []) in
        _issues <- retrieve_data _issue_template (Some query_args) false ;;
        fold_m (merge_issue should_include_pulls) _issues st)
        issue_states ([], 0) ;;
    let issues_skipped_message :=
      if negb (issues_skipped =? 0)
      then " (skipped " ^^ Str.of_Z issues_skipped ^^ " pull requests)"
      else "" in
    log_info ("Saving " ^^ of_nat (List.length issues) ^^ " issues to disk"
              ^^ issues_skipped_message) ;;
    for_each issues (fun '(number, issue) =>
      args <- get_args ;;
      issue <-
        (if arg_include_issue_comments args || arg_include_everything args
         then
           data <- retrieve_data (_issue_template ^^ "/" ^^ key_str number
                                  ^^ "/comments") None false ;;
           ret (set_field "comment_data" (JList data) issue)
         else ret issue) ;;
      issue <-
        (if arg_include_issue_events args || arg_include_everything args
         then
           data <- retrieve_data (_issue_template ^^ "/" ^^ key_str number
                                  ^^ "/events") None false ;;
           ret (set_field "event_data" (JList data) issue)
         else ret issue) ;;
      json_dump_to (issue_cwd ^^ "/" ^^ key_str number ^^ ".json") issue).

(** ** Pull requests *)

(** The two tests on [args.since] that open the body of [for pull in _pulls]:
    [Some true] is [break], [Some false] goes on to store the pull, [None]
    goes to the next pull. *)
Definition since_gate (pull : json) : M (option bool) :=
  args <- get_args ;;
  older <-
    (if given (arg_since args)
     then u <- py_item pull "updated_at" ;; py_lt_str u (text (arg_since args))
     else ret false) ;;
  if older then ret (Some true)
  else
    keep <-
      (if negb (given (arg_since args)) then ret true
       else u <- py_item pull "updated_at" ;;
            py_ge_str u (text (arg_since args))) ;;
    ret (if keep then Some false else None).

(** [pulls[pull['number']] = pull] *)
Definition keep_pull (pull : json) (pulls : list (key * json))
  : M (list (key * json) * bool) :=
  gate <- since_gate pull ;;
  match gate with
  | Some true => ret (pulls, true)
  | Some false =>
      number <- py_item pull "number" ;;
      k <- hashable number ;;
      ret (kset k pull pulls, false)
  | None => ret (pulls, false)
  end.

(** [pulls[pull['number']] = retrieve_data(..., single_request=True)[0]] *)
Definition keep_pull_details (_pulls_template : string) (pull : json)
    (pulls : list (key * json)) : M (list (key * json) * bool) :=
  gate <- since_gate pull ;;
  match gate with
  | Some true => ret (pulls, true)
  | Some false =>
      number <- py_item pull "number" ;;
      data <- retrieve_data (_pulls_template ^^ "/" ^^ py_str number) None true ;;
      detail <- match data with
                | x :: _ => ret x
                | [] => raise IndexError
                end ;;
      k <- hashable number ;;
      ret (kset k detail pulls, false)
  | None => ret (pulls, false)
  end.

Definition pulls_query (state : string) : list (string * json) :=
  [("filter", JStr "all"); ("state", JStr state); ("sort", JStr "updated");
   ("direction", JStr "desc")].

(** The pulls of [backup_pulls], up to the line that announces the saving. *)
Definition collect_pulls (_pulls_template : string) : M (list (key * json)) :=
  args <- get_args ;;
  if negb (arg_include_pull_details args) then
    let pull_states := ["open"; "closed"] in
    fold_m (fun pull_state pulls =>
      let _pulls :=
        retrieve_data_gen _pulls_template (Some (pulls_query pull_state))
                          false in
      for_in _pulls keep_pull pulls) pull_states []
  else
    let _pulls :=
      retrieve_data_gen _pulls_template (Some (pulls_query "all")) false in
    for_in _pulls (keep_pull_details _pulls_template) [].

Definition backup_pulls (repo_cwd : string) (repository : json)
    (repos_template : string) : M unit :=
  args <- get_args ;;
  has_pulls_dir <- path_isdir (repo_cwd ^^ "/pulls/.git") ;;
  if arg_skip_existing args && has_pulls_dir then ret tt
  else
    full_name <- py_item repository "full_name" ;;
    log_info ("Retrieving " ^^ py_str full_name ^^ " pull requests") ;;
    let pulls_cwd := Str.path_join repo_cwd "pulls" in
    mkdir_p [repo_cwd; pulls_cwd] ;;
    let _pulls_template :=
      repos_template ^^ "/" ^^ py_str full_name ^^ "/pulls" in
    pulls <- collect_pulls _pulls_template ;;
    log_info ("Saving " ^^ of_nat (List.length pulls)
              ^^ " pull requests to disk") ;;
    for_each pulls (fun '(number, pull) =>
      args <- get_args ;;
      pull <-
        (if arg_include_pull_comments args || arg_include_everything args
         then
           data <- retrieve_data (_pulls_template ^^ "/" ^^ key_str number
                                  ^^ "/comments") None false ;;
           ret (set_field "comment_data" (JList data) pull)
         else ret pull) ;;
      pull <-
        (if arg_include_pull_commits args || arg_include_everything args
         then
           data <- retrieve_data (_pulls_template ^^ "/" ^^ key_str number
                                  ^^ "/commits") None false ;;
           ret (set_field "commit_data" (JList data) pull)
         else ret pull) ;;
      json_dump_to (pulls_cwd ^^ "/" ^^ key_str number ^^ ".json") pull).

(** ** Milestones, labels, hooks *)

Definition backup_milestones (repo_cwd : string) (repository : json)
    (repos_template : string) : M unit :=
  args <- get_args ;;
  let milestone_cwd := Str.path_join repo_cwd "milestones" in
  present <- (if arg_skip_existing args then path_isdir milestone_cwd
              else ret false) ;;
  if arg_skip_existing args && present then ret tt
  else
    full_name <- py_item repository "full_name" ;;
    log_info ("Retrieving " ^^ py_str full_name ^^ " milestones") ;;
    mkdir_p [repo_cwd; milestone_cwd] ;;
    let template := repos_template ^^ "/" ^^ py_str full_name ^^ "/milestones" in
    let query_args := [("state", JStr "all")] in
    _milestones <- retrieve_data template (Some query_args) false ;;
    milestones <-
      fold_m (fun milestone milestones =>
        number <- py_item milestone "number" ;;
        k <- hashable number ;;
        ret (kset k milestone milestones)) _milestones [] ;;
    log_info ("Saving " ^^ of_nat (List.length milestones)
              ^^ " milestones to disk") ;;
    for_each milestones (fun '(number, milestone) =>
      json_dump_to (milestone_cwd ^^ "/" ^^ key_str number ^^ ".json")
                   milestone).

Definition backup_labels (repo_cwd : string) (repository : json)
    (repos_template : string) : M unit :=
  let label_cwd := Str.path_join repo_cwd "labels" in
  let output_file := label_cwd ^^ "/labels.json" in
  full_name <- py_item repository "full_name" ;;
  let template := repos_template ^^ "/" ^^ py_str full_name ^^ "/labels" in
  _backup_data "labels" template output_file label_cwd.

Definition backup_hooks (repo_cwd : string) (repository : json)
    (repos_template : string) : M unit :=
  auth <- get_auth true false ;;
  match auth with
  | None => log_info "Skipping hooks since no authentication provided"
  | Some _ =>
      let hook_cwd := Str.path_join repo_cwd "hooks" in
      let output_file := hook_cwd ^^ "/hooks.json" in
      full_name <- py_item repository "full_name" ;;
      let template := repos_template ^^ "/" ^^ py_str full_name ^^ "/hooks" in
      except_SystemExit
        (_backup_data "hooks" template output_file hook_cwd)
        (log_info "Unable to read hooks, skipping")
  end.

(** ** The repository mirror *)

Definition join_words (ws : list string) : string :=
  String.concat " " ws.

(** [logging_subprocess(popenargs, None, cwd=cwd)]: the child runs, and a
    non-zero exit code is reported on stderr.  The exit code is returned and
    the callers drop it. *)
Definition logging_subprocess (popenargs : list string) (cwd : option string)
  : M Z :=
  env <- get_env ;;
  tell (EvRun popenargs cwd) ;;
  when (env_win32 env)
       (log_info "Windows operating system detected - no subprocess logging will be returned") ;;
  let rc := env_git_rc env popenargs in
  when (negb (rc =? 0))
       (tell (EvStderr (hd "" popenargs ^^ " returned " ^^ Str.of_Z rc ^^ ":")) ;;
        tell (EvStderr (String "009" (" " ^^ join_words popenargs)))) ;;
  ret rc.

Definition mask_password (url : string) : M string :=
  env <- get_env ;;
  let '(username, password) := env_urlparse env url in
  let secret := "*****" in
  if negb (given password) then ret url
  else if String.eqb (text password) "x-oauth-basic"
       then ret (Str.replace (text username) secret url)
       else ret (Str.replace (text password) secret url).

(** [subprocess.check_output(argv, cwd=cwd)]: the output, or
    [CalledProcessError] on a non-zero exit. *)
Definition check_output {A} (argv : list string) (cwd : string)
    (out : option A) : M A :=
  tell (EvRun argv (Some cwd)) ;;
  match out with
  | Some o => ret o
  | None => raise CalledProcessError
  end.

Definition fetch_repository (name : json) (remote_url : json)
    (local_dir : string) (skip_existing bare_clone lfs_clone : bool) : M unit :=
  env <- get_env ;;
  clone_exists <-
    (if bare_clone then
       present <- path_exists local_dir ;;
       if present then
         out <- check_output ["git"; "rev-parse"; "--is-bare-repository"]
                             local_dir (env_git_is_bare env local_dir) ;;
         ret (String.eqb out ("true" ^^ String "010" ""))
       else ret false
     else path_exists (Str.path_join local_dir ".git")) ;;
  if clone_exists && skip_existing then ret tt
  else
    remote_url <- as_str remote_url ;;
    masked_remote_url <- mask_password remote_url ;;
    tell (EvShell ("git ls-remote " ^^ remote_url)) ;;
    let initialized := env_git_ls_remote env remote_url in
    if initialized =? 128 then
      log_info ("Skipping " ^^ py_str name ^^ " (" ^^ masked_remote_url
                ^^ ") since it's not initialized")
    else if clone_exists then
      log_info ("Updating " ^^ py_str name ^^ " in " ^^ local_dir) ;;
      remotes <- check_output ["git"; "remote"; "show"] local_dir
                              (env_git_remotes env local_dir) ;;
      let remotes := map Str.strip remotes in
      (if negb (existsb (String.eqb "origin") remotes) then
         logging_subprocess ["git"; "remote"; "rm"; "origin"] (Some local_dir) ;;
         logging_subprocess ["git"; "remote"; "add"; "origin"; remote_url]
                            (Some local_dir)
       else
         logging_subprocess ["git"; "remote"; "set-url"; "origin"; remote_url]
                            (Some local_dir)) ;;
      let git_command :=
        if lfs_clone then ["git"; "lfs"; "fetch"; "--all"; "--prune"]
        else ["git"; "fetch"; "--all"; "--force"; "--tags"; "--prune"] in
      logging_subprocess git_command (Some local_dir) ;;
      ret tt
    else
      log_info ("Cloning " ^^ py_str name ^^ " repository from "
                ^^ masked_remote_url ^^ " to " ^^ local_dir) ;;
      let git_command :=
        if bare_clone then
          if lfs_clone
          then ["git"; "lfs"; "clone"; "--mirror"; remote_url; local_dir]
          else ["git"; "clone"; "--mirror"; remote_url; local_dir]
        else
          if lfs_clone
          then ["git"; "lfs"; "clone"; remote_url; local_dir]
          else ["git"; "clone"; remote_url; local_dir] in
      logging_subprocess git_command None ;;
      ret tt.

(** A child process that clones or fetches: [clone] or [fetch] is one of
    the words of its command line. *)
Definition is_clone_or_fetch (e : event) : bool :=
  match e with
  | EvRun argv _ =>
      existsb (fun a => String.eqb a "clone" || String.eqb a "fetch") argv
  | _ => false
  end.

Definition get_github_repo_url (repository : json) : M json :=
  args <- get_args ;;
  env <- get_env ;;
  is_gist <- py_get repository "is_gist" ;;
  if truthy is_gist then
    if arg_prefer_ssh args then
      u <- py_item repository "git_pull_url" ;;
      s <- as_str u ;;
      ret (JStr (env_gist_ssh_url env s))
    else py_item repository "git_pull_url"
  else if arg_prefer_ssh args then py_item repository "ssh_url"
  else
    auth <- get_auth false true ;;
    private <-
      (match auth with
       | Some _ =>
           p <- py_item repository "private" ;;
           ret (match p with JBool true => true | _ => false end)
       | None => ret false
       end) ;;
    args <- get_args ;;
    match auth, private with
    | Some (Plain a), true | Some (B64 a), true =>
        owner <- py_item repository "owner" ;;
        login <- py_item owner "login" ;;
        name <- py_item repository "name" ;;
        ret (JStr ("https://" ^^ a ^^ "@" ^^ get_github_host args ^^ "/"
                   ^^ py_str login ^^ "/" ^^ py_str name ^^ ".git"))
    | _, _ => py_item repository "clone_url"
    end.

(** ** Releases *)

(** [opener.open(request)] of [download_file]: one more call to the
    network. *)
Definition opener_open (rq : Request) : M outcome :=
  fun w =>
    let w1 := emit (EvDownload rq) w in
    match w_net w with
    | [] => (Starved, w1)
    | o :: rest => (Ret o, with_net rest w1)
    end.

(** [response.read(chunk_size)]: the body of a download comes piece by
    piece over the connection, and every piece is one more outcome on the
    script, after the answer to the request.  An answer stands for the bytes
    it carries as its body (none, once the body is at its end); an error is
    the connection failing. *)
Definition read_chunk : M outcome :=
  fun w =>
    match w_net w with
    | [] => (Starved, w)
    | o :: rest => (Ret o, with_net rest w)
    end.

(** The three [except] clauses of [download_file]. *)
Definition skip_download (url : string) (o : outcome) : M unit :=
  match o with
  | Responded _ => ret tt
  | HTTPError exc =>
      log_warning ("Skipping download of asset " ^^ url
                   ^^ " due to HTTPError: " ^^ r_reason exc)
  | URLError reason =>
      log_warning ("Skipping download of asset " ^^ url
                   ^^ " due to URLError: " ^^ default "None" reason)
  | SocketError strerror =>
      log_warning ("Skipping download of asset " ^^ url
                   ^^ " due to socker error: " ^^ default "None" strerror)
  end.

(** The [while True] of [download_file], inside [with open(path, 'wb')] and
    inside the [try]: [sofar] is what the file holds.  A piece that is read
    goes to the file; when reading fails the file keeps what it has. *)
Fixpoint read_body (fuel : nat) (url path sofar : string) : M unit :=
  match fuel with
  | O => out_of_fuel
  | S fuel' =>
      o <- read_chunk ;;
      match o with
      | Responded r =>
          let chunk := content_text (r_body r) in
          if String.eqb chunk "" then ret tt
          else
            fs_store path (File (Text (sofar ^^ chunk))) ;;
            read_body fuel' url path (sofar ^^ chunk)
      | _ => skip_download url o
      end
  end.

Definition download_file (url : json) (path : string)
    (auth : option credential) : M unit :=
  present <- path_exists path ;;
  if present then ret tt
  else
    url <- as_str url ;;
    a <- match auth with
         | Some (B64 a) => ret (B64 a)
         | _ => raise TypeError
         end ;;
    let request :=
      {| req_url := url; req_query := [];
         req_headers := [("Accept", Hv "application/octet-stream");
                         ("Authorization", HvAuth "Basic " a)] |} in
    o <- opener_open request ;;
    match o with
    | Responded _ =>
        tell (EvWrite path (Text "")) ;;
        fs_store path (File (Text "")) ;;
        fun w => read_body (S (List.length (w_net w))) url path "" w
    | _ => skip_download url o
    end.

Definition backup_releases (repo_cwd : string) (repository : json)
    (repos_template : string) (include_assets : bool) : M unit :=
  repository_fullname <- py_item repository "full_name" ;;
  let release_cwd := Str.path_join repo_cwd "releases" in
  log_info ("Retrieving " ^^ py_str repository_fullname ^^ " releases") ;;
  mkdir_p [repo_cwd; release_cwd] ;;
  let release_template :=
    repos_template ^^ "/" ^^ py_str repository_fullname ^^ "/releases" in
  releases <- retrieve_data release_template (Some []) false ;;
  log_info ("Saving " ^^ of_nat (List.length releases) ^^ " releases to disk") ;;
  for_each releases (fun release =>
    release_name <- py_item release "tag_name" ;;
    let output_filepath :=
      Str.path_join release_cwd (py_str release_name ^^ ".json") in
    json_dump_to output_filepath release ;;
    when include_assets
      (assets_url <- py_item release "assets_url" ;;
       template <- as_str assets_url ;;
       assets <- retrieve_data template None false ;;
       match assets with
       | [] => ret tt
       | _ =>
           release_name <- as_str release_name ;;
           let release_assets_cwd := Str.path_join release_cwd release_name in
           mkdir_p [release_assets_cwd] ;;
           for_each assets (fun asset =>
             url <- py_item asset "url" ;;
             name <- py_item asset "name" ;;
             name <- as_str name ;;
             auth <- get_auth true false ;;
             download_file url (Str.path_join release_assets_cwd name) auth)
       end)).

(** ** The coordinator *)

(** [max(values)] for a non-empty list: of one value it is that value;
    strings are compared as strings; two or more values that are not all
    strings do not compare (the API sends timestamps as strings). *)
Definition py_max (values : list json) : M json :=
  match values with
  | [] => raise ValueError
  | [v] => ret v
  | v :: rest =>
      s <- as_str v ;;
      ss <- fold_m (fun x acc => u <- as_str x ;; ret (acc ++ [u])) rest [] ;;
      ret (JStr (Str.max_from s ss))
  end.

(** [os.path.join(a, b)] where [b] comes from the API. *)
Definition join_json (a : string) (b : json) : M string :=
  s <- as_str b ;; ret (Str.path_join a s).

(** The head of [backup_repositories]: the Cutoff to write at the end, and
    [args.since] read from the watermark file. *)
Definition read_watermark (output_directory : string)
    (repositories : list json) : M (option json) :=
  args <- get_args ;;
  if arg_incremental args then
    env <- get_env ;;
    stamps <- fold_m (fun repository acc =>
                        u <- py_item repository "updated_at" ;;
                        ret (acc ++ [u])) repositories [] ;;
    now <- timegm_now ;;
    last_update <- py_max (match stamps with
                           | [] => [JStr (env_localtime env now)]
                           | _ => stamps
                           end) ;;
    let last_update_path := Str.path_join output_directory "last_update" in
    present <- path_exists last_update_path ;;
    (if present then
       c <- read_file last_update_path ;;
       set_args (set_since (Some (Str.strip (content_text c))) args)
     else set_args (set_since None args)) ;;
    ret (Some last_update)
  else
    set_args (set_since None args) ;;
    ret None.

(** The tail of [backup_repositories]:
    [open(last_update_path, 'w').write(last_update)]; the file is opened,
    and so emptied, before a value that is not a [str] is refused. *)
Definition write_watermark (output_directory : string)
    (last_update : option json) : M unit :=
  args <- get_args ;;
  if arg_incremental args then
    let last_update_path := Str.path_join output_directory "last_update" in
    match last_update with
    | Some (JStr s) => write_file last_update_path (Text s)
    | _ => write_file last_update_path (Text "") ;; raise TypeError
    end
  else ret tt.

(** The body of [for repository in repositories]. *)
Definition backup_repository (output_directory : string)
    (repos_template : string) (repository : json) : M unit :=
  args <- get_args ;;
  is_gist <- py_get repository "is_gist" ;;
  repo_cwd <-
    (if truthy is_gist then
       id <- py_item repository "id" ;;
       join_json (Str.path_join output_directory "gists") id
     else
       is_starred <- py_get repository "is_starred" ;;
       if truthy is_starred then
         owner <- py_item repository "owner" ;;
         login <- py_item owner "login" ;;
         name <- py_item repository "name" ;;
         d <- join_json (Str.path_join output_directory "starred") login ;;
         join_json d name
       else
         name <- py_item repository "name" ;;
         join_json (Str.path_join output_directory "repositories") name) ;;
  let repo_dir := Str.path_join repo_cwd "repository" in
  repo_url <- get_github_repo_url repository ;;
  args <- get_args ;;
  let include_gists :=
    arg_include_gists args || arg_include_starred_gists args in
  is_gist <- py_get repository "is_gist" ;;
  done <-
    (if (arg_include_repository args || arg_include_everything args)
        || (include_gists && truthy is_gist) then
       repo_name <- (if negb (truthy is_gist) then py_get repository "name"
                     else py_get repository "id") ;;
       fetch_repository repo_name repo_url repo_dir (arg_skip_existing args)
                        (arg_bare_clone args) (arg_lfs_clone args) ;;
       if truthy is_gist then
         json_dump_to (repo_cwd ^^ "/gist.json") repository ;;
         ret true
       else ret false
     else ret false) ;;
  if (done : bool) then ret tt
  else
    args <- get_args ;;
    let download_wiki := arg_include_wiki args || arg_include_everything args in
    has_wiki <- py_item repository "has_wiki" ;;
    when (truthy has_wiki && download_wiki)
         (name <- py_item repository "name" ;;
          url <- match repo_url with
                 | JStr s => ret (JStr (Str.replace ".git" ".wiki.git" s))
                 | _ => raise AttributeError
                 end ;;
          fetch_repository name url (Str.path_join repo_cwd "wiki")
                           (arg_skip_existing args) (arg_bare_clone args)
                           (arg_lfs_clone args)) ;;
    when (arg_include_issues args || arg_include_everything args)
         (backup_issues repo_cwd repository repos_template) ;;
    when (arg_include_pulls args || arg_include_everything args)
         (backup_pulls repo_cwd repository repos_template) ;;
    when (arg_include_milestones args || arg_include_everything args)
         (backup_milestones repo_cwd repository repos_template) ;;
    when (arg_include_labels args || arg_include_everything args)
         (backup_labels repo_cwd repository repos_template) ;;
    when (arg_include_hooks args || arg_include_everything args)
         (backup_hooks repo_cwd repository repos_template) ;;
    when (arg_include_releases args || arg_include_everything args)
         (backup_releases repo_cwd repository repos_template
                          (arg_include_assets args
                           || arg_include_everything args)).

Definition backup_repositories (output_directory : string)
    (repositories : list json) : M unit :=
  log_info "Backing up repositories" ;;
  args <- get_args ;;
  let repos_template := "https://" ^^ get_github_api_host args ^^ "/repos" in
  last_update <- read_watermark output_directory repositories ;;
  for_each repositories (backup_repository output_directory repos_template) ;;
  write_watermark output_directory last_update.

(** ** What a trace shows *)

(** The requests handed to [urlopen], in order. *)
Definition urlopens (t : list event) : list Request :=
  flat_map (fun e => match e with EvUrlopen rq => [rq] | _ => [] end) t.

(** The page numbers those requests carry. *)
Definition pages_requested (t : list event) : list json :=
  map (fun rq => default JNull (sget "page" (req_query rq))) (urlopens t).

(** The durations handed to [time.sleep], in order. *)
Definition sleeps (t : list event) : list Z :=
  flat_map (fun e => match e with EvSleep d => [d] | _ => [] end) t.

(** [w1] is [w] after one more request [rq] that took the script down to
    [rest]: the options, the environment and the files are those of [w]. *)
Definition fetched (rq : Request) (rest : list outcome) (w w1 : world) : Prop :=
  w_net w1 = rest /\ w_args w1 = w_args w /\ w_env w1 = w_env w
  /\ w_fs w1 = w_fs w /\ urlopens (w_trace w1) = urlopens (w_trace w) ++ [rq].

(** The rate-limit answer of [_request_http_error]: HTTP 403 with no request
    left. *)
Definition rate_limited (exc : response) : bool :=
  (r_code exc =? 403)
  && (default 0 (x_ratelimit_remaining (r_headers exc)) <? 1).

(** [x-ratelimit-reset], read as the program reads it. *)
Definition reset_timestamp (exc : response) : Z :=
  default 0 (x_ratelimit_reset (r_headers exc)).

(** The wait of the specification: [max(10, reset_timestamp - now)]. *)
Definition wait_time (exc : response) (now : Z) : Z :=
  Z.max 10 (reset_timestamp exc - now).

(** The world once [_get_response] has met a rate-limit answer to [rq] and
    slept, and once it has met a run of them. *)
Definition after_backoff (rq : Request) (auth : option credential)
    (w : world) (exc : response) : world :=
  snd (_request_http_error exc auth [] (emit (EvUrlopen rq) w)).

Definition after_backoffs (rq : Request) (auth : option credential)
    (excs : list response) (w : world) : world :=
  fold_left (after_backoff rq auth) excs w.


(** The Cutoff that the watermark file of [output_directory] holds. *)
Definition watermark (output_directory : string) (w : world) : option string :=
  match sget (Str.path_join output_directory "last_update") (w_fs w) with
  | Some (File (Text s)) => Some s
  | _ => None
  end.

(** The [updated_at] of a resource, when it has one and it is a string. *)
Definition updated_at (r : json) : option string :=
  match r with
  | JDict d =>
      match sget "updated_at" d with
      | Some (JStr s) => Some s
      | _ => None
      end
  | _ => None
  end.

(** The timestamps of a list of resources that all carry one. *)
Fixpoint stamps_of (l : list json) : option (list string) :=
  match l with
  | [] => Some []
  | r :: l' =>
      match updated_at r, stamps_of l' with
      | Some s, Some ss => Some (s :: ss)
      | _, _ => None
      end
  end.

(** The newest of a list of timestamps. *)
Definition newest (stamps : list string) : option string :=
  match stamps with
  | [] => None
  | s :: r => Some (Str.max_from s r)
  end.

(** The key under which [merge_issue] stores an issue: none when the issue
    is skipped as a pull request, or has no usable [number]. *)
Definition stored_as (should_include_pulls : bool) (issue : json)
  : option key :=
  match issue with
  | JDict d =>
      if dict_mem String.eqb "pull_request" d && should_include_pulls
      then None
      else match sget "number" d with
           | Some n => as_key n
           | None => None
           end
  | _ => None
  end.

(** The dictionary after one issue, and after a list of them. *)
Definition store_issue (should_include_pulls : bool)
    (issues : list (key * json)) (issue : json) : list (key * json) :=
  match stored_as should_include_pulls issue with
  | Some k => kset k issue issues
  | None => issues
  end.

Definition merged (should_include_pulls : bool) (l : list json)
    (issues : list (key * json)) : list (key * json) :=
  fold_left (store_issue should_include_pulls) l issues.

(** No key sits twice in a dictionary built by [kset]. *)
Definition unique_keys (d : list (key * json)) : Prop :=
  forall k, (kcount k d <= 1)%nat.

(** The key under which [keep_pull] stores a pull: its [number], when it
    has one that can be a key. *)
Definition number_key (x : json) : option key :=
  match x with
  | JDict d =>
      match sget "number" d with
      | Some n => as_key n
      | None => None
      end
  | _ => None
  end.

Definition store_pull (pulls : list (key * json)) (x : json)
  : list (key * json) :=
  match number_key x with
  | Some k => kset k x pulls
  | None => pulls
  end.

(** What the loop over the pulls of one page does under the Cutoff [c]:
    the pulls it stores, and whether it met one older than [c] and broke.
    Every pull up to there carries a timestamp, and a number if it is
    stored. *)
Fixpoint scan (c : string) (items : list json) : option (list json * bool) :=
  match items with
  | [] => Some ([], false)
  | x :: r =>
      match updated_at x with
      | None => None
      | Some s =>
          if Str.lt s c then Some ([], true)
          else match number_key x, scan c r with
               | Some _, Some (kept, broke) => Some (x :: kept, broke)
               | _, _ => None
               end
      end
  end.

(** The response [r] is a successful page with the items [p]. *)
Definition serves (r : response) (p : list json) : Prop :=
  r_code r = 200 /\ r_body r = Json (JList p).

(** [x] was updated no earlier than [y]: the order in which the API lists
    pulls sorted by [updated], direction [desc]. *)
Definition desc (x y : json) : Prop :=
  match updated_at x, updated_at y with
  | Some a, Some b => Str.ge a b = true
  | _, _ => False
  end.

(** The same order as a test, and the test that a whole stream is in that
    order. *)
Definition descb (x y : json) : bool :=
  match updated_at x, updated_at y with
  | Some a, Some b => Str.ge a b
  | _, _ => false
  end.

Fixpoint descending (l : list json) : bool :=
  match l with
  | [] => true
  | x :: r =>
      match r with
      | [] => true
      | y :: _ => descb x y && descending r
      end
  end.

(** A resource updated at the Cutoff [c] or after it, and one updated
    before it. *)
Definition fresh (c : string) (x : json) : Prop :=
  exists s, updated_at x = Some s /\ Str.ge s c = true.

Definition older (c : string) (x : json) : Prop :=
  exists s, updated_at x = Some s /\ Str.lt s c = true.

(** The throttle test of [retrieve_data_gen] on the answer [r]: a limit is
    set and the requests left are no more than it. *)
Definition throttled (a : Args) (r : response) : bool :=
  negb (arg_throttle_limit a =? 0)
  && (default 0 (x_ratelimit_remaining (r_headers r)) <=? arg_throttle_limit a).

(** The pause that follows an answer. *)
Definition throttle_sleep (a : Args) (r : response) : list Z :=
  if throttled a r then [arg_throttle_pause a] else [].

(** The bytes that a piece of a download carries, and the outcomes that
    end the reading of a body: the empty piece, or a failure. *)
Definition chunk_text (p : response) : string := content_text (r_body p).

Definition ends_body (o : outcome) : bool :=
  match o with
  | Responded e => String.eqb (chunk_text e) ""
  | _ => true
  end.

(** The line that [download_file] logs for an outcome it passes over. *)
Definition skip_warning (url : string) (o : outcome) : list event :=
  match o with
  | Responded _ => []
  | HTTPError exc =>
      [EvWarn ("Skipping download of asset " ^^ url
               ^^ " due to HTTPError: " ^^ r_reason exc)]
  | URLError reason =>
      [EvWarn ("Skipping download of asset " ^^ url
               ^^ " due to URLError: " ^^ default "None" reason)]
  | SocketError strerror =>
      [EvWarn ("Skipping download of asset " ^^ url
               ^^ " due to socker error: " ^^ default "None" strerror)]
  end.

(** The pieces of a body, end to end. *)
Definition joined (pieces : list response) : string :=
  String.concat "" (map chunk_text pieces).

Definition is_failure (o : outcome) : bool :=
  match o with
  | Responded _ => false
  | _ => true
  end.

(** The files written with [json_dump] or [write], in order. *)
Definition writes (t : list event) : list (string * content) :=
  flat_map (fun e => match e with EvWrite p c => [(p, c)] | _ => [] end) t.

(** Options under which [get_auth] has nothing to ask and nothing to read:
    no key-chain item, no token file, and a password wherever a user name
    is given. *)
Definition settled_credentials (a : Args) : bool :=
  negb (given (arg_osx_keychain_item_name a))
  && negb (given (arg_osx_keychain_item_account a))
  && (if given (arg_token a)
      then negb (Str.startswith "file://" (text (arg_token a)))
      else if given (arg_username a) then given (arg_password a)
           else negb (given (arg_password a))).

(** An item of a list of issues that [merge_issue] can take: an object that
    is passed over as a pull request, or that has a [number] fit for a
    key. *)
Definition mergeable (should_include_pulls : bool) (issue : json) : bool :=
  match issue with
  | JDict d =>
      (dict_mem String.eqb "pull_request" d && should_include_pulls)
      || match sget "number" d with
         | Some n => match as_key n with Some _ => true | None => false end
         | None => false
         end
  | _ => false
  end.

(** The file of the resource [number] in the directory [cwd]. *)
Definition resource_file (cwd : string) (number : key) : string :=
  cwd ^^ "/" ^^ key_str number ^^ ".json".

(** The writes that save a dictionary of resources in [cwd]. *)
Definition dumps (cwd : string) (d : list (key * json))
  : list (string * content) :=
  map (fun kx => (resource_file cwd (fst kx), Json (snd kx))) d.

(** ** One listing of pull requests

    What the API gives for one state of the pulls, newest update first: the
    pages with [per_page] pulls that the loop goes through to the end, each
    with its answer; the page at which the loop ends, with the pulls it
    keeps of that page and whether it broke there; and the pulls of the
    pages behind, which the program never asks for. *)
Record listing := {
  ls_full : list (response * list json);
  ls_last : response * list json;
  ls_kept : list json;
  ls_broke : bool;
  ls_later : list json
}.

(** The pulls the loop keeps of a listing, those it leaves out, and the
    whole listing in the order served. *)
Definition items_kept (l : listing) : list json :=
  List.concat (map snd (ls_full l)) ++ ls_kept l.

Definition items_left (l : listing) : list json :=
  skipn (List.length (ls_kept l)) (snd (ls_last l)) ++ ls_later l.

Definition items_listed (l : listing) : list json :=
  List.concat (map snd (ls_full l)) ++ snd (ls_last l) ++ ls_later l.

(** The listing [l] runs down to the Cutoff [c]: it is in descending order
    of update; the pages of [ls_full] are full and hold no pull older than
    [c]; the loop ends in the page [ls_last], at a pull older than [c] or
    because the page is short, and a short page is the last of the
    listing. *)
Definition to_cutoff (c : string) (l : listing) : Prop :=
  Forall (fun p => serves (fst p) (snd p)
                   /\ List.length (snd p) = per_page
                   /\ scan c (snd p) = Some (snd p, false)) (ls_full l)
  /\ serves (fst (ls_last l)) (snd (ls_last l))
  /\ scan c (snd (ls_last l)) = Some (ls_kept l, ls_broke l)
  /\ (ls_broke l = true \/ (List.length (snd (ls_last l)) < per_page)%nat)
  /\ ((List.length (snd (ls_last l)) < per_page)%nat -> ls_later l = [])
  /\ Sorted desc (items_listed l).

(** With [--pull-details] every pull that is kept costs one more request,
    answered by [answer]. *)
Definition detail_answers (details : bool) (answer : json -> response)
    (x : json) : list outcome :=
  if details then [Responded (answer x)] else [].

(** The outcomes that the loop over a listing takes off the script: each
    page, followed by the answers for the pulls kept of it. *)
Definition page_script (cost : json -> list outcome)
    (p : response * list json) : list outcome :=
  Responded (fst p) :: flat_map cost (snd p).

Definition listing_script (cost : json -> list outcome) (l : listing)
  : list outcome :=
  flat_map (page_script cost) (ls_full l)
  ++ page_script cost (fst (ls_last l), ls_kept l).

(** What is stored for a pull: the pull as listed, or with
    [--pull-details] the object [detail] that the API gives for it. *)
Definition stored_value (details : bool)
    (detail : json -> list (string * json)) (x : json) : json :=
  if details then JDict (detail x) else x.

(** The dictionary after the pulls [l] have been stored with the values
    [value]. *)
Definition store_as (value : json -> json) (pulls : list (key * json))
    (x : json) : list (key * json) :=
  match number_key x with
  | Some k => kset k (value x) pulls
  | None => pulls
  end.

Definition collected_as (value : json -> json) (l : list json)
    (pulls : list (key * json)) : list (key * json) :=
  fold_left (store_as value) l pulls.

(** The options under which the loop over the pulls is followed: the
    Cutoff is [c], nothing is asked of the user, and the pause of the
    throttle is a duration. *)
Definition under_cutoff (c : string) (a : Args) : Prop :=
  arg_since a = Some c
  /\ settled_credentials a = true
  /\ 0 <= arg_throttle_pause a.

(** The two bodies of [for pull in _pulls] as one: what a pull that is
    kept costs, and what is stored for it. *)
Definition pull_body (details : bool) (t : string)
  : json -> list (key * json) -> M (list (key * json) * bool) :=
  if details then keep_pull_details t else keep_pull.

(** The options of an incremental run that saves the pull requests and
    nothing else; [--pull-details] is left open. *)
Definition pulls_only (a : Args) : bool :=
  arg_incremental a && arg_include_pulls a
  && negb (arg_include_everything a || arg_include_repository a
           || arg_include_gists a || arg_include_starred_gists a
           || arg_include_wiki a || arg_include_issues a
           || arg_include_milestones a || arg_include_labels a
           || arg_include_hooks a || arg_include_releases a
           || arg_include_pull_comments a || arg_include_pull_commits a
           || arg_skip_existing a || arg_prefer_ssh a).

(** A repository of the user, public, as the API lists it. *)
Definition listed_repository (d : list (string * json))
    (name stamp : string) (full_name : json) : Prop :=
  sget "name" d = Some (JStr name)
  /\ sget "full_name" d = Some full_name
  /\ sget "updated_at" d = Some (JStr stamp)
  /\ sget "private" d = Some (JBool false)
  /\ sget "is_gist" d = None
  /\ sget "is_starred" d = None
  /\ (exists url, sget "clone_url" d = Some url)
  /\ (exists has_wiki, sget "has_wiki" d = Some has_wiki).

(** ** Properties of computations *)

(** [emits_first evs0 m]: [m] adds events to the trace and removes none,
    and the events it adds start with [evs0]. *)
Definition emits_first {A} (evs0 : list event) (m : M A) : Prop :=
  forall w, exists evs, w_trace (snd (m w)) = w_trace w ++ evs0 ++ evs.

Definition appends {A} (m : M A) : Prop := emits_first [] m.

(** [w'] has the [incremental] and [since] options of [w]. *)
Definition same_options (w w' : world) : Prop :=
  arg_incremental (w_args w') = arg_incremental (w_args w)
  /\ arg_since (w_args w') = arg_since (w_args w).

(** [m] leaves those two options as they are. *)
Definition keeps {A} (m : M A) : Prop :=
  forall w, same_options w (snd (m w)).

(** [m] writes no file: the files are as they were and the trace has no
    new write. *)
Definition writes_nothing {A} (m : M A) : Prop :=
  forall w,
    w_fs (snd (m w)) = w_fs w
    /\ writes (w_trace (snd (m w))) = writes (w_trace w).

(** ** Sample worlds

    The options [args.py] gives when only the user is named, an environment
    in which every external command succeeds, and responses of the usual
    shapes. *)

Module Sample.

(** The options [args.py] gives when only the user is named, but for the
    few that the examples vary. *)
Definition options (password token : option string)
    (incremental include_pulls : bool) (languages : option (list string))
    (since : option string) : Args :=
  {| arg_user := "octocat"; arg_username := None; arg_password := password;
     arg_token := token; arg_as_app := false; arg_incremental := incremental;
     arg_include_everything := false; arg_include_issues := false;
     arg_include_issue_comments := false; arg_include_issue_events := false;
     arg_include_pulls := include_pulls; arg_include_pull_comments := false;
     arg_include_pull_commits := false; arg_include_pull_details := false;
     arg_include_labels := false; arg_include_hooks := false;
     arg_include_milestones := false; arg_include_repository := false;
     arg_bare_clone := false; arg_lfs_clone := false;
     arg_include_wiki := false; arg_include_gists := false;
     arg_include_starred_gists := false; arg_skip_existing := false;
     arg_languages := languages; arg_name_regex := None;
     arg_github_host := None; arg_private := false; arg_fork := false;
     arg_prefer_ssh := false; arg_osx_keychain_item_name := None;
     arg_osx_keychain_item_account := None; arg_include_releases := false;
     arg_include_assets := false; arg_throttle_limit := 0;
     arg_throttle_pause := 30; arg_since := since |}.

Definition args0 : Args := options None None false false None None.

Definition env0 : environment :=
  {| env_platform := "Linux"; env_win32 := false;
     env_keychain := fun _ _ => None; env_getpass := [];
     env_localtime := fun _ => "2020-01-01T00:00:00Z";
     env_re_match := fun _ _ => true;
     env_urlparse := fun _ => (None, None);
     env_gist_ssh_url := fun u => u;
     env_git_is_bare := fun _ => Some "true
";
     env_git_ls_remote := fun _ => 0;
     env_git_remotes := fun _ => Some ["origin"];
     env_git_rc := fun _ => 0 |}.

Definition world0 (a : Args) (net : list outcome) : world :=
  {| w_args := a; w_env := env0; w_net := net; w_clock := 1600000000;
     w_fs := []; w_trace := [] |}.

Definition no_headers : headers :=
  {| x_ratelimit_remaining := None; x_ratelimit_reset := None;
     x_ratelimit_limit := None |}.

(** HTTP 200 with a JSON body. *)
Definition ok_response (body : json) : response :=
  {| r_code := 200; r_reason := "OK";
     r_headers :=
       {| x_ratelimit_remaining := Some 4000; x_ratelimit_reset := None;
          x_ratelimit_limit := Some "5000" |};
     r_body := Json body |}.

Definition ok (body : json) : outcome := Responded (ok_response body).

(** An HTTP error status without rate-limit headers. *)
Definition error_response (code : Z) (reason : string) : response :=
  {| r_code := code; r_reason := reason; r_headers := no_headers;
     r_body := Text "" |}.

Definition http_error (code : Z) (reason : string) : outcome :=
  HTTPError (error_response code reason).

(** HTTP 403 with the quota used up and a reset time. *)
Definition limited_response (reset : Z) : response :=
  {| r_code := 403; r_reason := "Forbidden";
     r_headers :=
       {| x_ratelimit_remaining := Some 0; x_ratelimit_reset := Some reset;
          x_ratelimit_limit := Some "60" |};
     r_body := Text "" |}.

Definition limited (reset : Z) : outcome := HTTPError (limited_response reset).

(** The first page of [t] as an anonymous client asks for it. *)
Definition page1 (t : string) : Request :=
  page_request per_page 1 [] t None false.

Definition item (n : Z) : json := JDict [("number", JNum n)].

(** An issue with a state. *)
Definition issue (n : Z) (state : string) : json :=
  JDict [("number", JNum n); ("state", JStr state)].

(** The repositories of the filtering scenario as the specification
    writes them, and with the owner the API sends along. *)
Definition repo_a : list (string * json) :=
  [("name", JStr "a"); ("fork", JBool true)].

Definition repo_b : list (string * json) :=
  [("name", JStr "b"); ("fork", JBool false); ("language", JStr "Go")].

Definition owned_by (user : string) (repository : list (string * json))
  : json :=
  JDict (repository ++ [("owner", JDict [("login", JStr user)])]).

Definition args_go : Args := options None None false false (Some ["go"]) None.

(** An environment in which the remote has no commits, and a world with
    a local directory for the mirror. *)
Definition env_uninitialized : environment :=
  {| env_platform := env_platform env0; env_win32 := env_win32 env0;
     env_keychain := env_keychain env0; env_getpass := env_getpass env0;
     env_localtime := env_localtime env0; env_re_match := env_re_match env0;
     env_urlparse := env_urlparse env0;
     env_gist_ssh_url := env_gist_ssh_url env0;
     env_git_is_bare := env_git_is_bare env0;
     env_git_ls_remote := fun _ => 128;
     env_git_remotes := env_git_remotes env0;
     env_git_rc := env_git_rc env0 |}.

Definition mirror_world : world :=
  {| w_args := args0; w_env := env_uninitialized; w_net := [];
     w_clock := 1600000000; w_fs := [("out/repositories/r/repository", Dir)];
     w_trace := [] |}.

(** Credentials: a password without a user name, and a token. *)
Definition args_password_only : Args :=
  options (Some "secret") None false false None None.

Definition args_token : Args :=
  options None (Some "t0ken") false false None None.

Definition repo_r : json :=
  JDict [("name", JStr "r"); ("full_name", JStr "octocat/r");
         ("clone_url", JStr "https://github.com/octocat/r.git");
         ("has_wiki", JBool false)].

(** A repository as the listing returns it, with its last update. *)
Definition repo (name stamp : string) : json :=
  JDict [("name", JStr name); ("full_name", JStr ("octocat/" ^^ name));
         ("clone_url", JStr ("https://github.com/octocat/" ^^ name ^^ ".git"));
         ("has_wiki", JBool false); ("updated_at", JStr stamp)].

Definition args_incremental : Args :=
  options None None true false None None.

(** The options of a run with [--throttle-limit] and [--throttle-pause]. *)
Definition throttling (limit pause : Z) : Args :=
  {| arg_user := "octocat"; arg_username := None; arg_password := None;
     arg_token := None; arg_as_app := false; arg_incremental := false;
     arg_include_everything := false; arg_include_issues := false;
     arg_include_issue_comments := false; arg_include_issue_events := false;
     arg_include_pulls := false; arg_include_pull_comments := false;
     arg_include_pull_commits := false; arg_include_pull_details := false;
     arg_include_labels := false; arg_include_hooks := false;
     arg_include_milestones := false; arg_include_repository := false;
     arg_bare_clone := false; arg_lfs_clone := false;
     arg_include_wiki := false; arg_include_gists := false;
     arg_include_starred_gists := false; arg_skip_existing := false;
     arg_languages := None; arg_name_regex := None;
     arg_github_host := None; arg_private := false; arg_fork := false;
     arg_prefer_ssh := false; arg_osx_keychain_item_name := None;
     arg_osx_keychain_item_account := None; arg_include_releases := false;
     arg_include_assets := false; arg_throttle_limit := limit;
     arg_throttle_pause := pause; arg_since := None |}.

(** The options of a run with [--username bob] and no password: the
    program will ask for one. *)
Definition args_prompt : Args :=
  {| arg_user := "octocat"; arg_username := Some "bob"; arg_password := None;
     arg_token := None; arg_as_app := false; arg_incremental := false;
     arg_include_everything := false; arg_include_issues := false;
     arg_include_issue_comments := false; arg_include_issue_events := false;
     arg_include_pulls := false; arg_include_pull_comments := false;
     arg_include_pull_commits := false; arg_include_pull_details := false;
     arg_include_labels := false; arg_include_hooks := false;
     arg_include_milestones := false; arg_include_repository := false;
     arg_bare_clone := false; arg_lfs_clone := false;
     arg_include_wiki := false; arg_include_gists := false;
     arg_include_starred_gists := false; arg_skip_existing := false;
     arg_languages := None; arg_name_regex := None;
     arg_github_host := None; arg_private := false; arg_fork := false;
     arg_prefer_ssh := false; arg_osx_keychain_item_name := None;
     arg_osx_keychain_item_account := None; arg_include_releases := false;
     arg_include_assets := false; arg_throttle_limit := 0;
     arg_throttle_pause := 30; arg_since := None |}.

(** The options of an incremental run for the pull requests, with
    [--pull-details] or without. *)
Definition args_pulls (details : bool) : Args :=
  {| arg_user := "octocat"; arg_username := None; arg_password := None;
     arg_token := None; arg_as_app := false; arg_incremental := true;
     arg_include_everything := false; arg_include_issues := false;
     arg_include_issue_comments := false; arg_include_issue_events := false;
     arg_include_pulls := true; arg_include_pull_comments := false;
     arg_include_pull_commits := false; arg_include_pull_details := details;
     arg_include_labels := false; arg_include_hooks := false;
     arg_include_milestones := false; arg_include_repository := false;
     arg_bare_clone := false; arg_lfs_clone := false;
     arg_include_wiki := false; arg_include_gists := false;
     arg_include_starred_gists := false; arg_skip_existing := false;
     arg_languages := None; arg_name_regex := None;
     arg_github_host := None; arg_private := false; arg_fork := false;
     arg_prefer_ssh := false; arg_osx_keychain_item_name := None;
     arg_osx_keychain_item_account := None; arg_include_releases := false;
     arg_include_assets := false; arg_throttle_limit := 0;
     arg_throttle_pause := 30; arg_since := None |}.

(** The fields of a public repository of the user. *)
Definition public_repo (name stamp : string) : list (string * json) :=
  [("name", JStr name); ("full_name", JStr ("octocat/" ^^ name));
   ("private", JBool false);
   ("clone_url", JStr ("https://github.com/octocat/" ^^ name ^^ ".git"));
   ("has_wiki", JBool false); ("updated_at", JStr stamp)].

(** The object that the API gives for one pull: the fields of the list,
    and whether it is merged. *)
Definition pull_detail (x : json) : list (string * json) :=
  match x with
  | JDict d => d ++ [("merged", JBool false)]
  | _ => []
  end.

(** A pull request as the list of pulls gives it. *)
Definition pull (n : Z) (stamp : string) : json :=
  JDict [("number", JNum n); ("updated_at", JStr stamp)].

(** A full page of pulls with the numbers 1 to [per_page]. *)
Definition full_page (stamp : string) : list json :=
  map (fun n => pull (Z.of_nat n) stamp) (seq 1 per_page).

(** The next run of the program finds the files of the last one, and
    starts with the options of its command line. *)
Definition next_run (a : Args) (w : world) : world :=
  {| w_args := a; w_env := w_env w; w_net := []; w_clock := w_clock w + 86400;
     w_fs := w_fs w; w_trace := [] |}.

End Sample.

(** * Facts about the fetcher *)

Lemma urlopens_app : forall a b, urlopens (a ++ b) = urlopens a ++ urlopens b.
Proof. intros. unfold urlopens. apply flat_map_app. Qed.

Lemma sleeps_app : forall a b, sleeps (a ++ b) = sleeps a ++ sleeps b.
Proof. intros. unfold sleeps. apply flat_map_app. Qed.

Lemma max10_nonneg : forall x, (Z.max 10 x <? 0) = false.
Proof. intros x. apply Z.ltb_ge. lia. Qed.

(** *** One turn of [_get_response] *)

Lemma loop_responded : forall fuel rq auth t rt errors r rest w,
  w_net w = Responded r :: rest ->
  _get_response_loop (S fuel) rq auth t rt errors w
  = (Ret (r, errors), with_net rest (emit (EvUrlopen rq) w)).
Proof.
  intros. cbn [_get_response_loop]. unfold bind at 1. unfold urlopen.
  rewrite H. reflexivity.
Qed.

Lemma loop_url_error : forall fuel rq auth t errors reason rest w,
  w_net w = URLError (Some reason) :: rest ->
  _get_response_loop (S fuel) rq auth t 3 errors w
  = _get_response_loop fuel rq auth t 3 errors
      (with_net rest
         (emit (EvInfo (t ^^ " timed out"))
            (emit (EvWarn reason) (emit (EvUrlopen rq) w)))).
Proof.
  intros. cbn [_get_response_loop]. unfold bind at 1. unfold urlopen.
  rewrite H. reflexivity.
Qed.

Lemma url_errors_loop : forall n fuel rq auth t errors reason r rest w,
  (n < fuel)%nat ->
  w_net w = repeat (URLError (Some reason)) n ++ Responded r :: rest ->
  exists w',
    _get_response_loop fuel rq auth t 3 errors w = (Ret (r, errors), w')
    /\ w_net w' = rest
    /\ List.length (urlopens (w_trace w'))
       = (List.length (urlopens (w_trace w)) + S n)%nat.
Proof.
  induction n as [|n IH]; intros fuel rq auth t errors reason r rest w Hlt Hnet;
    (destruct fuel as [|fuel]; [lia|]); cbn [repeat app] in Hnet.
  - rewrite (loop_responded _ _ _ _ _ _ _ _ _ Hnet).
    eexists; split; [reflexivity|]. split; [reflexivity|].
    cbn. rewrite urlopens_app, length_app. reflexivity.
  - rewrite (loop_url_error _ _ _ _ _ _ _ _ Hnet).
    destruct (IH fuel rq auth t errors reason r rest
                (with_net (repeat (URLError (Some reason)) n ++ Responded r :: rest)
                   (emit (EvInfo (t ^^ " timed out"))
                      (emit (EvWarn reason) (emit (EvUrlopen rq) w)))))
      as (w' & E & N & L); [lia|reflexivity|].
    exists w'. split; [exact E|]. split; [exact N|].
    rewrite L. cbn. rewrite !urlopens_app, !length_app. cbn. lia.
Qed.

(** *** Rate-limit answers *)

Lemma backoff_result : forall exc auth errors w,
  rate_limited exc = true ->
  _request_http_error exc auth errors w
  = (Ret (errors, true), snd (_request_http_error exc auth [] w)).
Proof.
  intros exc auth errors w H. unfold rate_limited in H.
  unfold _request_http_error. rewrite H.
  unfold bind, timegm_now, log_warning, tell, when, log_info, sleep, ret.
  destruct auth; cbn; rewrite max10_nonneg; reflexivity.
Qed.

Lemma backoff_delta : forall exc now,
  0 <= now ->
  Z.max 10 ((if default 0 (x_ratelimit_reset (r_headers exc)) =? 0
             then now
             else default 0 (x_ratelimit_reset (r_headers exc))) - now)
  = wait_time exc now.
Proof.
  intros exc now Hc. unfold wait_time, reset_timestamp.
  destruct (Z.eqb_spec (default 0 (x_ratelimit_reset (r_headers exc))) 0) as [e|e];
    [rewrite e|]; lia.
Qed.

Lemma backoff_sleeps : forall exc auth w,
  rate_limited exc = true -> 0 <= w_clock w ->
  let w' := snd (_request_http_error exc auth [] w) in
  w_clock w' = w_clock w + wait_time exc (w_clock w)
  /\ sleeps (w_trace w') = sleeps (w_trace w) ++ [wait_time exc (w_clock w)]
  /\ urlopens (w_trace w') = urlopens (w_trace w)
  /\ w_net w' = w_net w.
Proof.
  intros exc auth w H Hc. unfold rate_limited in H.
  unfold _request_http_error. rewrite H.
  unfold bind, timegm_now, log_warning, tell, when, log_info, sleep, ret.
  pose proof (backoff_delta exc (w_clock w) Hc) as E.
  destruct auth; cbn; rewrite max10_nonneg; cbn; rewrite E;
    rewrite !sleeps_app, !urlopens_app; cbn; rewrite ?app_nil_r; auto.
Qed.

Lemma http_error_with_net : forall exc auth errors n w,
  snd (_request_http_error exc auth errors (with_net n w))
  = with_net n (snd (_request_http_error exc auth [] w)).
Proof.
  intros. unfold _request_http_error.
  destruct ((r_code exc =? 403)
            && (default 0 (x_ratelimit_remaining (r_headers exc)) <? 1));
    [|reflexivity].
  unfold bind, timegm_now, log_warning, tell, when, log_info, sleep, ret.
  destruct auth; cbn; rewrite max10_nonneg; reflexivity.
Qed.

Lemma loop_backoff : forall fuel rq auth t rt errors exc rest w,
  rate_limited exc = true ->
  w_net w = HTTPError exc :: rest ->
  _get_response_loop (S fuel) rq auth t rt errors w
  = _get_response_loop fuel rq auth t rt errors
      (with_net rest (after_backoff rq auth w exc)).
Proof.
  intros fuel rq auth t rt errors exc rest w Hrl Hnet.
  cbn [_get_response_loop]. unfold bind at 1. unfold urlopen.
  rewrite Hnet. cbv beta iota. unfold bind at 1.
  rewrite (backoff_result _ _ _ _ Hrl). cbv beta iota.
  rewrite http_error_with_net. reflexivity.
Qed.

Lemma loop_http_error : forall fuel rq auth t rt errors exc rest w,
  rate_limited exc = false ->
  w_net w = HTTPError exc :: rest ->
  _get_response_loop (S fuel) rq auth t rt errors w
  = (Ret (exc, errors), with_net rest (emit (EvUrlopen rq) w)).
Proof.
  intros fuel rq auth t rt errors exc rest w Hrl Hnet.
  cbn [_get_response_loop]. unfold bind at 1. unfold urlopen.
  rewrite Hnet. cbv beta iota. unfold bind at 1.
  unfold _request_http_error. unfold rate_limited in Hrl. rewrite Hrl.
  reflexivity.
Qed.

Lemma after_backoff_with_net : forall rq auth m w exc,
  after_backoff rq auth (with_net m w) exc
  = with_net m (after_backoff rq auth w exc).
Proof.
  intros. unfold after_backoff.
  change (emit (EvUrlopen rq) (with_net m w))
    with (with_net m (emit (EvUrlopen rq) w)).
  apply http_error_with_net.
Qed.

Lemma after_backoffs_with_net : forall excs rq auth m w,
  after_backoffs rq auth excs (with_net m w)
  = with_net m (after_backoffs rq auth excs w).
Proof.
  induction excs as [|exc excs IH]; intros; [reflexivity|].
  cbn [after_backoffs fold_left].
  rewrite after_backoff_with_net. apply IH.
Qed.

Lemma loop_backoffs : forall excs fuel rq auth t rt errors rest w,
  forallb rate_limited excs = true ->
  w_net w = map HTTPError excs ++ rest ->
  _get_response_loop (List.length excs + fuel) rq auth t rt errors w
  = _get_response_loop fuel rq auth t rt errors
      (with_net rest (after_backoffs rq auth excs w)).
Proof.
  induction excs as [|exc excs IH]; intros fuel rq auth t rt errors rest w Hall Hnet.
  - cbn in *. destruct w; cbn in *; subst; reflexivity.
  - cbn in Hall. apply andb_true_iff in Hall as [H1 H2].
    cbn [List.length Nat.add map app] in *.
    rewrite (loop_backoff _ _ _ _ _ _ _ _ _ H1 Hnet).
    rewrite (IH fuel rq auth t rt errors rest
               (with_net (map HTTPError excs ++ rest) (after_backoff rq auth w exc))
               H2 eq_refl).
    rewrite after_backoffs_with_net. reflexivity.
Qed.

Lemma get_response_backoffs : forall excs rq auth t rest w,
  forallb rate_limited excs = true ->
  w_net w = map HTTPError excs ++ rest ->
  _get_response rq auth t w
  = _get_response rq auth t (with_net rest (after_backoffs rq auth excs w)).
Proof.
  intros excs rq auth t rest w H H0. unfold _get_response. rewrite H0.
  rewrite length_app, length_map.
  rewrite <- Nat.add_succ_r.
  rewrite (loop_backoffs excs _ _ _ _ _ _ rest w H H0). reflexivity.
Qed.

Lemma get_response_responded : forall rq auth t r rest w,
  w_net w = Responded r :: rest ->
  _get_response rq auth t w
  = (Ret (r, []), with_net rest (emit (EvUrlopen rq) w)).
Proof. intros. unfold _get_response. apply loop_responded; assumption. Qed.

Lemma get_response_http_error : forall rq auth t exc rest w,
  rate_limited exc = false ->
  w_net w = HTTPError exc :: rest ->
  _get_response rq auth t w
  = (Ret (exc, []), with_net rest (emit (EvUrlopen rq) w)).
Proof. intros. unfold _get_response. apply loop_http_error; assumption. Qed.

Lemma fetch_page_json : forall auth q t single page r v rest w,
  r_code r = 200 -> r_body r = Json v ->
  0 <= arg_throttle_pause (w_args w) ->
  w_net w = Responded r :: rest ->
  exists w1,
    fetched (page_request per_page page q t auth (arg_as_app (w_args w))) rest w w1
    /\ fetch_page auth q t single page w
       = (match v with
          | JList l =>
              Ret (l, if (List.length l <? per_page)%nat then false
                      else negb single)
          | JDict _ => if single then Ret ([v], false) else Ret ([], negb single)
          | _ => Ret ([], negb single)
          end, w1).
Proof.
  intros auth q t single page r v rest w Hcode Hbody Hpause Hnet.
  unfold fetch_page, bind at 1, get_args. cbv beta iota.
  unfold bind at 1, _construct_request, bind at 1, log_info, tell, ret.
  cbv beta iota zeta.
  unfold bind at 1.
  erewrite get_response_responded by (cbn; exact Hnet).
  cbv beta iota.
  rewrite Hcode.
  assert (Hp : (arg_throttle_pause (w_args w) <? 0) = false)
    by (apply Z.ltb_ge; exact Hpause).
  match goal with |- context [when ?c _] => destruct c end;
    unfold when; cbn [retry_502];
    unfold bind, sleep, json_loads, ret; cbv beta iota;
    rewrite ?Hp; cbv beta iota;
    change (200 =? 502) with false; change (negb (200 =? 200)) with false;
    cbv beta iota; rewrite Hbody;
    (eexists; split;
     [| destruct v; try destruct single; reflexivity]);
    unfold fetched; cbn; rewrite !urlopens_app; cbn;
    rewrite ?app_nil_r; auto.
Qed.

Lemma rate_limited_502 : forall b, r_code b = 502 -> rate_limited b = false.
Proof. intros b H. unfold rate_limited. rewrite H. reflexivity. Qed.

Lemma get_response_backoffs_http : forall excs rq auth t b rest w,
  forallb rate_limited excs = true ->
  rate_limited b = false ->
  w_net w = map HTTPError excs ++ HTTPError b :: rest ->
  _get_response rq auth t w
  = (Ret (b, []),
     with_net rest (emit (EvUrlopen rq) (after_backoffs rq auth excs w))).
Proof.
  intros excs rq auth t b rest w Hall Hb Hnet.
  rewrite (get_response_backoffs excs rq auth t _ w Hall Hnet).
  erewrite get_response_http_error by (try exact Hb; reflexivity).
  reflexivity.
Qed.

Lemma get_response_backoffs_responded : forall excs rq auth t r rest w,
  forallb rate_limited excs = true ->
  w_net w = map HTTPError excs ++ Responded r :: rest ->
  _get_response rq auth t w
  = (Ret (r, []),
     with_net rest (emit (EvUrlopen rq) (after_backoffs rq auth excs w))).
Proof.
  intros excs rq auth t r rest w Hall Hnet.
  rewrite (get_response_backoffs excs rq auth t _ w Hall Hnet).
  erewrite get_response_responded by reflexivity.
  reflexivity.
Qed.

Ltac run_fetcher :=
  unfold bind, log_warning, tell, sleep, get_args, _construct_request,
         log_info, ret, json_loads, when;
  cbn -[_get_response Str.of_Z String.append Url.urlencode page_request
        after_backoffs per_page Nat.ltb].

Lemma fetch_page_retries : forall auth q t single page e0 e1 e2 e3 b1 b2 b3
    r items rest w,
  forallb rate_limited e0 = true -> forallb rate_limited e1 = true ->
  forallb rate_limited e2 = true -> forallb rate_limited e3 = true ->
  r_code b1 = 502 -> r_code b2 = 502 -> r_code b3 = 502 ->
  r_code r = 200 -> r_body r = Json (JList items) ->
  (List.length items < per_page)%nat ->
  0 <= arg_throttle_pause (w_args w) ->
  w_net w = map HTTPError e0 ++ HTTPError b1 :: map HTTPError e1
            ++ HTTPError b2 :: map HTTPError e2 ++ HTTPError b3
            :: map HTTPError e3 ++ Responded r :: rest ->
  exists w1,
    fetch_page auth q t single page w = (Ret (items, false), w1)
    /\ w_net w1 = rest.
Proof.
  intros auth q t single page e0 e1 e2 e3 b1 b2 b3 r items rest w
         H0 H1 H2 H3 B1 B2 B3 Hr Hbody Hlen Hpause Hnet.
  assert (Hp : (arg_throttle_pause (w_args w) <? 0) = false)
    by (apply Z.ltb_ge; exact Hpause).
  apply Nat.ltb_lt in Hlen.
  unfold fetch_page, bind at 1, get_args. cbv beta iota.
  unfold bind at 1, _construct_request, bind at 1, log_info, tell, ret.
  cbv beta iota zeta.
  unfold bind at 1.
  erewrite (get_response_backoffs_http e0) by
    (first [exact H0 | apply rate_limited_502; exact B1 | cbn; exact Hnet]).
  cbv beta iota. rewrite B1.
  match goal with |- context [when ?c _] => destruct c end;
    cbn [retry_502]; change (502 =? 502) with true; cbv beta iota;
    run_fetcher; rewrite ?Hp; run_fetcher;
    (erewrite (get_response_backoffs_http e1 _ _ _ b2) by
      (first [exact H1 | apply rate_limited_502; exact B2 | reflexivity]));
    rewrite B2; run_fetcher;
    (erewrite (get_response_backoffs_http e2 _ _ _ b3) by
      (first [exact H2 | apply rate_limited_502; exact B3 | reflexivity]));
    rewrite B3; run_fetcher;
    (erewrite (get_response_backoffs_responded e3 _ _ _ r) by
      (first [exact H3 | reflexivity]));
    rewrite Hr; run_fetcher; rewrite Hbody, Hlen;
    eexists; split; reflexivity.
Qed.

(** *** The trace only grows *)

Lemma emits_first_bind : forall A B evs0 (m : M A) (f : A -> M B),
  emits_first evs0 m -> (forall a, appends (f a)) ->
  emits_first evs0 (bind m f).
Proof.
  intros A B evs0 m f Hm Hf w. unfold bind.
  destruct (Hm w) as [e1 H1]. destruct (m w) as [r w'] eqn:E. cbn in H1.
  destruct r; cbn; try (exists e1; exact H1).
  destruct (Hf a w') as [e2 H2]. cbn in H2.
  exists (e1 ++ e2). rewrite H2, H1, <- !app_assoc. reflexivity.
Qed.

Lemma appends_bind : forall A B (m : M A) (f : A -> M B),
  appends m -> (forall a, appends (f a)) -> appends (bind m f).
Proof. intros. apply emits_first_bind; assumption. Qed.

Lemma emits_first_tell_bind : forall B e evs0 (f : unit -> M B),
  emits_first evs0 (f tt) -> emits_first (e :: evs0) (bind (tell e) f).
Proof.
  intros B e evs0 f Hf w. unfold bind, tell.
  destruct (Hf (emit e w)) as [evs H]. exists evs. rewrite H. cbn.
  rewrite <- app_assoc. reflexivity.
Qed.

Lemma emits_first_ret_bind : forall A B evs0 (a : A) (f : A -> M B),
  emits_first evs0 (f a) -> emits_first evs0 (bind (ret a) f).
Proof. intros A B evs0 a f Hf w. exact (Hf w). Qed.

Lemma emits_first_get_args_bind : forall B evs0 (f : Args -> M B),
  (forall a, emits_first evs0 (f a)) -> emits_first evs0 (bind get_args f).
Proof. intros B evs0 f Hf w. exact (Hf (w_args w) w). Qed.

Lemma appends_ret : forall A (a : A), appends (ret a).
Proof. intros A a w. exists []. cbn. rewrite app_nil_r. reflexivity. Qed.

Lemma appends_stop : forall A (r : result A), appends (fun w => (r, w)).
Proof. intros A r w. exists []. cbn. rewrite app_nil_r. reflexivity. Qed.

Lemma appends_tell : forall e, appends (tell e).
Proof. intros e w. exists [e]. reflexivity. Qed.

Lemma appends_urlopen : forall rq, emits_first [EvUrlopen rq] (urlopen rq).
Proof.
  intros rq w. exists []. unfold urlopen. destruct (w_net w); reflexivity.
Qed.

Lemma appends_sleep : forall d, appends (sleep d).
Proof.
  intros d w. unfold sleep. destruct (d <? 0); cbn.
  - exists []. rewrite app_nil_r. reflexivity.
  - exists [EvSleep d]. reflexivity.
Qed.

Lemma appends_for_each : forall A (l : list A) (body : A -> M unit),
  (forall x, appends (body x)) -> appends (for_each l body).
Proof.
  induction l as [|x l IH]; intros body Hb; cbn [for_each].
  - apply appends_ret.
  - apply appends_bind; [apply Hb | intros; apply IH; exact Hb].
Qed.

Ltac appends_step :=
  first
    [ apply appends_ret
    | apply appends_tell
    | apply appends_sleep
    | apply appends_stop
    | apply appends_bind; [|intros]
    | apply appends_for_each; intros
    | match goal with
      | |- appends (match ?x with _ => _ end) => destruct x
      | |- appends (if ?c then _ else _) => destruct c
      end ].

Ltac appends_auto unf := repeat (first [appends_step | progress unf]).

Lemma appends_log_info : forall m, appends (log_info m).
Proof. intros. apply appends_tell. Qed.

Lemma appends_log_warning : forall m, appends (log_warning m).
Proof. intros. apply appends_tell. Qed.

Lemma appends_log_error : forall A msgs, appends (@log_error A msgs).
Proof.
  intros. unfold log_error, log_warnings, sys_exit.
  repeat appends_step.
Qed.

Lemma appends_get : forall A (f : world -> A), appends (fun w => (Ret (f w), w)).
Proof. intros A f w. exists []. cbn. rewrite app_nil_r. reflexivity. Qed.

Lemma appends_request_http_error : forall exc auth errors,
  appends (_request_http_error exc auth errors).
Proof.
  intros. unfold _request_http_error, when, log_info, log_warning.
  repeat first [appends_step | apply (appends_get Z w_clock)].
Qed.

Lemma appends_request_url_error : forall t rt,
  appends (_request_url_error t rt).
Proof.
  intros. unfold _request_url_error, log_info.
  repeat first [appends_step | apply appends_log_error].
Qed.

Lemma emits_first_weaken : forall A evs0 (m : M A),
  emits_first evs0 m -> appends m.
Proof.
  intros A evs0 m H w. destruct (H w) as [evs E].
  exists (evs0 ++ evs). exact E.
Qed.

Lemma appends_get_response_loop : forall fuel rq auth t rt errors,
  appends (_get_response_loop fuel rq auth t rt errors).
Proof.
  induction fuel as [|fuel IH]; intros; cbn [_get_response_loop].
  - apply appends_stop.
  - apply appends_bind; [apply (emits_first_weaken _ _ _ (appends_urlopen rq))|].
    intros o. unfold log_warning_obj, raise, log_warning.
    repeat first [ apply IH | apply appends_request_http_error
                 | apply appends_request_url_error | appends_step ].
Qed.

Lemma emits_first_get_response_loop : forall n rq auth t rt errors,
  emits_first [EvUrlopen rq] (_get_response_loop (S n) rq auth t rt errors).
Proof.
  intros. cbn [_get_response_loop].
  apply emits_first_bind; [apply appends_urlopen|].
  intros o. unfold log_warning_obj, raise, log_warning.
  repeat first [ apply appends_get_response_loop
               | apply appends_request_http_error
               | apply appends_request_url_error | appends_step ].
Qed.

Lemma emits_first_get_response : forall rq auth t,
  emits_first [EvUrlopen rq] (_get_response rq auth t).
Proof.
  intros rq auth t w. unfold _get_response.
  apply emits_first_get_response_loop.
Qed.

Lemma appends_get_response : forall rq auth t,
  appends (_get_response rq auth t).
Proof.
  intros. eapply emits_first_weaken. apply emits_first_get_response.
Qed.

Lemma emits_first_construct_request : forall B evs0 pp page q t auth as_app
    (f : Request -> M B),
  emits_first evs0 (f (page_request pp page q t auth as_app)) ->
  emits_first
    (EvInfo ("Requesting " ^^ t ^^ "?" ^^ Url.urlencode (page_query pp page q))
     :: evs0)
    (bind (_construct_request pp page q t auth as_app) f).
Proof.
  intros B evs0 pp page q t auth as_app f Hf w.
  destruct (Hf (emit (EvInfo ("Requesting " ^^ t ^^ "?"
                              ^^ Url.urlencode (page_query pp page q))) w))
    as [evs H].
  exists evs.
  change (bind (_construct_request pp page q t auth as_app) f w)
    with (f (page_request pp page q t auth as_app)
            (emit (EvInfo ("Requesting " ^^ t ^^ "?"
                           ^^ Url.urlencode (page_query pp page q))) w)).
  rewrite H. cbn [emit w_trace]. rewrite <- app_assoc. reflexivity.
Qed.

Lemma appends_construct_request : forall pp page q t auth as_app,
  appends (_construct_request pp page q t auth as_app).
Proof.
  intros. unfold _construct_request, log_info. repeat appends_step.
Qed.

Lemma appends_get_args : appends get_args.
Proof. apply (appends_get Args w_args). Qed.

Lemma appends_retry_502 : forall left page q t auth r errors status,
  appends (retry_502 left page q t auth r errors status).
Proof.
  induction left as [|left IH]; intros; cbn [retry_502].
  - apply appends_ret.
  - unfold log_warning.
    repeat first [ apply IH | apply appends_get_args
                 | apply appends_construct_request
                 | apply appends_get_response | appends_step ].
Qed.

Lemma appends_json_loads : forall r, appends (json_loads r).
Proof. intros. unfold json_loads, raise. repeat appends_step. Qed.

(** A page fetch starts with the log line and the request of its page. *)
Lemma fetch_page_first_events : forall auth q t single page w,
  exists evs,
    w_trace (snd (fetch_page auth q t single page w))
    = w_trace w
      ++ [EvInfo ("Requesting " ^^ t ^^ "?"
                  ^^ Url.urlencode (page_query per_page page q));
          EvUrlopen (page_request per_page page q t auth
                                  (arg_as_app (w_args w)))]
      ++ evs.
Proof.
  intros auth q t single page w. unfold fetch_page.
  unfold bind at 1, get_args. cbv beta iota.
  generalize (w_args w). intros args. revert w.
  apply emits_first_construct_request.
  apply emits_first_bind; [apply emits_first_get_response|].
  intros [r errors]. unfold when, log_info.
  repeat first [ apply appends_retry_502 | apply appends_json_loads
               | apply appends_log_error | appends_step ].
Qed.

Lemma appends_fetch_page : forall auth q t single page,
  appends (fetch_page auth q t single page).
Proof.
  intros auth q t single page w.
  destruct (fetch_page_first_events auth q t single page w) as [evs H].
  eexists. rewrite app_nil_l. exact H.
Qed.

Lemma appends_for_items : forall St items (body : json -> St -> M (St * bool)) s,
  (forall x s, appends (body x s)) -> appends (for_items items body s).
Proof.
  induction items as [|x items IH]; intros body s Hb; cbn [for_items].
  - apply appends_ret.
  - apply appends_bind; [apply Hb|]. intros [s' broke].
    destruct broke; [apply appends_ret | apply IH; exact Hb].
Qed.

Lemma appends_for_pages : forall St fuel auth q t single page
    (body : json -> St -> M (St * bool)) s,
  (forall x s, appends (body x s)) ->
  appends (for_pages fuel auth q t single page body s).
Proof.
  induction fuel as [|fuel IH]; intros; cbn [for_pages].
  - apply appends_stop.
  - cbv zeta. apply appends_bind; [apply appends_fetch_page|].
    intros [items more].
    apply appends_bind; [apply appends_for_items; assumption|].
    intros [s' broke]. destruct broke; [apply appends_ret|].
    destruct more; [apply IH; assumption | apply appends_ret].
Qed.

Lemma appends_collect : forall x acc, appends (collect x acc).
Proof. intros. apply appends_ret. Qed.

(** The loop of the generator starts by asking for the next page. *)
Lemma for_pages_first_events : forall St fuel auth q t single page
    (body : json -> St -> M (St * bool)) s w,
  (forall x s, appends (body x s)) ->
  exists evs,
    w_trace (snd (for_pages (S fuel) auth q t single page body s w))
    = w_trace w
      ++ [EvInfo ("Requesting " ^^ t ^^ "?"
                  ^^ Url.urlencode (page_query per_page (page + 1) q));
          EvUrlopen (page_request per_page (page + 1) q t auth
                                  (arg_as_app (w_args w)))]
      ++ evs.
Proof.
  intros St fuel auth q t single page body s w Hb.
  cbn [for_pages]. cbv zeta. unfold bind at 1.
  destruct (fetch_page_first_events auth q t single (page + 1) w) as [e1 H1].
  destruct (fetch_page auth q t single (page + 1) w) as [r w1] eqn:E.
  cbn [snd] in H1.
  destruct r as [[items more]| | | |]; cbn [snd]; try (exists e1; exact H1).
  assert (K : appends
            (' (s', broke) <- for_items items body s ;;
             if broke then ret s'
             else if more
                  then for_pages fuel auth q t single (page + 1) body s'
                  else ret s')).
  { apply appends_bind; [apply appends_for_items; assumption|].
    intros [s' broke]. destruct broke; [apply appends_ret|].
    destruct more; [apply appends_for_pages; assumption | apply appends_ret]. }
  destruct (K w1) as [e2 H2]. rewrite app_nil_l in H2.
  exists (e1 ++ e2). rewrite H2, H1, <- !app_assoc. reflexivity.
Qed.

(** *** Consumers *)

Lemma for_items_collect : forall items acc w,
  for_items items collect acc w = (Ret (acc ++ items, false), w).
Proof.
  induction items as [|x items IH]; intros acc w; cbn [for_items].
  - unfold ret. rewrite app_nil_r. reflexivity.
  - unfold bind, collect, ret. cbv beta iota.
    change (for_items items collect (acc ++ [x]) w
            = (Ret (acc ++ x :: items, false), w)).
    rewrite IH, <- app_assoc. reflexivity.
Qed.

Lemma for_pages_step : forall St fuel auth q t single page
    (body : json -> St -> M (St * bool)) s items more w w1,
  fetch_page auth q t single (page + 1) w = (Ret (items, more), w1) ->
  for_pages (S fuel) auth q t single page body s w
  = (' (s', broke) <- for_items items body s ;;
     if broke then ret s'
     else if more then for_pages fuel auth q t single (page + 1) body s'
          else ret s') w1.
Proof.
  intros. cbn [for_pages]. cbv zeta. unfold bind at 1. rewrite H. reflexivity.
Qed.

Lemma for_pages_collect : forall fuel auth q t single page acc items more w w1,
  fetch_page auth q t single (page + 1) w = (Ret (items, more), w1) ->
  for_pages (S fuel) auth q t single page collect acc w
  = if more
    then for_pages fuel auth q t single (page + 1) collect (acc ++ items) w1
    else (Ret (acc ++ items), w1).
Proof.
  intros. rewrite (for_pages_step _ _ _ _ _ _ _ _ _ _ _ _ _ H).
  unfold bind at 1. rewrite for_items_collect. destruct more; reflexivity.
Qed.

(** * The claims about the fetcher *)

(** C1 (the code departs from the claim).  The claim: connection-level
    errors are retried at most 3 times, then the fetch is fatal.  The code:
    [_request_url_error] decrements its own copy of [retry_timeout], so it
    answers [True] every time; after any number [n] of consecutive
    [URLError]s the next attempt is still made, and its response returned. *)
Theorem url_errors_retried_without_bound :
  forall n rq auth t reason r rest w,
    let w0 := with_net (repeat (URLError (Some reason)) n
                        ++ Responded r :: rest) w in
    fst (_get_response rq auth t w0) = Ret (r, [])
    /\ w_net (snd (_get_response rq auth t w0)) = rest
    /\ List.length (urlopens (w_trace (snd (_get_response rq auth t w0))))
       = (List.length (urlopens (w_trace w)) + S n)%nat.
Proof.
  intros n rq auth t reason r rest w w0.
  destruct (url_errors_loop n (S (List.length (w_net w0))) rq auth t []
              reason r rest w0) as (w' & E & N & L).
  - subst w0. cbn [w_net with_net]. rewrite length_app, repeat_length. lia.
  - reflexivity.
  - unfold _get_response. rewrite E. cbn [fst snd]. auto.
Qed.

(** C1 at a concrete input: four timeouts in a row, then an answer.  The
    fifth attempt is made and the run goes on. *)
Lemma four_url_errors_then_success :
  let w := Sample.world0 Sample.args0
             [URLError (Some "timed out"); URLError (Some "timed out");
              URLError (Some "timed out"); URLError (Some "timed out");
              Sample.ok (JList [])] in
  fst (retrieve_data "t" None false w) = Ret []
  /\ List.length (urlopens (w_trace (snd (retrieve_data "t" None false w))))
     = 5%nat.
Proof. vm_compute. split; reflexivity. Qed.

(** C2.  An HTTP 403 whose [x-ratelimit-remaining] is below 1 makes the
    fetcher sleep [max(10, reset_timestamp - now)] seconds (10 when the
    reset is 5 seconds away) and ask again with the same request; a run of
    such answers, however long, is waited out the same way and never ends
    the fetch; and the three retries of HTTP 502 are all still made when
    rate-limit answers come before and between them. *)
Theorem rate_limit_backoff :
  forall rq auth t exc excs rest w,
    rate_limited exc = true ->
    forallb rate_limited excs = true ->
    0 <= w_clock w ->
    w_net w = HTTPError exc :: map HTTPError excs ++ rest ->
    let w1 := with_net (map HTTPError excs ++ rest)
                       (after_backoff rq auth w exc) in
    sleeps (w_trace w1) = sleeps (w_trace w) ++ [wait_time exc (w_clock w)]
    /\ w_clock w1 = w_clock w + wait_time exc (w_clock w)
    /\ (reset_timestamp exc = w_clock w + 5 -> wait_time exc (w_clock w) = 10)
    /\ urlopens (w_trace w1) = urlopens (w_trace w) ++ [rq]
    /\ _get_response rq auth t w = _get_response rq auth t w1
    /\ _get_response rq auth t w
       = _get_response rq auth t
           (with_net rest (after_backoffs rq auth (exc :: excs) w))
    /\ (forall q single page e1 e2 e3 b1 b2 b3 r items rest',
          forallb rate_limited e1 = true -> forallb rate_limited e2 = true ->
          forallb rate_limited e3 = true ->
          r_code b1 = 502 -> r_code b2 = 502 -> r_code b3 = 502 ->
          r_code r = 200 -> r_body r = Json (JList items) ->
          (List.length items < per_page)%nat ->
          0 <= arg_throttle_pause (w_args w) ->
          rest = HTTPError b1 :: map HTTPError e1 ++ HTTPError b2
                 :: map HTTPError e2 ++ HTTPError b3
                 :: map HTTPError e3 ++ Responded r :: rest' ->
          exists w2,
            fetch_page auth q t single page w = (Ret (items, false), w2)
            /\ w_net w2 = rest').
Proof.
  intros rq auth t exc excs rest w Hexc Hexcs Hclock Hnet w1.
  assert (Hc : 0 <= w_clock (emit (EvUrlopen rq) w)) by exact Hclock.
  destruct (backoff_sleeps exc auth (emit (EvUrlopen rq) w) Hexc Hc)
    as (C & S & U & _).
  repeat split.
  - subst w1. cbn [w_trace with_net]. unfold after_backoff. rewrite S.
    cbn [w_trace emit w_clock]. rewrite sleeps_app. cbn.
    rewrite app_nil_r. reflexivity.
  - subst w1. cbn [w_clock with_net]. unfold after_backoff. rewrite C.
    reflexivity.
  - intros R. unfold wait_time. rewrite R. lia.
  - subst w1. cbn [w_trace with_net]. unfold after_backoff. rewrite U.
    cbn [w_trace emit]. rewrite urlopens_app. reflexivity.
  - subst w1. apply (get_response_backoffs [exc]); [|exact Hnet].
    cbn. rewrite Hexc. reflexivity.
  - apply (get_response_backoffs (exc :: excs)); [|exact Hnet].
    cbn. rewrite Hexc. exact Hexcs.
  - intros q single page e1 e2 e3 b1 b2 b3 r items rest'
           H1 H2 H3 B1 B2 B3 Hr Hbody Hlen Hpause Hrest.
    apply (fetch_page_retries auth q t single page (exc :: excs) e1 e2 e3
             b1 b2 b3 r items rest' w); try assumption.
    + cbn. rewrite Hexc. exact Hexcs.
    + rewrite Hnet, Hrest. reflexivity.
Qed.

Lemma rate_limit_backoff_witness :
  let exc := Sample.limited_response 1600000005 in
  let w := Sample.world0 Sample.args0
             [HTTPError exc; Sample.ok (JList [])] in
  rate_limited exc = true
  /\ 0 <= w_clock w
  /\ reset_timestamp exc = w_clock w + 5
  /\ sleeps (w_trace (with_net [Sample.ok (JList [])]
                        (after_backoff (Sample.page1 "t") None w exc)))
     = [10].
Proof.
  intros exc w.
  assert (Hc : 0 <= w_clock w) by (cbn; lia).
  destruct (rate_limit_backoff (Sample.page1 "t") None "t" exc []
              [Sample.ok (JList [])] w eq_refl eq_refl Hc eq_refl)
    as (S & _).
  split; [reflexivity|]. split; [exact Hc|]. split; [reflexivity|]. exact S.
Defined.

(** C3, the counterexample: with [single_request] set, a page of exactly
    100 items is the only page asked for, although the script has more. *)
Lemma full_page_of_single_request_is_last :
  let w := Sample.world0 Sample.args0
             [Sample.ok (JList (repeat (Sample.item 7) 100));
              Sample.ok (JList [Sample.item 8])] in
  fst (retrieve_data "t" None true w) = Ret (repeat (Sample.item 7) 100)
  /\ urlopens (w_trace (snd (retrieve_data "t" None true w)))
     = [Sample.page1 "t"]
  /\ w_net (snd (retrieve_data "t" None true w))
     = [Sample.ok (JList [Sample.item 8])].
Proof. vm_compute. repeat split; reflexivity. Qed.

(** C3, as the code has it.  A successful page whose body is a list of
    fewer than 100 items is yielded and ends the pagination: no request
    follows, whatever the flag.  After a list of exactly 100 items, when
    [single_request] is not set, the items are yielded and the loop goes on
    with the next page number, whose request is the next thing on the
    trace. *)
Theorem page_length_decides_pagination :
  forall auth q t single page r items rest w,
    r_code r = 200 ->
    r_body r = Json (JList items) ->
    0 <= arg_throttle_pause (w_args w) ->
    w_net w = Responded r :: rest ->
    exists w1,
      fetched (page_request per_page (page + 1) q t auth
                            (arg_as_app (w_args w))) rest w w1
      /\ ((List.length items < per_page)%nat ->
          forall fuel acc,
            for_pages (S fuel) auth q t single page collect acc w
            = (Ret (acc ++ items), w1))
      /\ (List.length items = per_page -> single = false ->
          forall fuel acc,
            for_pages (S (S fuel)) auth q t single page collect acc w
            = for_pages (S fuel) auth q t single (page + 1) collect
                        (acc ++ items) w1
            /\ exists evs,
                 w_trace (snd (for_pages (S (S fuel)) auth q t single page
                                         collect acc w))
                 = w_trace w1
                   ++ [EvInfo ("Requesting " ^^ t ^^ "?"
                               ^^ Url.urlencode
                                    (page_query per_page (page + 1 + 1) q));
                       EvUrlopen (page_request per_page (page + 1 + 1) q t auth
                                               (arg_as_app (w_args w)))]
                   ++ evs).
Proof.
  intros auth q t single page r items rest w Hcode Hbody Hpause Hnet.
  destruct (fetch_page_json auth q t single (page + 1) r (JList items) rest w
              Hcode Hbody Hpause Hnet) as (w1 & F & E).
  exists w1. split; [exact F|]. split.
  - intros Hlen fuel acc. apply Nat.ltb_lt in Hlen. rewrite Hlen in E.
    rewrite (for_pages_collect _ _ _ _ _ _ _ _ _ _ _ E). reflexivity.
  - intros Hlen Hsingle fuel acc.
    assert (Hl : (List.length items <? per_page)%nat = false)
      by (apply Nat.ltb_ge; rewrite Hlen; apply Nat.le_refl).
    rewrite Hl, Hsingle in E. cbn [negb] in E. subst single.
    rewrite (for_pages_collect _ _ _ _ _ _ _ _ _ _ _ E).
    split; [reflexivity|].
    destruct F as (_ & Fa & _). rewrite <- Fa.
    apply for_pages_first_events. apply appends_collect.
Qed.

Lemma page_length_decides_pagination_witness :
  let r := Sample.ok_response (JList [Sample.item 1; Sample.item 2]) in
  let w := Sample.world0 Sample.args0 [Responded r] in
  r_code r = 200
  /\ 0 <= arg_throttle_pause (w_args w)
  /\ exists w1,
       fetched (Sample.page1 "t") [] w w1
       /\ for_pages 1 None [] "t" false 0 collect [] w
          = (Ret [Sample.item 1; Sample.item 2], w1).
Proof.
  intros r w.
  assert (Hp : 0 <= arg_throttle_pause (w_args w)) by (cbn; lia).
  destruct (page_length_decides_pagination None [] "t" false 0 r
              [Sample.item 1; Sample.item 2] [] w eq_refl eq_refl Hp eq_refl)
    as (w1 & F & Short & _).
  split; [reflexivity|]. split; [exact Hp|].
  exists w1. split; [exact F|].
  apply (Short ltac:(unfold per_page; cbn; lia) 0%nat []).
Defined.

(** C4, the counterexample: without [single_request] an object body is not
    yielded, and the next page is asked for. *)
Lemma object_without_single_request_is_dropped :
  let w := Sample.world0 Sample.args0
             [Sample.ok (JDict [("login", JStr "octocat")]);
              Sample.ok (JList [])] in
  fst (retrieve_data "t" None false w) = Ret []
  /\ pages_requested (w_trace (snd (retrieve_data "t" None false w)))
     = [JNum 1; JNum 2].
Proof. vm_compute. split; reflexivity. Qed.

(** C4, as the code has it.  With [single_request] set, a successful
    response whose body is a single object yields that object once and the
    pagination stops: one request, and the rest of the script untouched. *)
Theorem single_object_is_yielded_once :
  forall auth q t page r d rest w,
    r_code r = 200 ->
    r_body r = Json (JDict d) ->
    0 <= arg_throttle_pause (w_args w) ->
    w_net w = Responded r :: rest ->
    exists w1,
      fetched (page_request per_page (page + 1) q t auth
                            (arg_as_app (w_args w))) rest w w1
      /\ forall fuel acc,
           for_pages (S fuel) auth q t true page collect acc w
           = (Ret (acc ++ [JDict d]), w1).
Proof.
  intros auth q t page r d rest w Hcode Hbody Hpause Hnet.
  destruct (fetch_page_json auth q t true (page + 1) r (JDict d) rest w
              Hcode Hbody Hpause Hnet) as (w1 & F & E).
  exists w1. split; [exact F|]. intros fuel acc.
  rewrite (for_pages_collect _ _ _ _ _ _ _ _ _ _ _ E). reflexivity.
Qed.

Lemma single_object_is_yielded_once_witness :
  let r := Sample.ok_response (JDict [("login", JStr "octocat")]) in
  let w := Sample.world0 Sample.args0 [Responded r; Sample.ok (JList [])] in
  r_code r = 200
  /\ 0 <= arg_throttle_pause (w_args w)
  /\ exists w1,
       fetched (Sample.page1 "t") [Sample.ok (JList [])] w w1
       /\ for_pages 1 None [] "t" true 0 collect [] w
          = (Ret [JDict [("login", JStr "octocat")]], w1).
Proof.
  intros r w.
  assert (Hp : 0 <= arg_throttle_pause (w_args w)) by (cbn; lia).
  destruct (single_object_is_yielded_once None [] "t" 0 r
              [("login", JStr "octocat")] [Sample.ok (JList [])] w
              eq_refl eq_refl Hp eq_refl) as (w1 & F & Y).
  split; [reflexivity|]. split; [exact Hp|].
  exists w1. split; [exact F|]. apply (Y 0%nat []).
Defined.

(** * The repository filter *)

(** C8, the counterexample: the two repositories exactly as the scenario
    writes them carry neither an owner nor a star, and the first loop of
    [filter_repositories] drops both. *)
Lemma scenario_repositories_are_not_owned :
  fst (filter_repositories [JDict Sample.repo_a; JDict Sample.repo_b]
         (Sample.world0 Sample.args_go []))
  = Ret [].
Proof. vm_compute. reflexivity. Qed.

(** C8, as the code has it.  When the two repositories of the scenario
    belong to the user being backed up, filtering them with [fork] off,
    [languages = ["go"]] and no name pattern yields [b] alone. *)
Theorem filter_keeps_the_go_repository :
  forall w,
    arg_fork (w_args w) = false ->
    arg_languages (w_args w) = Some ["go"] ->
    given (arg_name_regex (w_args w)) = false ->
    let user := arg_user (w_args w) in
    fst (filter_repositories
           [Sample.owned_by user Sample.repo_a;
            Sample.owned_by user Sample.repo_b] w)
    = Ret [Sample.owned_by user Sample.repo_b].
Proof.
  intros w Hfork Hlang Hre user.
  unfold filter_repositories, bind at 1, get_args. cbv beta iota.
  rewrite Hfork, Hlang, Hre.
  subst user. generalize (arg_user (w_args w)) as user. intros user.
  unfold Sample.owned_by, Sample.repo_a, Sample.repo_b.
  unfold bind, get_env, log_info, tell, ret. cbn.
  rewrite !String.eqb_refl. cbn.
  destruct (arg_private (w_args w)); cbn; rewrite ?String.eqb_refl;
    reflexivity.
Qed.

Lemma filter_keeps_the_go_repository_witness :
  let w := Sample.world0 Sample.args_go [] in
  arg_fork (w_args w) = false
  /\ arg_languages (w_args w) = Some ["go"]
  /\ fst (filter_repositories
            [Sample.owned_by "octocat" Sample.repo_a;
             Sample.owned_by "octocat" Sample.repo_b] w)
     = Ret [Sample.owned_by "octocat" Sample.repo_b].
Proof.
  intros w. split; [reflexivity|]. split; [reflexivity|].
  exact (filter_keeps_the_go_repository w eq_refl eq_refl eq_refl).
Defined.

(** * The repository mirror *)

(** C9.  When [git ls-remote] answers 128 for the remote, [fetch_repository]
    starts no child process that clones or fetches, in bare or LFS mode or
    not, with or without a local clone; and once the probe has run, it
    returns. *)
Theorem uninitialized_remote_is_not_mirrored :
  forall name url local_dir skip_existing bare_clone lfs_clone w,
    env_git_ls_remote (w_env w) url = 128 ->
    let run := fetch_repository name (JStr url) local_dir skip_existing
                                bare_clone lfs_clone w in
    exists evs,
      w_trace (snd run) = w_trace w ++ evs
      /\ forallb (fun e => negb (is_clone_or_fetch e)) evs = true
      /\ (In (EvShell ("git ls-remote " ^^ url)) evs -> fst run = Ret tt).
Proof.
  intros name url local_dir skip bare lfs w H128 run. subst run.
  unfold fetch_repository, bind, get_env, path_exists, fs_lookup,
         check_output, tell, ret, raise, as_str, mask_password, log_info.
  destruct bare, skip;
    cbn -[String.append Str.replace String.eqb Str.path_join py_str given text];
    rewrite ?H128; change (128 =? 128) with true; cbv iota;
    repeat (match goal with
      | |- context [match sget ?p (w_fs ?v) with _ => _ end] =>
          destruct (sget p (w_fs v))
      | |- context [match env_git_is_bare ?e ?d with _ => _ end] =>
          destruct (env_git_is_bare e d)
      | |- context [String.eqb ?a ("true" ^^ ?b)] =>
          destruct (String.eqb a ("true" ^^ b))
      | |- context [env_urlparse ?e ?u] =>
          destruct (env_urlparse e u) as [username password]
      | |- context [if negb (given ?p) then _ else _] =>
          destruct (negb (given p))
      | |- context [String.eqb (text ?p) "x-oauth-basic"] =>
          destruct (String.eqb (text p) "x-oauth-basic")
      end;
      cbn -[String.append Str.replace String.eqb Str.path_join py_str given
            text];
      rewrite ?H128; change (128 =? 128) with true; cbv iota);
    first
      [ exists []; split; [symmetry; apply app_nil_r|];
        split; [reflexivity | intros []]
      | eexists; split; [rewrite <- ?app_assoc; reflexivity|];
        split; [reflexivity|];
        first [ intros _; reflexivity
              | cbn [In]; intros [E|[]]; discriminate E ] ].
Qed.

Lemma uninitialized_remote_is_not_mirrored_witness :
  let url := "https://github.com/octocat/r.git" in
  let dir := "out/repositories/r/repository" in
  let w := Sample.mirror_world in
  env_git_ls_remote (w_env w) url = 128
  /\ exists evs,
       w_trace (snd (fetch_repository (JStr "r") (JStr url) dir false true
                                      false w))
       = w_trace w ++ evs
       /\ forallb (fun e => negb (is_clone_or_fetch e)) evs = true
       /\ (In (EvShell ("git ls-remote " ^^ url)) evs ->
           fst (fetch_repository (JStr "r") (JStr url) dir false true false w)
           = Ret tt).
Proof.
  intros url dir w. split; [reflexivity|].
  exact (uninitialized_remote_is_not_mirrored (JStr "r") url dir false true
           false w eq_refl).
Defined.

(** * Hooks *)

(** [get_auth] reads and may rewrite the options; when it returns it has
    logged nothing and touched neither the network nor the files. *)
Lemma get_auth_quiet : forall encode for_git_cli w a w1,
  get_auth encode for_git_cli w = (Ret a, w1) ->
  w_trace w1 = w_trace w /\ w_net w1 = w_net w /\ w_fs w1 = w_fs w
  /\ w_clock w1 = w_clock w.
Proof.
  intros encode for_git_cli w a w1.
  unfold get_auth, bind, get_args, get_env, when, log_error, log_warnings,
         sys_exit, read_file, fs_lookup, set_args, ret, for_each, bind,
         log_warning, tell, getpass.
  cbv beta iota.
  repeat match goal with
    | |- context [if ?c then _ else _] => destruct c; cbv beta iota
    | |- context [match env_keychain ?e ?n ?a with _ => _ end] =>
        destruct (env_keychain e n a); cbv beta iota
    | |- context [match sget ?p ?f with _ => _ end] =>
        destruct (sget p f) as [[|?]|]; cbv beta iota
    | |- context [match env_getpass ?e with _ => _ end] =>
        destruct (env_getpass e); cbv beta iota
    end;
    intros H; inversion H; subst; cbn; auto.
Qed.

(** C10, the counterexample: a password without a user name.  [get_auth]
    is called before the [try] of [backup_hooks], and its [log_error] ends
    the process. *)
Lemma hooks_exit_on_password_without_username :
  fst (backup_hooks "out/repositories/r" Sample.repo_r
         "https://api.github.com/repos"
         (Sample.world0 Sample.args_password_only []))
  = Exit 1.
Proof. vm_compute. reflexivity. Qed.

(** C10, as the code has it.  Once [get_auth] has returned, [backup_hooks]
    never ends the process with [SystemExit]: without a credential it logs
    the skip and returns at once, with no request and no directory made;
    with one, a [SystemExit] raised anywhere in [_backup_data], whatever the
    fatal fetch error behind it, is caught and logged as a skip. *)
Theorem hooks_skip_instead_of_exit :
  forall repo_cwd repository repos_template w auth w1,
    get_auth true false w = (Ret auth, w1) ->
    let run := backup_hooks repo_cwd repository repos_template w in
    (w_trace w1 = w_trace w /\ w_net w1 = w_net w /\ w_fs w1 = w_fs w)
    /\ (auth = None ->
        run = (Ret tt,
               emit (EvInfo "Skipping hooks since no authentication provided")
                    w1))
    /\ (forall status, fst run <> Exit status)
    /\ (forall full_name status w2,
          auth <> None ->
          py_item repository "full_name" w1 = (Ret full_name, w1) ->
          _backup_data "hooks"
            (repos_template ^^ "/" ^^ py_str full_name ^^ "/hooks")
            (Str.path_join repo_cwd "hooks" ^^ "/hooks.json")
            (Str.path_join repo_cwd "hooks") w1
          = (Exit status, w2) ->
          run = (Ret tt, emit (EvInfo "Unable to read hooks, skipping") w2)).
Proof.
  intros repo_cwd repository repos_template w auth w1 Hauth run.
  destruct (get_auth_quiet _ _ _ _ _ Hauth) as (T & N & F & _).
  assert (Hrun : run
    = match auth with
      | None => log_info "Skipping hooks since no authentication provided" w1
      | Some _ =>
          (full_name <- py_item repository "full_name" ;;
           except_SystemExit
             (_backup_data "hooks"
                (repos_template ^^ "/" ^^ py_str full_name ^^ "/hooks")
                (Str.path_join repo_cwd "hooks" ^^ "/hooks.json")
                (Str.path_join repo_cwd "hooks"))
             (log_info "Unable to read hooks, skipping")) w1
      end).
  { subst run. unfold backup_hooks, bind at 1. rewrite Hauth.
    destruct auth; reflexivity. }
  rewrite Hrun. clear Hrun run.
  repeat split; try assumption.
  - intros ->. reflexivity.
  - intros status. destruct auth as [a|]; [|cbn; discriminate].
    unfold bind, py_item, raise, ret.
    destruct repository as [| | | | |d]; cbn [fst]; try discriminate.
    destruct (sget "full_name" d) as [v|]; cbn [fst]; try discriminate.
    unfold except_SystemExit.
    match goal with |- context [_backup_data ?a ?b ?c ?d ?e] =>
      destruct (_backup_data a b c d e) as [[u| | | |] w3] end;
      cbn; discriminate.
  - intros full_name status w2 Ha Hname Hexit.
    destruct auth as [a|]; [|contradiction].
    unfold bind. rewrite Hname. cbv beta iota.
    unfold except_SystemExit. rewrite Hexit. reflexivity.
Qed.

Lemma hooks_skip_instead_of_exit_witness :
  let w := Sample.world0 Sample.args_token
             [Sample.http_error 404 "Not Found"] in
  get_auth true false w = (Ret (Some (B64 "t0ken:x-oauth-basic")), w)
  /\ fst (backup_hooks "out/repositories/r" Sample.repo_r
            "https://api.github.com/repos" w) = Ret tt
  /\ In (EvInfo "Unable to read hooks, skipping")
        (w_trace (snd (backup_hooks "out/repositories/r" Sample.repo_r
                         "https://api.github.com/repos" w))).
Proof.
  intros w.
  assert (Hauth : get_auth true false w
                  = (Ret (Some (B64 "t0ken:x-oauth-basic")), w))
    by reflexivity.
  destruct (hooks_skip_instead_of_exit "out/repositories/r" Sample.repo_r
              "https://api.github.com/repos" w _ w Hauth)
    as (_ & _ & _ & Caught).
  split; [exact Hauth|].
  rewrite (Caught (JStr "octocat/r") 1
             (snd (_backup_data "hooks"
                     "https://api.github.com/repos/octocat/r/hooks"
                     "out/repositories/r/hooks/hooks.json"
                     "out/repositories/r/hooks" w)));
    [ | discriminate | reflexivity | vm_compute; reflexivity ].
  split; [reflexivity|].
  cbn [snd w_trace emit]. apply in_or_app. right. left. reflexivity.
Defined.

(** * The options that no operation rewrites *)

Lemma same_options_refl : forall w, same_options w w.
Proof. intros w. split; reflexivity. Qed.

Lemma same_options_trans : forall a b c,
  same_options a b -> same_options b c -> same_options a c.
Proof.
  intros a b c [H1 H2] [H3 H4]. split; congruence.
Qed.

Lemma keeps_args : forall A (m : M A),
  (forall w, w_args (snd (m w)) = w_args w) -> keeps m.
Proof. intros A m H w. unfold same_options. rewrite H. split; reflexivity. Qed.

Lemma keeps_ret : forall A (a : A), keeps (ret a).
Proof. intros. apply keeps_args. reflexivity. Qed.

Lemma keeps_stop : forall A (r : result A), keeps (fun w => (r, w)).
Proof. intros. apply keeps_args. reflexivity. Qed.

Lemma keeps_read : forall A (f : world -> A), keeps (fun w => (Ret (f w), w)).
Proof. intros. apply keeps_args. reflexivity. Qed.

Lemma keeps_bind : forall A B (m : M A) (f : A -> M B),
  keeps m -> (forall a, keeps (f a)) -> keeps (bind m f).
Proof.
  intros A B m f Hm Hf w. unfold bind.
  pose proof (Hm w) as H1. destruct (m w) as [r w']. cbn [snd] in H1.
  destruct r; cbn [snd]; try exact H1.
  eapply same_options_trans; [exact H1 | apply Hf].
Qed.

Lemma keeps_tell : forall e, keeps (tell e).
Proof. intros. apply keeps_args. reflexivity. Qed.

Lemma keeps_urlopen : forall rq, keeps (urlopen rq).
Proof.
  intros. apply keeps_args. intros w. unfold urlopen.
  destruct (w_net w); reflexivity.
Qed.

Lemma keeps_opener_open : forall rq, keeps (opener_open rq).
Proof.
  intros. apply keeps_args. intros w. unfold opener_open.
  destruct (w_net w); reflexivity.
Qed.

Lemma keeps_sleep : forall d, keeps (sleep d).
Proof.
  intros. apply keeps_args. intros w. unfold sleep.
  destruct (d <? 0); reflexivity.
Qed.

Lemma keeps_fs_store : forall p n, keeps (fs_store p n).
Proof. intros. apply keeps_args. reflexivity. Qed.

Lemma keeps_except : forall A (m h : M A),
  keeps m -> keeps h -> keeps (except_SystemExit m h).
Proof.
  intros A m h Hm Hh w. unfold except_SystemExit.
  pose proof (Hm w) as H1. destruct (m w) as [r w']. cbn [snd] in H1.
  destruct r; cbn [snd]; try exact H1.
  eapply same_options_trans; [exact H1 | apply Hh].
Qed.

Lemma keeps_for_each : forall A (l : list A) (body : A -> M unit),
  (forall x, keeps (body x)) -> keeps (for_each l body).
Proof.
  induction l as [|x l IH]; intros body Hb; cbn [for_each].
  - apply keeps_ret.
  - apply keeps_bind; [apply Hb | intros; apply IH; exact Hb].
Qed.

Lemma keeps_fold_m : forall A St (f : A -> St -> M St) l s,
  (forall x s, keeps (f x s)) -> keeps (fold_m f l s).
Proof.
  induction l as [|x l IH]; intros s Hf; cbn [fold_m].
  - apply keeps_ret.
  - apply keeps_bind; [apply Hf | intros; apply IH; exact Hf].
Qed.

Lemma keeps_filter_m : forall p l,
  (forall x, keeps (p x)) -> keeps (filter_m p l).
Proof.
  induction l as [|x l IH]; intros Hp; cbn [filter_m].
  - apply keeps_ret.
  - apply keeps_bind; [apply Hp|]. intros keep.
    apply keeps_bind; [apply IH; exact Hp|]. intros. apply keeps_ret.
Qed.

Lemma keeps_for_items : forall St items (body : json -> St -> M (St * bool)) s,
  (forall x s, keeps (body x s)) -> keeps (for_items items body s).
Proof.
  induction items as [|x items IH]; intros body s Hb; cbn [for_items].
  - apply keeps_ret.
  - apply keeps_bind; [apply Hb|]. intros [s' broke].
    destruct broke; [apply keeps_ret | apply IH; exact Hb].
Qed.

Lemma keeps_when : forall c m, keeps m -> keeps (when c m).
Proof. intros c m H. unfold when. destruct c; [exact H | apply keeps_ret]. Qed.

Create HintDb keeps.

#[local] Hint Resolve keeps_ret keeps_stop keeps_tell keeps_urlopen
  keeps_opener_open keeps_sleep keeps_fs_store : keeps.

(** One step of a proof of [keeps]: a known computation, a sequence, a loop,
    or a case analysis on what the program branches on. *)
Ltac keeps_step :=
  first
    [ solve [auto with keeps]
    | apply keeps_read
    | apply keeps_bind; [|intros]
    | apply keeps_when
    | apply keeps_except
    | apply keeps_for_each; intros
    | apply keeps_fold_m; intros
    | apply keeps_filter_m; intros
    | apply keeps_for_items; intros
    | match goal with
      | |- keeps (match ?x with _ => _ end) => destruct x
      | |- keeps (if ?c then _ else _) => destruct c
      | |- keeps (let (_, _) := ?x in _) => destruct x
      end ].

Ltac keeps_auto := repeat keeps_step.

Lemma keeps_get_args : keeps get_args.
Proof. apply keeps_read. Qed.

Lemma keeps_get_env : keeps get_env.
Proof. apply keeps_read. Qed.

Lemma keeps_timegm_now : keeps timegm_now.
Proof. apply keeps_read. Qed.

Lemma keeps_fs_lookup : forall p, keeps (fs_lookup p).
Proof. intros. apply keeps_read. Qed.

#[local] Hint Resolve keeps_get_args keeps_get_env keeps_timegm_now
  keeps_fs_lookup : keeps.

Lemma keeps_raise : forall A e, keeps (@raise A e).
Proof. intros. apply keeps_stop. Qed.

Lemma keeps_sys_exit : forall A s, keeps (@sys_exit A s).
Proof. intros. apply keeps_stop. Qed.

Lemma keeps_log_info : forall m, keeps (log_info m).
Proof. intros. apply keeps_tell. Qed.

Lemma keeps_log_warning : forall m, keeps (log_warning m).
Proof. intros. apply keeps_tell. Qed.

#[local] Hint Resolve keeps_raise keeps_sys_exit keeps_log_info
  keeps_log_warning : keeps.

Lemma keeps_log_error : forall A msgs, keeps (@log_error A msgs).
Proof. intros. unfold log_error, log_warnings. keeps_auto. Qed.

Lemma keeps_path_exists : forall p, keeps (path_exists p).
Proof. intros. unfold path_exists. keeps_auto. Qed.

Lemma keeps_path_isdir : forall p, keeps (path_isdir p).
Proof. intros. unfold path_isdir. keeps_auto. Qed.

Lemma keeps_mkdir_p : forall ps, keeps (mkdir_p ps).
Proof. intros. unfold mkdir_p. keeps_auto. Qed.

Lemma keeps_write_file : forall p c, keeps (write_file p c).
Proof. intros. unfold write_file. keeps_auto. Qed.

Lemma keeps_read_file : forall p, keeps (read_file p).
Proof. intros. unfold read_file. keeps_auto. Qed.

#[local] Hint Resolve keeps_log_error keeps_path_exists
  keeps_path_isdir keeps_mkdir_p keeps_write_file keeps_read_file : keeps.

Lemma keeps_py_get_default : forall v k d, keeps (py_get_default v k d).
Proof. intros. unfold py_get_default. keeps_auto. Qed.

Lemma keeps_py_get : forall v k, keeps (py_get v k).
Proof. intros. apply keeps_py_get_default. Qed.

Lemma keeps_py_item : forall v k, keeps (py_item v k).
Proof. intros. unfold py_item. keeps_auto. Qed.

Lemma keeps_py_contains : forall k v, keeps (py_contains k v).
Proof. intros. unfold py_contains. keeps_auto. Qed.

Lemma keeps_as_str : forall v, keeps (as_str v).
Proof. intros. unfold as_str. keeps_auto. Qed.

Lemma keeps_hashable : forall v, keeps (hashable v).
Proof. intros. unfold hashable. keeps_auto. Qed.

#[local] Hint Resolve keeps_py_get_default keeps_py_get keeps_py_item
  keeps_py_contains keeps_as_str keeps_hashable : keeps.

Lemma keeps_py_lt_str : forall v s, keeps (py_lt_str v s).
Proof. intros. unfold py_lt_str. keeps_auto. Qed.

Lemma keeps_py_ge_str : forall v s, keeps (py_ge_str v s).
Proof. intros. unfold py_ge_str. keeps_auto. Qed.

Lemma keeps_json_dump_to : forall p d, keeps (json_dump_to p d).
Proof. intros. apply keeps_write_file. Qed.

#[local] Hint Resolve keeps_py_lt_str keeps_py_ge_str keeps_json_dump_to
  : keeps.

(** * Dictionaries keyed by number *)

Lemma key_eqb_eq : forall a b, key_eqb a b = true <-> a = b.
Proof.
  intros [x|x|] [y|y|]; cbn; split; intros H; try discriminate;
    try reflexivity.
  - apply Z.eqb_eq in H. congruence.
  - inversion H. apply Z.eqb_refl.
  - apply String.eqb_eq in H. congruence.
  - inversion H. apply String.eqb_refl.
Qed.

Lemma key_eqb_refl : forall a, key_eqb a a = true.
Proof. intros. apply key_eqb_eq. reflexivity. Qed.

Lemma key_eqb_neq : forall a b, a <> b -> key_eqb a b = false.
Proof.
  intros a b H. destruct (key_eqb a b) eqn:E; [|reflexivity].
  apply key_eqb_eq in E. contradiction.
Qed.

Lemma kget_kset_same : forall k v (d : list (key * json)),
  kget k (kset k v d) = Some v.
Proof.
  intros k v d. induction d as [|[k' v'] d IH]; cbn.
  - rewrite key_eqb_refl. reflexivity.
  - destruct (key_eqb k' k) eqn:E; cbn; rewrite E; [reflexivity | exact IH].
Qed.

Lemma kget_kset_other : forall k k2 v (d : list (key * json)),
  k <> k2 -> kget k2 (kset k v d) = kget k2 d.
Proof.
  intros k k2 v d Hne. induction d as [|[k' v'] d IH]; cbn.
  - rewrite (key_eqb_neq _ _ Hne). reflexivity.
  - destruct (key_eqb k' k) eqn:E; cbn.
    + apply key_eqb_eq in E. subst k'.
      rewrite (key_eqb_neq _ _ Hne). reflexivity.
    + destruct (key_eqb k' k2); [reflexivity | exact IH].
Qed.

Lemma kcount_kset_other : forall k k2 v (d : list (key * json)),
  k <> k2 -> kcount k2 (kset k v d) = kcount k2 d.
Proof.
  intros k k2 v d Hne. unfold kcount, dict_count.
  induction d as [|[k' v'] d IH]; cbn.
  - rewrite (key_eqb_neq _ _ Hne). reflexivity.
  - destruct (key_eqb k' k) eqn:E; cbn.
    + destruct (key_eqb k' k2); reflexivity.
    + destruct (key_eqb k' k2); cbn; [f_equal|]; exact IH.
Qed.

Lemma kcount_kset_same : forall k v (d : list (key * json)),
  kcount k (kset k v d) = Nat.max 1 (kcount k d).
Proof.
  intros k v d. unfold kcount, dict_count.
  induction d as [|[k' v'] d IH]; cbn.
  - rewrite key_eqb_refl. reflexivity.
  - destruct (key_eqb k' k) eqn:E; cbn; rewrite E; cbn.
    + destruct (List.length (filter (fun kv => key_eqb (fst kv) k) d));
        reflexivity.
    + exact IH.
Qed.

Lemma unique_keys_kset : forall k v d,
  unique_keys d -> unique_keys (kset k v d).
Proof.
  intros k v d H k2. destruct (key_eqb k k2) eqn:E.
  - apply key_eqb_eq in E. subst k2. rewrite kcount_kset_same.
    specialize (H k). lia.
  - rewrite kcount_kset_other; [apply H|].
    intros ->. rewrite key_eqb_refl in E. discriminate.
Qed.

Lemma unique_keys_merged : forall sip l d,
  unique_keys d -> unique_keys (merged sip l d).
Proof.
  intros sip l. unfold merged.
  induction l as [|x l IH]; intros d H; cbn [fold_left]; [exact H|].
  apply IH. unfold store_issue.
  destruct (stored_as sip x); [apply unique_keys_kset|]; exact H.
Qed.

Lemma merged_app : forall sip a b d,
  merged sip (a ++ b) d = merged sip b (merged sip a d).
Proof. intros. unfold merged. apply fold_left_app. Qed.

Lemma merged_cons : forall sip x l d,
  merged sip (x :: l) d = merged sip l (store_issue sip d x).
Proof. reflexivity. Qed.

(** Issues stored under other keys leave the entry of [k] alone. *)
Lemma merged_other_keys : forall sip k l d,
  (forall x, In x l -> stored_as sip x <> Some k) ->
  kget k (merged sip l d) = kget k d
  /\ kcount k (merged sip l d) = kcount k d.
Proof.
  intros sip k l. unfold merged.
  induction l as [|x l IH]; intros d H; cbn [fold_left]; [split; reflexivity|].
  destruct (IH (store_issue sip d x)) as [G C].
  { intros y Hy. apply H. right. exact Hy. }
  rewrite G, C. unfold store_issue.
  destruct (stored_as sip x) as [k'|] eqn:E; [|split; reflexivity].
  assert (Hne : k' <> k).
  { intros ->. apply (H x); [left; reflexivity | exact E]. }
  split; [apply kget_kset_other | apply kcount_kset_other]; exact Hne.
Qed.

(** * The options through the whole program *)

Lemma keeps_get_auth : forall encode for_git_cli,
  keeps (get_auth encode for_git_cli).
Proof.
  intros encode for_git_cli w.
  unfold get_auth, bind, get_args, get_env, when, log_error, log_warnings,
         sys_exit, read_file, fs_lookup, set_args, ret, for_each, bind,
         log_warning, tell, getpass.
  cbv beta iota.
  repeat match goal with
    | |- context [if ?c then _ else _] => destruct c; cbv beta iota
    | |- context [match env_keychain ?e ?n ?a with _ => _ end] =>
        destruct (env_keychain e n a); cbv beta iota
    | |- context [match sget ?p ?f with _ => _ end] =>
        destruct (sget p f) as [[|?]|]; cbv beta iota
    | |- context [match env_getpass ?e with _ => _ end] =>
        destruct (env_getpass e); cbv beta iota
    end;
    split; reflexivity.
Qed.

Lemma keeps_construct_request : forall pp page q t auth as_app,
  keeps (_construct_request pp page q t auth as_app).
Proof. intros. unfold _construct_request. keeps_auto. Qed.

Lemma keeps_request_http_error : forall exc auth errors,
  keeps (_request_http_error exc auth errors).
Proof. intros. unfold _request_http_error. keeps_auto. Qed.

Lemma keeps_request_url_error : forall t rt,
  keeps (_request_url_error t rt).
Proof. intros. unfold _request_url_error. keeps_auto. Qed.

Lemma keeps_log_warning_obj : forall o, keeps (log_warning_obj o).
Proof. intros. unfold log_warning_obj. keeps_auto. Qed.

#[local] Hint Resolve keeps_get_auth keeps_construct_request
  keeps_request_http_error keeps_request_url_error keeps_log_warning_obj
  : keeps.

Lemma keeps_get_response_loop : forall fuel rq auth t rt errors,
  keeps (_get_response_loop fuel rq auth t rt errors).
Proof.
  induction fuel as [|fuel IH]; intros; cbn [_get_response_loop].
  - apply keeps_stop.
  - repeat first [apply IH | keeps_step].
Qed.

Lemma keeps_get_response : forall rq auth t, keeps (_get_response rq auth t).
Proof. intros rq auth t w. apply keeps_get_response_loop. Qed.

#[local] Hint Resolve keeps_get_response : keeps.

Lemma keeps_retry_502 : forall left page q t auth r errors status,
  keeps (retry_502 left page q t auth r errors status).
Proof.
  induction left as [|left IH]; intros; cbn [retry_502].
  - apply keeps_ret.
  - repeat first [apply IH | keeps_step].
Qed.

Lemma keeps_json_loads : forall r, keeps (json_loads r).
Proof. intros. unfold json_loads. keeps_auto. Qed.

#[local] Hint Resolve keeps_retry_502 keeps_json_loads : keeps.

Lemma keeps_fetch_page : forall auth q t single page,
  keeps (fetch_page auth q t single page).
Proof. intros. unfold fetch_page. keeps_auto. Qed.

#[local] Hint Resolve keeps_fetch_page : keeps.

Lemma keeps_for_pages : forall St fuel auth q t single page
    (body : json -> St -> M (St * bool)) s,
  (forall x s, keeps (body x s)) ->
  keeps (for_pages fuel auth q t single page body s).
Proof.
  induction fuel as [|fuel IH]; intros; cbn [for_pages].
  - apply keeps_stop.
  - cbv zeta. repeat first [apply IH; assumption | keeps_step | apply H].
Qed.

Lemma keeps_for_in : forall St g (body : json -> St -> M (St * bool)) s,
  (forall x s, keeps (body x s)) -> keeps (for_in g body s).
Proof.
  intros St g body s Hb. unfold for_in.
  apply keeps_bind; [apply keeps_get_args|]. intros args.
  apply keeps_bind; [apply keeps_get_auth|]. intros auth w.
  apply keeps_for_pages. exact Hb.
Qed.

Lemma keeps_retrieve_data : forall t q single,
  keeps (retrieve_data t q single).
Proof.
  intros. unfold retrieve_data. apply keeps_for_in.
  intros. unfold collect. apply keeps_ret.
Qed.

#[local] Hint Resolve keeps_retrieve_data : keeps.

Lemma keeps_backup_data : forall name t f d, keeps (_backup_data name t f d).
Proof. intros. unfold _backup_data. keeps_auto. Qed.

Lemma keeps_merge_issue : forall sip i st, keeps (merge_issue sip i st).
Proof. intros. unfold merge_issue. keeps_auto. Qed.

#[local] Hint Resolve keeps_backup_data keeps_merge_issue : keeps.

Lemma keeps_backup_issues : forall cwd r t, keeps (backup_issues cwd r t).
Proof. intros. unfold backup_issues. keeps_auto. Qed.

Lemma keeps_since_gate : forall p, keeps (since_gate p).
Proof. intros. unfold since_gate. keeps_auto. Qed.

#[local] Hint Resolve keeps_backup_issues keeps_since_gate : keeps.

Lemma keeps_keep_pull : forall p d, keeps (keep_pull p d).
Proof. intros. unfold keep_pull. keeps_auto. Qed.

Lemma keeps_keep_pull_details : forall t p d, keeps (keep_pull_details t p d).
Proof. intros. unfold keep_pull_details. keeps_auto. Qed.

Lemma keeps_collect_pulls : forall t, keeps (collect_pulls t).
Proof.
  intros. unfold collect_pulls.
  repeat first [ apply keeps_for_in; intros; apply keeps_keep_pull
               | apply keeps_for_in; intros; apply keeps_keep_pull_details
               | keeps_step ].
Qed.

#[local] Hint Resolve keeps_collect_pulls : keeps.

Lemma keeps_backup_pulls : forall cwd r t, keeps (backup_pulls cwd r t).
Proof. intros. unfold backup_pulls. keeps_auto. Qed.

Lemma keeps_backup_milestones : forall cwd r t,
  keeps (backup_milestones cwd r t).
Proof. intros. unfold backup_milestones. keeps_auto. Qed.

Lemma keeps_backup_labels : forall cwd r t, keeps (backup_labels cwd r t).
Proof. intros. unfold backup_labels. keeps_auto. Qed.

Lemma keeps_backup_hooks : forall cwd r t, keeps (backup_hooks cwd r t).
Proof. intros. unfold backup_hooks. keeps_auto. Qed.

Lemma keeps_logging_subprocess : forall argv cwd,
  keeps (logging_subprocess argv cwd).
Proof. intros. unfold logging_subprocess. keeps_auto. Qed.

Lemma keeps_mask_password : forall url, keeps (mask_password url).
Proof. intros. unfold mask_password. keeps_auto. Qed.

Lemma keeps_check_output : forall A argv cwd (out : option A),
  keeps (check_output argv cwd out).
Proof. intros. unfold check_output. keeps_auto. Qed.

#[local] Hint Resolve keeps_backup_pulls keeps_backup_milestones
  keeps_backup_labels keeps_backup_hooks keeps_logging_subprocess
  keeps_mask_password keeps_check_output : keeps.

Lemma keeps_fetch_repository : forall name url dir skip bare lfs,
  keeps (fetch_repository name url dir skip bare lfs).
Proof. intros. unfold fetch_repository. keeps_auto. Qed.

Lemma keeps_get_github_repo_url : forall r, keeps (get_github_repo_url r).
Proof. intros. unfold get_github_repo_url. keeps_auto. Qed.

Lemma keeps_read_chunk : keeps read_chunk.
Proof.
  apply keeps_args. intros w. unfold read_chunk.
  destruct (w_net w); reflexivity.
Qed.

Lemma keeps_skip_download : forall url o, keeps (skip_download url o).
Proof. intros url o. unfold skip_download. destruct o; auto with keeps. Qed.

#[local] Hint Resolve keeps_read_chunk keeps_skip_download : keeps.

Lemma keeps_read_body : forall fuel url path sofar,
  keeps (read_body fuel url path sofar).
Proof.
  induction fuel as [|fuel IH]; intros url path sofar; cbn [read_body].
  - apply keeps_stop.
  - keeps_auto.
Qed.

#[local] Hint Resolve keeps_read_body : keeps.

Lemma keeps_download_file : forall url path auth,
  keeps (download_file url path auth).
Proof.
  intros. unfold download_file. keeps_auto.
  intros w. apply keeps_read_body.
Qed.

#[local] Hint Resolve keeps_fetch_repository keeps_get_github_repo_url
  keeps_download_file : keeps.

Lemma keeps_backup_releases : forall cwd r t assets,
  keeps (backup_releases cwd r t assets).
Proof. intros. unfold backup_releases. keeps_auto. Qed.

Lemma keeps_join_json : forall a b, keeps (join_json a b).
Proof. intros. unfold join_json. keeps_auto. Qed.

#[local] Hint Resolve keeps_backup_releases keeps_join_json : keeps.

Lemma keeps_backup_repository : forall out t r,
  keeps (backup_repository out t r).
Proof. intros. unfold backup_repository. keeps_auto. Qed.

(** * The order of timestamps *)

Lemma lt_iff : forall a b,
  Str.lt a b = true <-> OrderedTypeEx.String_as_OT.lt a b.
Proof.
  intros a b. unfold Str.lt, String.ltb.
  rewrite <- OrderedTypeEx.String_as_OT.cmp_lt.
  unfold OrderedTypeEx.String_as_OT.cmp.
  destruct (String.compare a b); split; intros H; congruence.
Qed.

Lemma lt_trans : forall a b c,
  Str.lt a b = true -> Str.lt b c = true -> Str.lt a c = true.
Proof.
  intros a b c H1 H2. apply lt_iff. apply lt_iff in H1. apply lt_iff in H2.
  exact (OrderedTypeEx.String_as_OT.lt_trans _ _ _ H1 H2).
Qed.

Lemma lt_irrefl : forall a, Str.lt a a = false.
Proof.
  intros a. destruct (Str.lt a a) eqn:E; [|reflexivity].
  apply lt_iff in E.
  exfalso. exact (OrderedTypeEx.String_as_OT.lt_not_eq _ _ E eq_refl).
Qed.

Lemma lt_asym : forall a b, Str.lt a b = true -> Str.lt b a = false.
Proof.
  intros a b H. destruct (Str.lt b a) eqn:E; [|reflexivity].
  pose proof (lt_trans _ _ _ H E) as C. rewrite lt_irrefl in C. discriminate.
Qed.

Lemma lt_total : forall a b,
  Str.lt a b = false -> Str.lt b a = false -> a = b.
Proof.
  intros a b. unfold Str.lt, String.ltb.
  rewrite (String.compare_antisym b a).
  destruct (String.compare a b) eqn:E; cbn; try discriminate.
  intros _ _. apply String.compare_eq_iff. exact E.
Qed.

Lemma ge_refl : forall a, Str.ge a a = true.
Proof. intros. unfold Str.ge. rewrite lt_irrefl. reflexivity. Qed.

Lemma ge_trans : forall a b c,
  Str.ge a b = true -> Str.ge b c = true -> Str.ge a c = true.
Proof.
  intros a b c. unfold Str.ge. intros H1 H2.
  apply negb_true_iff in H1. apply negb_true_iff in H2.
  apply negb_true_iff.
  destruct (Str.lt a c) eqn:E; [|reflexivity].
  destruct (Str.lt b a) eqn:F.
  - rewrite (lt_trans _ _ _ F E) in H2. discriminate.
  - rewrite (lt_total _ _ H1 F) in E. congruence.
Qed.

(** An item older than an item that is older than the Cutoff is older than
    the Cutoff. *)
Lemma ge_lt_trans : forall a b c,
  Str.ge a b = true -> Str.lt a c = true -> Str.lt b c = true.
Proof.
  intros a b c H1 H2. unfold Str.ge in H1. apply negb_true_iff in H1.
  destruct (Str.lt b a) eqn:F.
  - exact (lt_trans _ _ _ F H2).
  - rewrite <- (lt_total _ _ H1 F). exact H2.
Qed.

Lemma max2_ge_left : forall a b, Str.ge (Str.max2 a b) a = true.
Proof.
  intros a b. unfold Str.max2. destruct (Str.lt a b) eqn:E.
  - unfold Str.ge. rewrite (lt_asym _ _ E). reflexivity.
  - apply ge_refl.
Qed.

Lemma max2_ge_right : forall a b, Str.ge (Str.max2 a b) b = true.
Proof.
  intros a b. unfold Str.max2. destruct (Str.lt a b) eqn:E.
  - apply ge_refl.
  - unfold Str.ge. rewrite E. reflexivity.
Qed.

Lemma max_from_ge_start : forall l cur, Str.ge (Str.max_from cur l) cur = true.
Proof.
  induction l as [|x l IH]; intros cur; cbn [Str.max_from].
  - apply ge_refl.
  - eapply ge_trans; [apply IH | apply max2_ge_left].
Qed.

Lemma max_from_ge : forall l cur x,
  In x (cur :: l) -> Str.ge (Str.max_from cur l) x = true.
Proof.
  induction l as [|y l IH]; intros cur x H; cbn [Str.max_from].
  - destruct H as [<-|[]]. apply ge_refl.
  - destruct H as [<-|[<-|H]].
    + eapply ge_trans; [apply max_from_ge_start | apply max2_ge_left].
    + eapply ge_trans; [apply max_from_ge_start | apply max2_ge_right].
    + apply IH. right. exact H.
Qed.

Lemma max_from_In : forall l cur, In (Str.max_from cur l) (cur :: l).
Proof.
  induction l as [|y l IH]; intros cur; cbn [Str.max_from].
  - left. reflexivity.
  - destruct (IH (Str.max2 cur y)) as [E|H].
    + rewrite <- E. unfold Str.max2.
      destruct (Str.lt cur y); [right; left | left]; reflexivity.
    + right. right. exact H.
Qed.

(** * The watermark *)

Lemma sget_sset_same : forall (p : string) (v : node) d,
  sget p (sset p v d) = Some v.
Proof.
  intros p v d. unfold sget, sset.
  induction d as [|[k' v'] d IH]; cbn.
  - rewrite String.eqb_refl. reflexivity.
  - destruct (String.eqb k' p) eqn:E; cbn; rewrite E; [reflexivity | exact IH].
Qed.

Lemma collect_stamps : forall repos ss acc w,
  stamps_of repos = Some ss ->
  fold_m (fun repository acc =>
            u <- py_item repository "updated_at" ;; ret (acc ++ [u]))
         repos acc w
  = (Ret (acc ++ map JStr ss), w).
Proof.
  induction repos as [|r repos IH]; intros ss acc w H; cbn [stamps_of] in H.
  - inversion H. cbn. unfold ret. rewrite app_nil_r. reflexivity.
  - destruct (updated_at r) as [s|] eqn:E; [|discriminate].
    destruct (stamps_of repos) as [ss'|]; [|discriminate].
    inversion H. subst ss.
    assert (Hitem : py_item r "updated_at" w = (Ret (JStr s), w)).
    { unfold updated_at in E. destruct r as [| | | | |d]; try discriminate.
      unfold py_item.
      destruct (sget "updated_at" d) as [[| | |s'| |]|]; try discriminate.
      inversion E. reflexivity. }
    cbn [fold_m]. unfold bind at 1. unfold bind at 1. rewrite Hitem.
    cbv beta iota. unfold ret at 1.
    rewrite (IH ss' (acc ++ [JStr s]) w eq_refl).
    cbn [map]. rewrite <- app_assoc. reflexivity.
Qed.

Lemma collect_strings : forall ss acc w,
  fold_m (fun x acc => u <- as_str x ;; ret (acc ++ [u])) (map JStr ss) acc w
  = (Ret (acc ++ ss), w).
Proof.
  induction ss as [|s ss IH]; intros acc w; cbn [map fold_m].
  - unfold ret. rewrite app_nil_r. reflexivity.
  - unfold bind at 1. unfold bind at 1. unfold as_str at 1, ret at 1 2.
    cbv beta iota.
    rewrite IH, <- app_assoc. reflexivity.
Qed.

Lemma py_max_strings : forall s ss w,
  py_max (map JStr (s :: ss)) w = (Ret (JStr (Str.max_from s ss)), w).
Proof.
  intros s ss w. destruct ss as [|s2 ss]; [reflexivity|].
  cbn [map py_max]. unfold bind at 1. unfold as_str at 1, ret at 1.
  cbv beta iota. unfold bind at 1.
  change (JStr s2 :: map JStr ss) with (map JStr (s2 :: ss)).
  rewrite collect_strings. reflexivity.
Qed.

Lemma read_watermark_incremental : forall out repos s0 ss w x w1,
  arg_incremental (w_args w) = true ->
  stamps_of repos = Some (s0 :: ss) ->
  read_watermark out repos w = (Ret x, w1) ->
  x = Some (JStr (Str.max_from s0 ss))
  /\ arg_incremental (w_args w1) = true.
Proof.
  intros out repos s0 ss w x w1 Hincr Hst.
  unfold read_watermark. unfold bind at 1, get_args. cbv beta iota.
  rewrite Hincr. unfold bind at 1, get_env. cbv beta iota.
  unfold bind at 1. rewrite (collect_stamps repos (s0 :: ss) [] w Hst).
  cbv beta iota. cbn [app map]. unfold bind at 1, timegm_now.
  cbv beta iota. unfold bind at 1.
  change (JStr s0 :: map JStr ss) with (map JStr (s0 :: ss)).
  rewrite py_max_strings. cbv beta iota.
  unfold path_exists, read_file, fs_lookup, set_args, raise, bind, ret.
  cbv beta iota.
  destruct (sget (Str.path_join out "last_update") (w_fs w)) as [[|c]|] eqn:E;
    cbv beta iota; rewrite ?E; cbv beta iota;
    intros H; inversion H; subst; cbn; auto.
Qed.

Lemma write_watermark_incremental : forall out s w w',
  arg_incremental (w_args w) = true ->
  write_watermark out (Some (JStr s)) w = (Ret tt, w') ->
  watermark out w' = Some s.
Proof.
  intros out s w w' Hincr.
  unfold write_watermark, bind at 1, get_args. cbv beta iota. rewrite Hincr.
  unfold write_file, fs_lookup, tell, fs_store, raise.
  cbn -[Str.path_join sget sset].
  destruct (sget (Str.path_join out "last_update") (w_fs w)) as [[|c]|];
    cbn -[Str.path_join sget sset];
    intros H; inversion H; subst; unfold watermark;
    cbn -[Str.path_join sget sset];
    rewrite sget_sset_same; reflexivity.
Qed.

(** A successful incremental run leaves in the watermark file the newest
    [updated_at] of its repositories. *)
Lemma run_writes_newest : forall out repos s0 ss w w',
  arg_incremental (w_args w) = true ->
  stamps_of repos = Some (s0 :: ss) ->
  backup_repositories out repos w = (Ret tt, w') ->
  watermark out w' = Some (Str.max_from s0 ss).
Proof.
  intros out repos s0 ss w w' Hincr Hst.
  unfold backup_repositories. unfold bind at 1, log_info, tell.
  cbv beta iota. unfold bind at 1, get_args. cbv beta iota.
  unfold bind at 1.
  destruct (read_watermark out repos (emit (EvInfo "Backing up repositories") w))
    as [[x| | | |] w1] eqn:Hread; try discriminate.
  assert (Hincr0 : arg_incremental
                     (w_args (emit (EvInfo "Backing up repositories") w))
                   = true) by exact Hincr.
  destruct (read_watermark_incremental _ _ _ _ _ _ _ Hincr0 Hst Hread)
    as [-> Hincr1].
  unfold bind at 1.
  pose proof (keeps_for_each _ repos
                (backup_repository out
                   ("https://" ^^ get_github_api_host
                                    (w_args (emit (EvInfo "Backing up repositories") w))
                    ^^ "/repos"))
                (fun r => keeps_backup_repository _ _ r) w1) as [Hk _].
  match goal with |- context [for_each ?l ?b ?v] =>
    destruct (for_each l b v) as [[[]| | | |] w2] end; try discriminate.
  cbn [snd] in Hk. intros Hwrite.
  apply (write_watermark_incremental _ _ _ _ (eq_trans Hk Hincr1) Hwrite).
Qed.

(** C6, the counterexample: the repository updated last is gone from the
    second run (deleted, or filtered out); the second run writes the older
    timestamp of what is left over the newer one of the first run. *)
Lemma watermark_can_go_back :
  let feb := "2020-02-01T00:00:00Z" in
  let jan := "2020-01-01T00:00:00Z" in
  let run1 := backup_repositories "out"
                [Sample.repo "r" feb; Sample.repo "s" jan]
                (Sample.world0 Sample.args_incremental []) in
  let run2 := backup_repositories "out" [Sample.repo "s" jan]
                (Sample.next_run Sample.args_incremental (snd run1)) in
  fst run1 = Ret tt /\ fst run2 = Ret tt
  /\ watermark "out" (snd run1) = Some feb
  /\ watermark "out" (snd run2) = Some jan
  /\ Str.ge jan feb = false.
Proof. vm_compute. repeat split; reflexivity. Qed.

(** C6, as the code has it.  A successful incremental run writes as Cutoff
    the newest [updated_at] of its own repositories, without a look at the
    Cutoff written before.  So of two successful incremental runs the later
    writes a Cutoff at least as large as the earlier whenever every
    timestamp of the earlier run's repositories is matched by one at least
    as large among the later run's. *)
Theorem watermark_follows_newest_update :
  forall out repos1 repos2 stamps1 stamps2 w1 w1' w2 w2',
    arg_incremental (w_args w1) = true ->
    arg_incremental (w_args w2) = true ->
    stamps_of repos1 = Some stamps1 ->
    stamps_of repos2 = Some stamps2 ->
    stamps1 <> [] ->
    backup_repositories out repos1 w1 = (Ret tt, w1') ->
    backup_repositories out repos2 w2 = (Ret tt, w2') ->
    (forall s1, In s1 stamps1 ->
       exists s2, In s2 stamps2 /\ Str.ge s2 s1 = true) ->
    exists c1 c2,
      watermark out w1' = Some c1 /\ newest stamps1 = Some c1
      /\ watermark out w2' = Some c2 /\ newest stamps2 = Some c2
      /\ Str.ge c2 c1 = true.
Proof.
  intros out repos1 repos2 stamps1 stamps2 w1 w1' w2 w2'
         Hi1 Hi2 Hs1 Hs2 Hne Hrun1 Hrun2 Hgrow.
  destruct stamps1 as [|a1 l1]; [contradiction|].
  destruct (Hgrow a1 (or_introl eq_refl)) as (s2 & Hin2 & _).
  destruct stamps2 as [|a2 l2]; [destruct Hin2|].
  exists (Str.max_from a1 l1), (Str.max_from a2 l2).
  split; [exact (run_writes_newest _ _ _ _ _ _ Hi1 Hs1 Hrun1)|].
  split; [reflexivity|].
  split; [exact (run_writes_newest _ _ _ _ _ _ Hi2 Hs2 Hrun2)|].
  split; [reflexivity|].
  destruct (Hgrow (Str.max_from a1 l1) (max_from_In l1 a1)) as (t & Ht & Hge).
  eapply ge_trans; [apply max_from_ge; exact Ht | exact Hge].
Qed.

Lemma watermark_follows_newest_update_witness :
  let jan := "2020-01-01T00:00:00Z" in
  let feb := "2020-02-01T00:00:00Z" in
  let w1 := Sample.world0 Sample.args_incremental [] in
  let run1 := backup_repositories "out" [Sample.repo "r" jan] w1 in
  let w2 := Sample.next_run Sample.args_incremental (snd run1) in
  let run2 := backup_repositories "out" [Sample.repo "r" feb] w2 in
  arg_incremental (w_args w1) = true
  /\ run1 = (Ret tt, snd run1)
  /\ run2 = (Ret tt, snd run2)
  /\ exists c1 c2,
       watermark "out" (snd run1) = Some c1 /\ newest [jan] = Some c1
       /\ watermark "out" (snd run2) = Some c2 /\ newest [feb] = Some c2
       /\ Str.ge c2 c1 = true.
Proof.
  intros jan feb w1 run1 w2 run2.
  assert (H1 : run1 = (Ret tt, snd run1)) by (vm_compute; reflexivity).
  assert (H2 : run2 = (Ret tt, snd run2)) by (vm_compute; reflexivity).
  split; [reflexivity|]. split; [exact H1|]. split; [exact H2|].
  apply (watermark_follows_newest_update "out" [Sample.repo "r" jan]
           [Sample.repo "r" feb] [jan] [feb] w1 (snd run1) w2 (snd run2));
    try reflexivity; try assumption.
  - discriminate.
  - intros s1 [<-|[]]. exists feb. split; [left; reflexivity | reflexivity].
Defined.

(** * Pull requests under the Cutoff *)

Lemma lt_empty : forall s, Str.lt s "" = false.
Proof. intros s. destruct s; reflexivity. Qed.

Lemma lt_given : forall s c, Str.lt s c = true -> given (Some c) = true.
Proof.
  intros s c H. cbn. destruct (String.eqb_spec c ""); [|reflexivity].
  subst c. rewrite lt_empty in H. discriminate.
Qed.

(** The gate on [args.since], for a pull with a timestamp. *)
Lemma since_gate_spec : forall x s c w,
  arg_since (w_args w) = Some c ->
  updated_at x = Some s ->
  since_gate x w = (Ret (if Str.lt s c then Some true else Some false), w).
Proof.
  intros x s c w Hs Hx. unfold updated_at in Hx.
  destruct x as [| | | | |d]; try discriminate.
  destruct (sget "updated_at" d) as [[| | |s'| |]|] eqn:Hd; try discriminate.
  inversion Hx. subst s'.
  unfold since_gate, py_lt_str, py_ge_str, py_item, as_str, get_args.
  unfold bind, ret. cbv beta iota. rewrite Hs, Hd. cbv beta iota.
  cbn [text]. unfold Str.ge.
  destruct (given (Some c)) eqn:G; cbv beta iota.
  - destruct (Str.lt s c); reflexivity.
  - destruct (Str.lt s c) eqn:L; [|reflexivity].
    rewrite (lt_given _ _ L) in G. discriminate.
Qed.

Lemma keep_pull_older : forall x s c pulls w,
  arg_since (w_args w) = Some c ->
  updated_at x = Some s -> Str.lt s c = true ->
  keep_pull x pulls w = (Ret (pulls, true), w).
Proof.
  intros x s c pulls w Hs Hx L. unfold keep_pull, bind at 1.
  rewrite (since_gate_spec _ _ _ _ Hs Hx), L. reflexivity.
Qed.

Lemma keep_pull_details_older : forall t x s c pulls w,
  arg_since (w_args w) = Some c ->
  updated_at x = Some s -> Str.lt s c = true ->
  keep_pull_details t x pulls w = (Ret (pulls, true), w).
Proof.
  intros t x s c pulls w Hs Hx L. unfold keep_pull_details, bind at 1.
  rewrite (since_gate_spec _ _ _ _ Hs Hx), L. reflexivity.
Qed.

Lemma keep_pull_fresh : forall x s c k pulls w,
  arg_since (w_args w) = Some c ->
  updated_at x = Some s -> Str.lt s c = false ->
  number_key x = Some k ->
  keep_pull x pulls w = (Ret (store_pull pulls x, false), w).
Proof.
  intros x s c k pulls w Hs Hx L Hk. unfold keep_pull, bind at 1.
  rewrite (since_gate_spec _ _ _ _ Hs Hx), L. cbv beta iota.
  unfold store_pull. rewrite Hk. unfold number_key in Hk.
  destruct x as [| | | | |d]; try discriminate.
  unfold bind, py_item, hashable, ret.
  destruct (sget "number" d) as [n|]; try discriminate.
  cbv beta iota. rewrite Hk. reflexivity.
Qed.

(** [get_auth] leaves the throttle pause as it is. *)
Lemma get_auth_throttle : forall encode for_git_cli w,
  arg_throttle_pause (w_args (snd (get_auth encode for_git_cli w)))
  = arg_throttle_pause (w_args w).
Proof.
  intros encode for_git_cli w.
  unfold get_auth, bind, get_args, get_env, when, log_error, log_warnings,
         sys_exit, read_file, fs_lookup, set_args, ret, for_each, bind,
         log_warning, tell, getpass.
  cbv beta iota.
  repeat match goal with
    | |- context [if ?c then _ else _] => destruct c; cbv beta iota
    | |- context [match env_keychain ?e ?n ?a with _ => _ end] =>
        destruct (env_keychain e n a); cbv beta iota
    | |- context [match sget ?p ?f with _ => _ end] =>
        destruct (sget p f) as [[|?]|]; cbv beta iota
    | |- context [match env_getpass ?e with _ => _ end] =>
        destruct (env_getpass e); cbv beta iota
    end;
    reflexivity.
Qed.

(** What [scan] keeps is no older than the Cutoff and has a number; what it
    drops starts with a pull older than the Cutoff. *)
Lemma scan_spec : forall c items kept broke,
  scan c items = Some (kept, broke) ->
  Forall (fresh c) kept
  /\ Forall (fun x => number_key x <> None) kept
  /\ exists dropped,
       items = kept ++ dropped
       /\ match dropped with
          | [] => broke = false
          | old :: _ => broke = true /\ older c old
          end.
Proof.
  intros c items. induction items as [|x items IH]; intros kept broke H;
    cbn [scan] in H.
  - inversion H. subst. repeat split; try constructor.
    exists []. split; reflexivity.
  - destruct (updated_at x) as [s|] eqn:Hx; [|discriminate].
    destruct (Str.lt s c) eqn:L.
    + inversion H. subst. repeat split; try constructor.
      exists (x :: items). split; [reflexivity|].
      split; [reflexivity|]. exists s. split; assumption.
    + destruct (number_key x) as [k|] eqn:Hk; [|discriminate].
      destruct (scan c items) as [[kept' broke']|]; [|discriminate].
      inversion H. subst.
      destruct (IH kept' broke eq_refl) as (F & Nk & dropped & Hi & Hd).
      split.
      { constructor; [|exact F]. exists s. split; [exact Hx|].
        unfold Str.ge. rewrite L. reflexivity. }
      split.
      { constructor; [|exact Nk]. rewrite Hk. discriminate. }
      exists dropped. split; [|exact Hd]. rewrite Hi. reflexivity.
Qed.

Lemma scan_full_page : forall c p,
  scan c p = Some (p, false) ->
  Forall (fresh c) p /\ Forall (fun x => number_key x <> None) p.
Proof.
  intros c p H. destruct (scan_spec c p p false H) as (F & N & _).
  split; assumption.
Qed.

(** * A stream in descending order of update *)

Lemma desc_trans : forall x y z, desc x y -> desc y z -> desc x z.
Proof.
  intros x y z. unfold desc.
  destruct (updated_at x) as [a|]; [|contradiction].
  destruct (updated_at y) as [b|]; [|contradiction].
  destruct (updated_at z) as [d|]; [|contradiction].
  apply ge_trans.
Qed.

Lemma desc_older : forall c x y, desc x y -> older c x -> older c y.
Proof.
  intros c x y Hd (s & Hx & L). unfold desc in Hd. rewrite Hx in Hd.
  destruct (updated_at y) as [b|] eqn:Hy; [|contradiction].
  exists b. split; [exact Hy|]. exact (ge_lt_trans s b c Hd L).
Qed.

Lemma descb_desc : forall x y, descb x y = true -> desc x y.
Proof.
  intros x y. unfold descb, desc.
  destruct (updated_at x); [|discriminate].
  destruct (updated_at y); [|discriminate].
  exact (fun H => H).
Qed.

Lemma descending_sorted : forall l, descending l = true -> Sorted desc l.
Proof.
  induction l as [|x l IH]; intros H; [constructor|].
  cbn [descending] in H. destruct l as [|y l].
  - constructor; constructor.
  - apply andb_true_iff in H. destruct H as [H1 H2].
    constructor; [exact (IH H2)|]. constructor. exact (descb_desc x y H1).
Qed.

Lemma strongly_sorted_tail : forall (a b : list json),
  StronglySorted desc (a ++ b) -> StronglySorted desc b.
Proof.
  induction a as [|x a IH]; intros b H; [exact H|].
  cbn [app] in H. inversion H. subst. apply IH. assumption.
Qed.

(** After a pull older than the Cutoff the stream holds only older pulls. *)
Lemma sorted_after_older : forall c a old b,
  Sorted desc (a ++ old :: b) -> older c old -> Forall (older c) (old :: b).
Proof.
  intros c a old b H Hold.
  assert (T : Transitive desc) by (intros x y z; apply desc_trans).
  apply Sorted_StronglySorted in H; [|exact T].
  apply strongly_sorted_tail in H. inversion H as [|? ? _ Hall]. subst.
  constructor; [exact Hold|].
  eapply Forall_impl; [|exact Hall].
  intros y Hy. exact (desc_older c old y Hy Hold).
Qed.


(** * Whole passes over a collection *)

(** *** All the pages of a collection *)

Lemma dict_get_set_same : forall V (k : string) (v : V) d,
  sget k (sset k v d) = Some v.
Proof.
  intros V k v d. unfold sget, sset.
  induction d as [|[k' v'] d IH]; cbn.
  - rewrite String.eqb_refl. reflexivity.
  - destruct (String.eqb k' k) eqn:E; cbn; rewrite E; [reflexivity | exact IH].
Qed.

Lemma dict_get_set_other : forall V (k k2 : string) (v : V) d,
  k <> k2 -> sget k2 (sset k v d) = sget k2 d.
Proof.
  intros V k k2 v d Hne. unfold sget, sset.
  induction d as [|[k' v'] d IH]; cbn.
  - destruct (String.eqb_spec k k2); [contradiction | reflexivity].
  - destruct (String.eqb k' k) eqn:E; cbn.
    + apply String.eqb_eq in E. subst k'.
      destruct (String.eqb_spec k k2); [contradiction | reflexivity].
    + destruct (String.eqb k' k2); [reflexivity | exact IH].
Qed.

(** Pairs that do not name [k] leave the entry of [k] as it is. *)
Lemma dict_of_pairs_other : forall (k : string) (l d : list (string * json)),
  sget k l = None ->
  sget k (fold_left (fun d kv => dict_set String.eqb (fst kv) (snd kv) d) l d)
  = sget k d.
Proof.
  intros k l. induction l as [|[k' v] l IH]; intros d H; [reflexivity|].
  cbn [fold_left fst snd]. unfold sget in H. cbn [dict_get] in H.
  destruct (String.eqb k' k) eqn:E; [discriminate|].
  rewrite (IH _ H). apply dict_get_set_other.
  intros ->. rewrite String.eqb_refl in E. discriminate.
Qed.

(** The page number that a request carries is the one the loop counts,
    unless the caller's own parameters name a [page]. *)
Lemma page_of_page_query : forall pp page q,
  sget "page" q = None ->
  sget "page" (page_query pp page q) = Some (JNum page).
Proof.
  intros pp page q H. unfold page_query, dict_of_list.
  cbn [app fold_left fst snd dict_set].
  change (String.eqb "per_page" "page") with false. cbv beta iota.
  rewrite (dict_of_pairs_other "page" q _ H). reflexivity.
Qed.

Lemma for_pages_collect_all : forall auth q t rs fulls,
  Forall2 serves rs fulls ->
  forall r lastp rest fuel page acc w,
    0 <= arg_throttle_pause (w_args w) ->
    Forall (fun p => List.length p = per_page) fulls ->
    serves r lastp ->
    (List.length lastp < per_page)%nat ->
    w_net w = map Responded rs ++ Responded r :: rest ->
    exists w',
      for_pages (S (List.length rs) + fuel) auth q t false page collect acc w
      = (Ret (acc ++ List.concat fulls ++ lastp), w')
      /\ w_net w' = rest
      /\ w_args w' = w_args w
      /\ w_fs w' = w_fs w
      /\ urlopens (w_trace w')
         = urlopens (w_trace w)
           ++ map (fun n => page_request per_page (page + Z.of_nat n) q t auth
                                         (arg_as_app (w_args w)))
                  (seq 1 (S (List.length rs))).
Proof.
  intros auth q t rs fulls HF.
  induction HF as [|r0 p0 rs fulls [Hcode0 Hbody0] HF IH];
    intros r lastp rest fuel page acc w Hpause Hfull [Hcode Hbody] Hshort Hnet.
  - cbn [map app] in Hnet.
    destruct (fetch_page_json auth q t false (page + 1) r (JList lastp) rest w
                Hcode Hbody Hpause Hnet) as (w1 & (N & A & _ & F & U) & E).
    apply Nat.ltb_lt in Hshort. rewrite Hshort in E.
    cbn [List.length Nat.add].
    rewrite (for_pages_collect _ _ _ _ _ _ _ _ _ _ _ E).
    exists w1. cbn [List.concat app seq map].
    split; [reflexivity|]. split; [exact N|]. split; [exact A|].
    split; [exact F|]. exact U.
  - cbn [map app] in Hnet.
    inversion Hfull as [|? ? Hlen0 Hfull']. subst.
    destruct (fetch_page_json auth q t false (page + 1) r0 (JList p0)
                (map Responded rs ++ Responded r :: rest) w
                Hcode0 Hbody0 Hpause Hnet) as (w1 & (N & A & _ & F & U) & E).
    assert (Hl : (List.length p0 <? per_page)%nat = false)
      by (apply Nat.ltb_ge; rewrite Hlen0; apply Nat.le_refl).
    rewrite Hl in E. cbn [negb] in E.
    cbn [List.length Nat.add].
    rewrite (for_pages_collect _ _ _ _ _ _ _ _ _ _ _ E).
    assert (Hp1 : 0 <= arg_throttle_pause (w_args w1))
      by (rewrite A; exact Hpause).
    destruct (IH r lastp rest fuel (page + 1) (acc ++ p0) w1 Hp1 Hfull'
                (conj Hcode Hbody) Hshort N) as (w' & R & N' & A' & F' & U').
    exists w'.
    change (S (List.length rs) + fuel)%nat
      with (S (List.length rs + fuel)) in R.
    rewrite R. cbn [List.concat].
    split; [rewrite <- !app_assoc; reflexivity|].
    split; [exact N'|].
    split; [rewrite A'; exact A|].
    split; [rewrite F'; exact F|].
    rewrite U', U, A, <- app_assoc. f_equal.
    change (seq 1 (S (S (List.length rs))))
      with (1%nat :: seq 2 (S (List.length rs))).
    rewrite <- (seq_shift (S (List.length rs)) 1).
    cbn [map app]. rewrite map_map. f_equal.
    apply map_ext. intros n. f_equal. lia.
Qed.

(** [retrieve_data] over a collection served in full pages and a last,
    shorter one. *)
Lemma retrieve_data_all_pages :
  forall t q rs fulls r lastp rest w auth w0,
    get_auth (negb (arg_as_app (w_args w))) false w = (Ret auth, w0) ->
    0 <= arg_throttle_pause (w_args w) ->
    Forall2 serves rs fulls ->
    Forall (fun p => List.length p = per_page) fulls ->
    serves r lastp ->
    (List.length lastp < per_page)%nat ->
    w_net w = map Responded rs ++ Responded r :: rest ->
    exists w',
      retrieve_data t q false w = (Ret (List.concat fulls ++ lastp), w')
      /\ w_net w' = rest
      /\ w_args w' = w_args w0
      /\ w_fs w' = w_fs w
      /\ urlopens (w_trace w')
         = urlopens (w_trace w)
           ++ map (fun n => page_request per_page (Z.of_nat n)
                                         (get_query_args q) t auth
                                         (arg_as_app (w_args w0)))
                  (seq 1 (S (List.length fulls))).
Proof.
  intros t q rs fulls r lastp rest w auth w0 Hauth Hpause HF Hfull Hserve
         Hshort Hnet.
  destruct (get_auth_quiet _ _ _ _ _ Hauth) as (T & N & F & _).
  pose proof (get_auth_throttle (negb (arg_as_app (w_args w))) false w) as P.
  rewrite Hauth in P. cbn [snd] in P.
  assert (Hp0 : 0 <= arg_throttle_pause (w_args w0))
    by (rewrite P; exact Hpause).
  assert (Hn0 : w_net w0 = map Responded rs ++ Responded r :: rest)
    by (rewrite N; exact Hnet).
  destruct (for_pages_collect_all auth (get_query_args q) t rs fulls HF
              r lastp rest (S (List.length rest)) 0 [] w0
              Hp0 Hfull Hserve Hshort Hn0) as (w' & R & N' & A' & F' & U').
  exists w'.
  unfold retrieve_data, for_in, retrieve_data_gen.
  cbn [gen_template gen_query_args gen_single_request].
  unfold bind at 1, get_args. cbv beta iota.
  unfold bind at 1. rewrite Hauth. cbv beta iota.
  rewrite Hn0, length_app, length_map. cbn [List.length].
  replace (S (List.length rs + S (List.length rest)))
    with (S (List.length rs) + S (List.length rest))%nat by reflexivity.
  rewrite R. cbn [app].
  split; [reflexivity|]. split; [exact N'|]. split; [exact A'|].
  split; [rewrite F'; exact F|].
  rewrite U', T, (Forall2_length HF). reflexivity.
Qed.


(** *** Credentials that are settled *)

Lemma get_auth_settled : forall encode for_git_cli w,
  settled_credentials (w_args w) = true ->
  exists c, get_auth encode for_git_cli w = (Ret c, w).
Proof.
  intros encode for_git_cli w H. unfold settled_credentials in H.
  apply andb_true_iff in H. destruct H as [H H3].
  apply andb_true_iff in H. destruct H as [H1 H2].
  apply negb_true_iff in H1. apply negb_true_iff in H2.
  unfold get_auth, bind, get_args, get_env, when, log_error, log_warnings,
         sys_exit, read_file, fs_lookup, set_args, ret, for_each,
         log_warning, tell, getpass.
  cbv beta iota. rewrite H1, H2. cbv beta iota.
  destruct (given (arg_token (w_args w))).
  - apply negb_true_iff in H3. rewrite H3. cbv beta iota.
    repeat match goal with
      | |- context [if ?c then _ else _] => destruct c; cbv beta iota
      end; eexists; reflexivity.
  - destruct (given (arg_username (w_args w))).
    + rewrite H3. cbn [negb]. cbv beta iota.
      repeat match goal with
        | |- context [if ?c then _ else _] => destruct c; cbv beta iota
        end; eexists; reflexivity.
    + apply negb_true_iff in H3. rewrite H3. eexists; reflexivity.
Qed.

(** *** Directories *)

Lemma mkdir_step : forall q w,
  (tell (EvMkdir q) ;;
   n <- fs_lookup q ;;
   match n with
   | None => fs_store q Dir
   | Some Dir => ret tt
   | Some (File _) => raise (OSError q)
   end) w
  = match sget q (w_fs w) with
    | None => (Ret tt, with_fs (sset q Dir (w_fs w)) (emit (EvMkdir q) w))
    | Some Dir => (Ret tt, emit (EvMkdir q) w)
    | Some (File _) => (Raise (OSError q), emit (EvMkdir q) w)
    end.
Proof.
  intros q w. unfold bind, tell, fs_lookup, fs_store, ret, raise.
  cbn [w_fs emit]. destruct (sget q (w_fs w)) as [[|c]|]; reflexivity.
Qed.

Lemma mkdir_p_dirs : forall paths w,
  (forall p c, In p paths -> sget p (w_fs w) <> Some (File c)) ->
  exists w1,
    mkdir_p paths w = (Ret tt, w1)
    /\ w_net w1 = w_net w /\ w_args w1 = w_args w /\ w_env w1 = w_env w
    /\ w_clock w1 = w_clock w
    /\ w_trace w1 = w_trace w ++ map EvMkdir paths
    /\ (forall p, In p paths -> sget p (w_fs w1) = Some Dir)
    /\ (forall p, ~ In p paths -> sget p (w_fs w1) = sget p (w_fs w))
    /\ (forall p n, sget p (w_fs w) = Some n -> sget p (w_fs w1) = Some n).
Proof.
  unfold mkdir_p.
  induction paths as [|q paths IH]; intros w H; cbn [for_each].
  - exists w. unfold ret. cbn [map]. rewrite app_nil_r.
    repeat split; auto. intros p [].
  - unfold bind at 1. rewrite mkdir_step.
    destruct (sget q (w_fs w)) as [[|c]|] eqn:E.
    + destruct (IH (emit (EvMkdir q) w))
        as (w1 & R & N & A & V & C & T & D & O & K).
      { intros p c Hin. cbn [w_fs emit]. apply H. right. exact Hin. }
      exists w1. split; [exact R|].
      cbn [w_net w_args w_env w_clock w_fs w_trace emit] in *.
      split; [exact N|]. split; [exact A|]. split; [exact V|].
      split; [exact C|].
      split; [rewrite T, <- app_assoc; reflexivity|].
      split.
      { intros p [<-|Hin]; [|exact (D p Hin)]. exact (K q Dir E). }
      split.
      { intros p Hn. apply O. intros Hin. apply Hn. right. exact Hin. }
      exact K.
    + exfalso. apply (H q c); [left; reflexivity | exact E].
    + destruct (IH (with_fs (sset q Dir (w_fs w)) (emit (EvMkdir q) w)))
        as (w1 & R & N & A & V & C & T & D & O & K).
      { intros p c Hin. cbn [w_fs with_fs emit].
        destruct (String.eqb_spec q p) as [->|Hne].
        - rewrite dict_get_set_same. discriminate.
        - rewrite (dict_get_set_other _ q p Dir _ Hne). apply H.
          right. exact Hin. }
      exists w1. split; [exact R|].
      cbn [w_net w_args w_env w_clock w_fs w_trace emit with_fs] in *.
      split; [exact N|]. split; [exact A|]. split; [exact V|].
      split; [exact C|].
      split; [rewrite T, <- app_assoc; reflexivity|].
      split.
      { intros p [<-|Hin]; [|exact (D p Hin)].
        apply K. apply dict_get_set_same. }
      split.
      { intros p Hn. rewrite O by (intros Hin; apply Hn; right; exact Hin).
        apply dict_get_set_other. intros ->. apply Hn. left. reflexivity. }
      intros p n Hp. apply K.
      destruct (String.eqb_spec q p) as [->|Hne].
      * rewrite E in Hp. discriminate.
      * rewrite (dict_get_set_other _ q p Dir _ Hne). exact Hp.
Qed.

(** *** Files *)

Lemma writes_app : forall a b, writes (a ++ b) = writes a ++ writes b.
Proof. intros. unfold writes. apply flat_map_app. Qed.

Lemma write_file_step : forall p c w,
  sget p (w_fs w) <> Some Dir ->
  write_file p c w
  = (Ret tt, with_fs (sset p (File c) (w_fs w)) (emit (EvWrite p c) w)).
Proof.
  intros p c w H. unfold write_file, bind at 1, fs_lookup. cbv beta iota.
  destruct (sget p (w_fs w)) as [[|c0]|]; [contradiction| |]; reflexivity.
Qed.

(** A loop that saves every entry of a dictionary in its file. *)
Lemma dump_all : forall cwd (body : key * json -> M unit) (ok : Args -> Prop) l w,
  (forall kx w0, ok (w_args w0) ->
     body kx w0
     = write_file (resource_file cwd (fst kx)) (Json (snd kx)) w0) ->
  ok (w_args w) ->
  (forall kx, In kx l ->
     sget (resource_file cwd (fst kx)) (w_fs w) <> Some Dir) ->
  exists w1,
    for_each l body w = (Ret tt, w1)
    /\ w_net w1 = w_net w /\ w_args w1 = w_args w /\ w_env w1 = w_env w
    /\ w_clock w1 = w_clock w
    /\ writes (w_trace w1) = writes (w_trace w) ++ dumps cwd l
    /\ urlopens (w_trace w1) = urlopens (w_trace w)
    /\ (forall p, sget p (w_fs w) <> Some Dir -> sget p (w_fs w1) <> Some Dir).
Proof.
  intros cwd body ok l. induction l as [|kx l IH]; intros w Hbody Hok Hfree;
    cbn [for_each].
  - exists w. unfold ret, dumps. cbn [map]. rewrite app_nil_r.
    repeat split; auto.
  - unfold bind at 1. rewrite (Hbody kx w Hok).
    rewrite write_file_step by (apply Hfree; left; reflexivity).
    set (w0 := with_fs _ _).
    assert (Hkeep : forall p, sget p (w_fs w) <> Some Dir ->
                              sget p (w_fs w0) <> Some Dir).
    { intros p Hp. unfold w0. cbn [w_fs with_fs emit].
      destruct (String.eqb_spec (resource_file cwd (fst kx)) p) as [->|Hne].
      - rewrite dict_get_set_same. discriminate.
      - rewrite (dict_get_set_other _ _ p _ _ Hne). exact Hp. }
    destruct (IH w0 Hbody) as (w1 & R & N & A & V & C & W & U & K).
    { exact Hok. }
    { intros kx' Hin. apply Hkeep. apply Hfree. right. exact Hin. }
    exists w1. split; [exact R|]. unfold w0 in *.
    cbn [w_net w_args w_env w_clock w_fs w_trace emit with_fs] in *.
    split; [exact N|]. split; [exact A|]. split; [exact V|].
    split; [exact C|].
    split.
    { rewrite W, writes_app. unfold dumps. cbn [map writes flat_map app].
      rewrite <- app_assoc. reflexivity. }
    split.
    { rewrite U, urlopens_app. cbn. apply app_nil_r. }
    intros p Hp. apply K. apply Hkeep. exact Hp.
Qed.

(** *** Paths *)

Lemma append_empty_r : forall s, s ^^ "" = s.
Proof. induction s as [|c s IH]; cbn; [reflexivity | rewrite IH; reflexivity]. Qed.

Lemma append_assoc' : forall a b c, (a ^^ b) ^^ c = a ^^ b ^^ c.
Proof.
  induction a as [|x a IH]; intros b c; cbn; [reflexivity|].
  rewrite IH. reflexivity.
Qed.


Lemma append_same_left : forall a b, a ^^ b = a -> b = "".
Proof.
  induction a as [|c a IH]; intros b H; cbn in H; [exact H|].
  inversion H. apply IH. assumption.
Qed.

Lemma resource_file_not_cwd : forall cwd k, resource_file cwd k <> cwd.
Proof.
  intros cwd k H. unfold resource_file in H.
  apply append_same_left in H. discriminate.
Qed.

Lemma path_join_child : forall a b,
  Str.startswith "/" b = false -> b <> "" ->
  exists s, Str.path_join a b = a ^^ s /\ s <> "".
Proof.
  intros a b Hb Hne. unfold Str.path_join. rewrite Hb.
  destruct (String.eqb a "" || Str.endswith_slash a).
  - exists b. split; [reflexivity | exact Hne].
  - exists ("/" ^^ b). split; [reflexivity | discriminate].
Qed.

Lemma resource_file_not_parent : forall a b k,
  Str.startswith "/" b = false -> b <> "" ->
  resource_file (Str.path_join a b) k <> a.
Proof.
  intros a b k Hb Hne H.
  destruct (path_join_child a b Hb Hne) as (s & E & Hs).
  unfold resource_file in H. rewrite E, append_assoc' in H.
  apply append_same_left in H. destruct s; [contradiction | discriminate].
Qed.

(** *** The issues of one pass *)

Lemma merge_issue_total : forall sip x d sk w,
  mergeable sip x = true ->
  exists sk',
    merge_issue sip x (d, sk) w = (Ret (store_issue sip d x, sk'), w).
Proof.
  intros sip x d sk w H. unfold mergeable in H.
  destruct x as [| | | | |o]; try discriminate.
  unfold merge_issue, store_issue, stored_as, bind, py_contains, py_item,
         hashable, ret.
  cbv beta iota.
  destruct (dict_mem String.eqb "pull_request" o && sip) eqn:E.
  - eexists. reflexivity.
  - cbn [orb] in H.
    destruct (sget "number" o) as [n|]; [|discriminate].
    destruct (as_key n) as [k|]; [|discriminate].
    eexists. reflexivity.
Qed.

Lemma fold_merge_issue_total : forall sip l d sk w,
  Forall (fun x => mergeable sip x = true) l ->
  exists sk',
    fold_m (merge_issue sip) l (d, sk) w = (Ret (merged sip l d, sk'), w).
Proof.
  intros sip l. induction l as [|x l IH]; intros d sk w H.
  - exists sk. reflexivity.
  - inversion H as [|? ? Hx Hl]. subst.
    destruct (merge_issue_total sip x d sk w Hx) as [sk1 E].
    destruct (IH (store_issue sip d x) sk1 w Hl) as [sk2 E2].
    exists sk2. cbn [fold_m]. unfold bind at 1. rewrite E. exact E2.
Qed.

(** *** What writes no file *)

Lemma wn_same : forall A (m : M A),
  (forall w, w_fs (snd (m w)) = w_fs w /\ w_trace (snd (m w)) = w_trace w) ->
  writes_nothing m.
Proof. intros A m H w. destruct (H w) as [F T]. rewrite F, T. auto. Qed.

Lemma wn_ret : forall A (a : A), writes_nothing (ret a).
Proof. intros. apply wn_same. intros w. split; reflexivity. Qed.

Lemma wn_stop : forall A (r : result A), writes_nothing (fun w => (r, w)).
Proof. intros. apply wn_same. intros w. split; reflexivity. Qed.

Lemma wn_read : forall A (f : world -> A),
  writes_nothing (fun w => (Ret (f w), w)).
Proof. intros. apply wn_same. intros w. split; reflexivity. Qed.

Lemma wn_bind : forall A B (m : M A) (f : A -> M B),
  writes_nothing m -> (forall a, writes_nothing (f a)) ->
  writes_nothing (bind m f).
Proof.
  intros A B m f Hm Hf w. unfold bind.
  pose proof (Hm w) as H1. destruct (m w) as [r w']. cbn [snd] in H1.
  destruct r; cbn [snd]; try exact H1.
  destruct (Hf a w') as [F T]. destruct H1 as [F1 T1].
  rewrite F, T, F1, T1. auto.
Qed.

Lemma wn_log_info : forall m, writes_nothing (log_info m).
Proof.
  intros m w. unfold log_info, tell. cbn. rewrite writes_app. cbn.
  rewrite app_nil_r. auto.
Qed.

Lemma wn_log_warning : forall m, writes_nothing (log_warning m).
Proof.
  intros m w. unfold log_warning, tell. cbn. rewrite writes_app. cbn.
  rewrite app_nil_r. auto.
Qed.

Lemma wn_urlopen : forall rq, writes_nothing (urlopen rq).
Proof.
  intros rq w. unfold urlopen. destruct (w_net w); cbn;
    rewrite writes_app; cbn; rewrite app_nil_r; auto.
Qed.

Lemma wn_sleep : forall d, writes_nothing (sleep d).
Proof.
  intros d w. unfold sleep. destruct (d <? 0); cbn; [auto|].
  rewrite writes_app. cbn. rewrite app_nil_r. auto.
Qed.

Lemma wn_set_args : forall a, writes_nothing (set_args a).
Proof. intros. apply wn_same. intros w. split; reflexivity. Qed.

Lemma wn_getpass : writes_nothing getpass.
Proof.
  apply wn_same. intros w. unfold getpass.
  destruct (env_getpass (w_env w)); split; reflexivity.
Qed.

Lemma wn_for_each : forall A (l : list A) (body : A -> M unit),
  (forall x, writes_nothing (body x)) -> writes_nothing (for_each l body).
Proof.
  induction l as [|x l IH]; intros body Hb; cbn [for_each].
  - apply wn_ret.
  - apply wn_bind; [apply Hb | intros; apply IH; exact Hb].
Qed.

Lemma wn_for_items : forall St items (body : json -> St -> M (St * bool)) s,
  (forall x s, writes_nothing (body x s)) ->
  writes_nothing (for_items items body s).
Proof.
  induction items as [|x items IH]; intros body s Hb; cbn [for_items].
  - apply wn_ret.
  - apply wn_bind; [apply Hb|]. intros [s' broke].
    destruct broke; [apply wn_ret | apply IH; exact Hb].
Qed.

Lemma wn_when : forall c m, writes_nothing m -> writes_nothing (when c m).
Proof. intros c m H. unfold when. destruct c; [exact H | apply wn_ret]. Qed.

Create HintDb wn.

#[local] Hint Resolve wn_ret wn_stop wn_log_info wn_log_warning wn_urlopen
  wn_sleep wn_set_args wn_getpass : wn.

Ltac wn_step :=
  first
    [ solve [auto with wn]
    | apply wn_read
    | apply wn_bind; [|intros]
    | apply wn_when
    | apply wn_for_each; intros
    | apply wn_for_items; intros
    | match goal with
      | |- writes_nothing (match ?x with _ => _ end) => destruct x
      | |- writes_nothing (if ?c then _ else _) => destruct c
      | |- writes_nothing (let (_, _) := ?x in _) => destruct x
      end ].

Ltac wn_auto := repeat wn_step.

Lemma wn_get_args : writes_nothing get_args.
Proof. apply wn_read. Qed.

Lemma wn_get_env : writes_nothing get_env.
Proof. apply wn_read. Qed.

Lemma wn_timegm_now : writes_nothing timegm_now.
Proof. apply wn_read. Qed.

Lemma wn_fs_lookup : forall p, writes_nothing (fs_lookup p).
Proof. intros. apply wn_read. Qed.

Lemma wn_raise : forall A e, writes_nothing (@raise A e).
Proof. intros. apply wn_stop. Qed.

Lemma wn_sys_exit : forall A s, writes_nothing (@sys_exit A s).
Proof. intros. apply wn_stop. Qed.

#[local] Hint Resolve wn_get_args wn_get_env wn_timegm_now wn_fs_lookup
  wn_raise wn_sys_exit : wn.

Lemma wn_log_warnings : forall msgs, writes_nothing (log_warnings msgs).
Proof. intros. unfold log_warnings. wn_auto. Qed.

#[local] Hint Resolve wn_log_warnings : wn.

Lemma wn_log_error : forall A msgs, writes_nothing (@log_error A msgs).
Proof. intros. unfold log_error. wn_auto. Qed.

Lemma wn_log_warning_obj : forall o, writes_nothing (log_warning_obj o).
Proof. intros. unfold log_warning_obj. wn_auto. Qed.

Lemma wn_read_file : forall p, writes_nothing (read_file p).
Proof. intros. unfold read_file. wn_auto. Qed.

#[local] Hint Resolve wn_log_error wn_log_warning_obj wn_read_file : wn.

Lemma wn_get_auth : forall encode for_git_cli,
  writes_nothing (get_auth encode for_git_cli).
Proof. intros. unfold get_auth. wn_auto. Qed.

Lemma wn_construct_request : forall pp page q t auth as_app,
  writes_nothing (_construct_request pp page q t auth as_app).
Proof. intros. unfold _construct_request. wn_auto. Qed.

Lemma wn_request_http_error : forall exc auth errors,
  writes_nothing (_request_http_error exc auth errors).
Proof. intros. unfold _request_http_error. wn_auto. Qed.

Lemma wn_request_url_error : forall t rt,
  writes_nothing (_request_url_error t rt).
Proof. intros. unfold _request_url_error. wn_auto. Qed.

#[local] Hint Resolve wn_get_auth wn_construct_request wn_request_http_error
  wn_request_url_error : wn.

Lemma wn_get_response_loop : forall fuel rq auth t rt errors,
  writes_nothing (_get_response_loop fuel rq auth t rt errors).
Proof.
  induction fuel as [|fuel IH]; intros; cbn [_get_response_loop].
  - apply wn_stop.
  - repeat first [apply IH | wn_step].
Qed.

Lemma wn_get_response : forall rq auth t,
  writes_nothing (_get_response rq auth t).
Proof. intros rq auth t w. apply wn_get_response_loop. Qed.

#[local] Hint Resolve wn_get_response : wn.

Lemma wn_retry_502 : forall left page q t auth r errors status,
  writes_nothing (retry_502 left page q t auth r errors status).
Proof.
  induction left as [|left IH]; intros; cbn [retry_502].
  - apply wn_ret.
  - repeat first [apply IH | wn_step].
Qed.

Lemma wn_json_loads : forall r, writes_nothing (json_loads r).
Proof. intros. unfold json_loads. wn_auto. Qed.

#[local] Hint Resolve wn_retry_502 wn_json_loads : wn.

Lemma wn_fetch_page : forall auth q t single page,
  writes_nothing (fetch_page auth q t single page).
Proof. intros. unfold fetch_page. wn_auto. Qed.

#[local] Hint Resolve wn_fetch_page : wn.

Lemma wn_for_pages : forall St fuel auth q t single page
    (body : json -> St -> M (St * bool)) s,
  (forall x s, writes_nothing (body x s)) ->
  writes_nothing (for_pages fuel auth q t single page body s).
Proof.
  induction fuel as [|fuel IH]; intros; cbn [for_pages].
  - apply wn_stop.
  - cbv zeta. repeat first [apply IH; assumption | wn_step | apply H].
Qed.

Lemma wn_for_in : forall St g (body : json -> St -> M (St * bool)) s,
  (forall x s, writes_nothing (body x s)) -> writes_nothing (for_in g body s).
Proof.
  intros St g body s Hb. unfold for_in.
  apply wn_bind; [apply wn_get_args|]. intros args.
  apply wn_bind; [apply wn_get_auth|]. intros auth w.
  apply wn_for_pages. exact Hb.
Qed.

Lemma wn_retrieve_data : forall t q single,
  writes_nothing (retrieve_data t q single).
Proof.
  intros. unfold retrieve_data. apply wn_for_in.
  intros. unfold collect. apply wn_ret.
Qed.

(** * Issues, from the two passes to the files *)

(** One turn of [for issue_state in issue_states]. *)
Lemma issues_pass : forall sip t state rs fulls r lastp rest d sk w,
  settled_credentials (w_args w) = true ->
  0 <= arg_throttle_pause (w_args w) ->
  Forall2 serves rs fulls ->
  Forall (fun p => List.length p = per_page) fulls ->
  serves r lastp ->
  (List.length lastp < per_page)%nat ->
  Forall (fun x => mergeable sip x = true) (List.concat fulls ++ lastp) ->
  w_net w = map Responded rs ++ Responded r :: rest ->
  exists sk' w',
    (args <- get_args ;;
     _issues <-
       retrieve_data t
         (Some ([("filter", JStr "all"); ("state", JStr state)]
                ++ (if given (arg_since args)
                    then [("since", JStr (text (arg_since args)))]
                    else []))) false ;;
     fold_m (merge_issue sip) _issues (d, sk)) w
    = (Ret (merged sip (List.concat fulls ++ lastp) d, sk'), w')
    /\ w_net w' = rest /\ w_args w' = w_args w /\ w_fs w' = w_fs w
    /\ writes (w_trace w') = writes (w_trace w).
Proof.
  intros sip t state rs fulls r lastp rest d sk w Hcred Hpause HF Hfull Hs
         Hshort Hm Hnet.
  destruct (get_auth_settled (negb (arg_as_app (w_args w))) false w Hcred)
    as [auth Hauth].
  set (q := Some ([("filter", JStr "all"); ("state", JStr state)]
                  ++ (if given (arg_since (w_args w))
                      then [("since", JStr (text (arg_since (w_args w))))]
                      else []))).
  destruct (retrieve_data_all_pages t q rs fulls r lastp rest w auth w
              Hauth Hpause HF Hfull Hs Hshort Hnet)
    as (w' & R & N & A & F & _).
  destruct (fold_merge_issue_total sip (List.concat fulls ++ lastp) d sk w' Hm)
    as [sk' E].
  exists sk', w'.
  unfold bind at 1, get_args. cbv beta iota. fold q.
  unfold bind at 1. rewrite R. cbv beta iota.
  split; [exact E|]. split; [exact N|]. split; [exact A|].
  split; [exact F|].
  pose proof (wn_retrieve_data t q false w) as [_ W].
  rewrite R in W. exact W.
Qed.



(** * Pull requests, from the Cutoff to the files *)

(** [retrieve_data(..., single_request=True)] on an answer that is one
    object. *)
Lemma retrieve_object : forall t r dd rest w,
  settled_credentials (w_args w) = true ->
  0 <= arg_throttle_pause (w_args w) ->
  r_code r = 200 -> r_body r = Json (JDict dd) ->
  w_net w = Responded r :: rest ->
  exists w1,
    retrieve_data t None true w = (Ret [JDict dd], w1)
    /\ w_net w1 = rest
    /\ w_args w1 = w_args w
    /\ List.length (urlopens (w_trace w1))
       = S (List.length (urlopens (w_trace w))).
Proof.
  intros t r dd rest w Hcred Hpause Hcode Hbody Hnet.
  destruct (get_auth_settled (negb (arg_as_app (w_args w))) false w Hcred)
    as [auth Hauth].
  destruct (fetch_page_json auth [] t true (0 + 1) r (JDict dd) rest w
              Hcode Hbody Hpause Hnet) as (w1 & (N & A & _ & _ & U) & E).
  exists w1.
  unfold retrieve_data, for_in, retrieve_data_gen.
  cbn [gen_template gen_query_args gen_single_request get_query_args].
  unfold bind at 1, get_args. cbv beta iota.
  unfold bind at 1. rewrite Hauth. cbv beta iota.
  rewrite (for_pages_collect _ _ _ _ _ _ _ _ _ _ _ E). cbn [app].
  split; [reflexivity|]. split; [exact N|]. split; [exact A|].
  rewrite U, length_app. cbn [List.length]. lia.
Qed.

Lemma number_key_item : forall x k,
  number_key x = Some k ->
  exists d n, x = JDict d /\ sget "number" d = Some n /\ as_key n = Some k.
Proof.
  intros x k H. unfold number_key in H.
  destruct x as [| | | | |d]; try discriminate.
  destruct (sget "number" d) as [n|] eqn:E; [|discriminate].
  exists d, n. auto.
Qed.

(** A pull that is kept under [--pull-details]: one request, and the
    object of the answer goes under the number of the pull. *)
Lemma keep_pull_details_fresh : forall t x s c k r dd rest pulls w,
  under_cutoff c (w_args w) ->
  updated_at x = Some s -> Str.lt s c = false ->
  number_key x = Some k ->
  r_code r = 200 -> r_body r = Json (JDict dd) ->
  w_net w = Responded r :: rest ->
  exists w1,
    keep_pull_details t x pulls w = (Ret (kset k (JDict dd) pulls, false), w1)
    /\ w_net w1 = rest
    /\ w_args w1 = w_args w
    /\ List.length (urlopens (w_trace w1))
       = S (List.length (urlopens (w_trace w))).
Proof.
  intros t x s c k r dd rest pulls w (Hs & Hcred & Hpause) Hx L Hk
         Hcode Hbody Hnet.
  destruct (number_key_item x k Hk) as (d & n & -> & Hn & Hkey).
  destruct (retrieve_object (t ^^ "/" ^^ py_str n) r dd rest w
              Hcred Hpause Hcode Hbody Hnet) as (w1 & R & N & A & U).
  exists w1. unfold keep_pull_details, bind at 1.
  rewrite (since_gate_spec _ _ _ _ Hs Hx), L. cbv beta iota.
  unfold bind at 1, py_item. rewrite Hn. unfold ret at 1. cbv beta iota.
  unfold bind at 1. rewrite R. cbv beta iota.
  unfold bind at 1, ret at 1. cbv beta iota.
  unfold bind at 1, hashable. rewrite Hkey. unfold ret. cbv beta iota.
  auto.
Qed.

Lemma pull_body_older : forall details t x s c pulls w,
  arg_since (w_args w) = Some c ->
  updated_at x = Some s -> Str.lt s c = true ->
  pull_body details t x pulls w = (Ret (pulls, true), w).
Proof.
  intros [] t x s c pulls w Hs Hx L; unfold pull_body.
  - exact (keep_pull_details_older t x s c pulls w Hs Hx L).
  - exact (keep_pull_older x s c pulls w Hs Hx L).
Qed.

Lemma pull_body_fresh : forall details answer detail t x s c k rest pulls w,
  under_cutoff c (w_args w) ->
  (details = true ->
   r_code (answer x) = 200 /\ r_body (answer x) = Json (JDict (detail x))) ->
  updated_at x = Some s -> Str.lt s c = false ->
  number_key x = Some k ->
  w_net w = detail_answers details answer x ++ rest ->
  exists w1,
    pull_body details t x pulls w
    = (Ret (store_as (stored_value details detail) pulls x, false), w1)
    /\ w_net w1 = rest
    /\ w_args w1 = w_args w
    /\ List.length (urlopens (w_trace w1))
       = (List.length (urlopens (w_trace w))
          + List.length (detail_answers details answer x))%nat.
Proof.
  intros [] answer detail t x s c k rest pulls w Hu Hans Hx L Hk Hnet;
    unfold pull_body, store_as, stored_value, detail_answers in *;
    rewrite Hk.
  - destruct (Hans eq_refl) as [Hcode Hbody].
    destruct (keep_pull_details_fresh t x s c k (answer x) (detail x) rest
                pulls w Hu Hx L Hk Hcode Hbody Hnet) as (w1 & R & N & A & U).
    exists w1. split; [exact R|]. split; [exact N|]. split; [exact A|].
    rewrite U. cbn [List.length]. lia.
  - exists w. destruct Hu as (Hs & _).
    pose proof (keep_pull_fresh x s c k pulls w Hs Hx L Hk) as R.
    unfold store_pull in R. rewrite Hk in R.
    split; [exact R|]. split; [exact Hnet|]. split; [reflexivity|].
    cbn [List.length]. lia.
Qed.

(** The loop over the pulls of one page. *)
Lemma for_items_pulls : forall details answer detail t c items kept broke,
  scan c items = Some (kept, broke) ->
  (details = true ->
   forall x, In x kept ->
     r_code (answer x) = 200 /\ r_body (answer x) = Json (JDict (detail x))) ->
  forall rest pulls w,
    under_cutoff c (w_args w) ->
    w_net w = flat_map (detail_answers details answer) kept ++ rest ->
    exists w1,
      for_items items (pull_body details t) pulls w
      = (Ret (collected_as (stored_value details detail) kept pulls, broke),
         w1)
      /\ w_net w1 = rest
      /\ w_args w1 = w_args w
      /\ List.length (urlopens (w_trace w1))
         = (List.length (urlopens (w_trace w))
            + List.length (flat_map (detail_answers details answer) kept))%nat.
Proof.
  intros details answer detail t c items.
  induction items as [|x items IH];
    intros kept broke Hscan Hans rest pulls w Hu Hnet; cbn [scan] in Hscan.
  - inversion Hscan. subst. exists w. cbn [for_items flat_map app] in *.
    unfold ret, collected_as. cbn [fold_left List.length].
    repeat split; auto.
  - destruct (updated_at x) as [s|] eqn:Hx; [|discriminate].
    cbn [for_items]. unfold bind at 1.
    destruct (Str.lt s c) eqn:L.
    + inversion Hscan. subst. destruct Hu as (Hs & Hu).
      rewrite (pull_body_older details t x s c pulls w Hs Hx L).
      exists w. cbn [flat_map app] in *. unfold ret, collected_as.
      cbn [fold_left List.length]. repeat split; auto.
    + destruct (number_key x) as [k|] eqn:Hk; [|discriminate].
      destruct (scan c items) as [[kept' broke']|] eqn:Hrest; [|discriminate].
      inversion Hscan. subst. cbn [flat_map] in Hnet.
      rewrite <- app_assoc in Hnet.
      destruct (pull_body_fresh details answer detail t x s c k _ pulls w Hu
                  (fun Hd => Hans Hd x (or_introl eq_refl)) Hx L Hk Hnet)
        as (w1 & R & N & A & U).
      rewrite R. cbv beta iota.
      assert (Hu1 : under_cutoff c (w_args w1)) by (rewrite A; exact Hu).
      destruct (IH kept' broke eq_refl
                  (fun Hd y Hy => Hans Hd y (or_intror Hy))
                  rest (store_as (stored_value details detail) pulls x) w1
                  Hu1 N) as (w2 & R2 & N2 & A2 & U2).
      exists w2. rewrite R2. unfold collected_as. cbn [fold_left flat_map].
      split; [reflexivity|]. split; [exact N2|].
      split; [rewrite A2; exact A|].
      rewrite U2, U, length_app. lia.
Qed.

(** The loop over the pages of one listing. *)
Lemma for_pages_pulls : forall details answer detail t c auth q fulls,
  Forall (fun p => serves (fst p) (snd p)
                   /\ List.length (snd p) = per_page
                   /\ scan c (snd p) = Some (snd p, false)) fulls ->
  forall r lastp kept broke rest fuel page pulls w,
    (List.length fulls < fuel)%nat ->
    under_cutoff c (w_args w) ->
    (details = true ->
     forall x, In x (List.concat (map snd fulls) ++ kept) ->
       r_code (answer x) = 200
       /\ r_body (answer x) = Json (JDict (detail x))) ->
    serves r lastp ->
    scan c lastp = Some (kept, broke) ->
    broke = true \/ (List.length lastp < per_page)%nat ->
    w_net w = (flat_map (page_script (detail_answers details answer)) fulls
               ++ page_script (detail_answers details answer) (r, kept))
              ++ rest ->
    exists w',
      for_pages fuel auth q t false page (pull_body details t) pulls w
      = (Ret (collected_as (stored_value details detail)
                (List.concat (map snd fulls) ++ kept) pulls), w')
      /\ w_net w' = rest
      /\ w_args w' = w_args w
      /\ List.length (urlopens (w_trace w'))
         = (List.length (urlopens (w_trace w))
            + List.length
                (flat_map (page_script (detail_answers details answer)) fulls
                 ++ page_script (detail_answers details answer) (r, kept)))%nat.
Proof.
  intros details answer detail t c auth q fulls HF.
  induction HF as [|[r0 p0] fulls (Hserve0 & Hlen0 & Hscan0) HF IH];
    intros r lastp kept broke rest fuel page pulls w Hfuel Hu Hans
           [Hcode Hbody] Hscan Hend Hnet;
    (destruct fuel as [|fuel]; [inversion Hfuel|]).
  - cbn [flat_map app page_script fst snd] in Hnet.
    destruct Hu as (Hs & Hcred & Hpause).
    destruct (fetch_page_json auth q t false (page + 1) r (JList lastp) _ w
                Hcode Hbody Hpause Hnet) as (w1 & (N & A & _ & _ & U) & E).
    rewrite (for_pages_step _ _ _ _ _ _ _ _ _ _ _ _ _ E).
    unfold bind at 1.
    assert (Hu1 : under_cutoff c (w_args w1))
      by (rewrite A; repeat split; assumption).
    destruct (for_items_pulls details answer detail t c lastp kept broke Hscan
                (fun Hd x Hx => Hans Hd x Hx) rest pulls w1 Hu1 N)
      as (w2 & R2 & N2 & A2 & U2).
    rewrite R2. cbv beta iota. exists w2.
    assert (Hres : (if broke
                    then ret (collected_as (stored_value details detail)
                                           kept pulls)
                    else if (if (List.length lastp <? per_page)%nat
                             then false else negb false)
                         then for_pages fuel auth q t false (page + 1)
                                (pull_body details t)
                                (collected_as (stored_value details detail)
                                              kept pulls)
                         else ret (collected_as (stored_value details detail)
                                                kept pulls)) w2
                   = (Ret (collected_as (stored_value details detail)
                                        kept pulls), w2)).
    { destruct broke; [reflexivity|].
      destruct Hend as [Hb|Hlen]; [discriminate|].
      apply Nat.ltb_lt in Hlen. rewrite Hlen. reflexivity. }
    rewrite Hres. cbn [List.concat map app flat_map page_script fst snd].
    split; [reflexivity|]. split; [exact N2|].
    split; [rewrite A2; exact A|].
    rewrite U2, U, length_app. unfold page_script.
    cbn [List.length fst snd]. lia.
  - cbn [flat_map page_script fst snd] in Hnet. cbn [fst snd] in *.
    rewrite <- !app_assoc in Hnet. cbn [app] in Hnet.
    destruct Hserve0 as [Hcode0 Hbody0].
    destruct Hu as (Hs & Hcred & Hpause).
    destruct (fetch_page_json auth q t false (page + 1) r0 (JList p0) _ w
                Hcode0 Hbody0 Hpause Hnet) as (w1 & (N & A & _ & _ & U) & E).
    assert (Hl : (List.length p0 <? per_page)%nat = false)
      by (apply Nat.ltb_ge; rewrite Hlen0; apply Nat.le_refl).
    rewrite Hl in E. cbn [negb] in E.
    rewrite (for_pages_step _ _ _ _ _ _ _ _ _ _ _ _ _ E).
    unfold bind at 1.
    assert (Hu1 : under_cutoff c (w_args w1))
      by (rewrite A; repeat split; assumption).
    destruct (for_items_pulls details answer detail t c p0 p0 false Hscan0
                (fun Hd x Hx =>
                   Hans Hd x (proj2 (in_app_iff _ _ _)
                                (or_introl
                                   (proj2 (in_app_iff _ _ _)
                                      (or_introl Hx)))))
                _ pulls w1 Hu1 N)
      as (w2 & R2 & N2 & A2 & U2).
    rewrite R2. cbv beta iota.
    assert (Hu2 : under_cutoff c (w_args w2)) by (rewrite A2; exact Hu1).
    assert (Hnet2 : w_net w2
                    = (flat_map (page_script (detail_answers details answer))
                                fulls
                       ++ page_script (detail_answers details answer)
                                      (r, kept)) ++ rest).
    { rewrite N2. cbn [page_script fst snd]. rewrite <- !app_assoc.
      reflexivity. }
    destruct (IH r lastp kept broke rest fuel (page + 1)
                (collected_as (stored_value details detail) p0 pulls) w2
                (proj2 (Nat.succ_lt_mono _ _) Hfuel) Hu2
                (fun Hd x Hx =>
                   Hans Hd x
                     (match proj1 (in_app_iff _ _ _) Hx with
                      | or_introl H1 =>
                          proj2 (in_app_iff _ _ _)
                            (or_introl (proj2 (in_app_iff _ _ _)
                                          (or_intror H1)))
                      | or_intror H2 =>
                          proj2 (in_app_iff _ _ _) (or_intror H2)
                      end))
                (conj Hcode Hbody) Hscan Hend Hnet2)
      as (w' & R & N' & A' & U').
    exists w'. rewrite R. cbn [List.concat map snd].
    rewrite <- app_assoc. unfold collected_as at 3. rewrite fold_left_app.
    split; [reflexivity|]. split; [exact N'|].
    split; [rewrite A', A2; exact A|].
    rewrite U', U2, U. cbn [flat_map]. unfold page_script.
    cbn [fst snd]. repeat rewrite length_app. cbn [List.length].
    repeat rewrite length_app. cbn [List.length]. lia.
Qed.

(** *** The loop writes no file *)

Lemma wn_py_item : forall v k, writes_nothing (py_item v k).
Proof. intros. unfold py_item. wn_auto. Qed.

Lemma wn_as_str : forall v, writes_nothing (as_str v).
Proof. intros. unfold as_str. wn_auto. Qed.

Lemma wn_hashable : forall v, writes_nothing (hashable v).
Proof. intros. unfold hashable. wn_auto. Qed.

#[local] Hint Resolve wn_py_item wn_as_str wn_hashable wn_retrieve_data : wn.

Lemma wn_since_gate : forall x, writes_nothing (since_gate x).
Proof. intros. unfold since_gate, py_lt_str, py_ge_str. wn_auto. Qed.

#[local] Hint Resolve wn_since_gate : wn.

Lemma wn_keep_pull : forall x pulls, writes_nothing (keep_pull x pulls).
Proof. intros. unfold keep_pull. wn_auto. Qed.

Lemma wn_keep_pull_details : forall t x pulls,
  writes_nothing (keep_pull_details t x pulls).
Proof. intros. unfold keep_pull_details. wn_auto. Qed.

Lemma wn_fold_m : forall A St (f : A -> St -> M St) l s,
  (forall x s, writes_nothing (f x s)) -> writes_nothing (fold_m f l s).
Proof.
  intros A St f l. induction l as [|x l IH]; intros s Hf; cbn [fold_m].
  - apply wn_ret.
  - apply wn_bind; [apply Hf|]. intros s'. apply IH. exact Hf.
Qed.

Lemma wn_collect_pulls : forall t, writes_nothing (collect_pulls t).
Proof.
  intros t. unfold collect_pulls.
  apply wn_bind; [apply wn_get_args|]. intros args.
  destruct (negb (arg_include_pull_details args)).
  - apply wn_fold_m. intros state pulls. apply wn_for_in.
    apply wn_keep_pull.
  - apply wn_for_in. apply wn_keep_pull_details.
Qed.

(** *** One listing, and the listings of a repository *)

Lemma collected_as_app : forall value a b pulls,
  collected_as value (a ++ b) pulls
  = collected_as value b (collected_as value a pulls).
Proof. intros. unfold collected_as. apply fold_left_app. Qed.

Lemma pages_in_script : forall cost (fulls : list (response * list json)),
  (List.length fulls <= List.length (flat_map (page_script cost) fulls))%nat.
Proof.
  intros cost fulls. induction fulls as [|p fulls IH]; cbn [flat_map].
  - apply Nat.le_refl.
  - unfold page_script at 1. cbn [app List.length]. rewrite length_app. lia.
Qed.

(** [for pull in _pulls] over one listing. *)
Lemma for_in_pulls : forall details answer detail t c q l rest pulls w,
  under_cutoff c (w_args w) ->
  to_cutoff c l ->
  (details = true ->
   forall x, In x (items_kept l) ->
     r_code (answer x) = 200 /\ r_body (answer x) = Json (JDict (detail x))) ->
  w_net w = listing_script (detail_answers details answer) l ++ rest ->
  exists w',
    for_in (retrieve_data_gen t q false) (pull_body details t) pulls w
    = (Ret (collected_as (stored_value details detail) (items_kept l) pulls),
       w')
    /\ w_net w' = rest
    /\ w_args w' = w_args w
    /\ List.length (urlopens (w_trace w'))
       = (List.length (urlopens (w_trace w))
          + List.length (listing_script (detail_answers details answer) l))%nat.
Proof.
  intros details answer detail t c q l rest pulls w Hu
         (Hfull & Hserve & Hscan & Hend & _) Hans Hnet.
  destruct Hu as (Hs & Hcred & Hpause).
  destruct (get_auth_settled (negb (arg_as_app (w_args w))) false w Hcred)
    as [auth Hauth].
  unfold for_in, retrieve_data_gen.
  cbn [gen_template gen_query_args gen_single_request].
  unfold bind at 1, get_args. cbv beta iota.
  unfold bind at 1. rewrite Hauth. cbv beta iota.
  apply (for_pages_pulls details answer detail t c auth (get_query_args q)
           (ls_full l) Hfull (fst (ls_last l)) (snd (ls_last l)) (ls_kept l)
           (ls_broke l) rest (S (List.length (w_net w))) 0 pulls w).
  - rewrite Hnet. unfold listing_script. rewrite !length_app.
    pose proof (pages_in_script (detail_answers details answer) (ls_full l)).
    lia.
  - repeat split; assumption.
  - exact Hans.
  - exact Hserve.
  - exact Hscan.
  - exact Hend.
  - exact Hnet.
Qed.

(** The pulls that [backup_pulls] collects: one listing with
    [--pull-details], the open and then the closed pulls without. *)
Lemma collect_pulls_listings : forall answer detail t c ls rest w,
  under_cutoff c (w_args w) ->
  List.length ls
  = (if arg_include_pull_details (w_args w) then 1 else 2)%nat ->
  Forall (to_cutoff c) ls ->
  (arg_include_pull_details (w_args w) = true ->
   forall x, In x (flat_map items_kept ls) ->
     r_code (answer x) = 200 /\ r_body (answer x) = Json (JDict (detail x))) ->
  w_net w
  = flat_map (listing_script
                (detail_answers (arg_include_pull_details (w_args w)) answer))
             ls ++ rest ->
  exists w',
    collect_pulls t w
    = (Ret (collected_as
              (stored_value (arg_include_pull_details (w_args w)) detail)
              (flat_map items_kept ls) []), w')
    /\ w_net w' = rest
    /\ w_args w' = w_args w
    /\ List.length (urlopens (w_trace w'))
       = (List.length (urlopens (w_trace w))
          + List.length
              (flat_map (listing_script
                           (detail_answers
                              (arg_include_pull_details (w_args w)) answer))
                        ls))%nat.
Proof.
  intros answer detail t c ls rest w Hu Hlen Hls Hans Hnet.
  unfold collect_pulls. unfold bind at 1, get_args. cbv beta iota.
  destruct (arg_include_pull_details (w_args w)) eqn:Hd; cbn [negb].
  - destruct ls as [|l [|l2 ls]]; try discriminate.
    inversion Hls as [|? ? Hl _]. subst.
    cbn [flat_map] in *. rewrite ?app_nil_r in *.
    exact (for_in_pulls true answer detail t c (Some (pulls_query "all")) l
             rest [] w Hu Hl Hans Hnet).
  - destruct ls as [|lo [|lc [|l3 ls]]]; try discriminate.
    inversion Hls as [|? ? Hlo Hls']. inversion Hls' as [|? ? Hlc _]. subst.
    cbn [flat_map] in *. rewrite ?app_nil_r in *.
    rewrite <- app_assoc in Hnet.
    destruct (for_in_pulls false answer detail t c
                (Some (pulls_query "open")) lo _ [] w Hu Hlo
                (fun Hf => False_ind _ (Bool.diff_false_true Hf)) Hnet)
      as (w1 & R1 & N1 & A1 & U1).
    assert (Hu1 : under_cutoff c (w_args w1)) by (rewrite A1; exact Hu).
    destruct (for_in_pulls false answer detail t c
                (Some (pulls_query "closed")) lc rest
                (collected_as (stored_value false detail) (items_kept lo) [])
                w1 Hu1 Hlc
                (fun Hf => False_ind _ (Bool.diff_false_true Hf)) N1)
      as (w2 & R2 & N2 & A2 & U2).
    exists w2. cbn [fold_m]. unfold bind at 1.
    change keep_pull with (pull_body false t). rewrite R1. cbv beta iota.
    unfold bind at 1. rewrite R2. cbv beta iota. unfold ret.
    rewrite collected_as_app.
    split; [reflexivity|]. split; [exact N2|].
    split; [rewrite A2; exact A1|].
    rewrite U2, U1, length_app. lia.
Qed.

(** *** From the pulls to their files *)

Lemma pulls_only_flags : forall a,
  pulls_only a = true ->
  arg_incremental a = true /\ arg_include_pulls a = true
  /\ arg_include_everything a = false /\ arg_include_repository a = false
  /\ arg_include_gists a = false /\ arg_include_starred_gists a = false
  /\ arg_include_wiki a = false /\ arg_include_issues a = false
  /\ arg_include_milestones a = false /\ arg_include_labels a = false
  /\ arg_include_hooks a = false /\ arg_include_releases a = false
  /\ arg_include_pull_comments a = false
  /\ arg_include_pull_commits a = false
  /\ arg_skip_existing a = false /\ arg_prefer_ssh a = false.
Proof.
  intros a H. unfold pulls_only in H.
  apply andb_true_iff in H. destruct H as [H Hn].
  apply andb_true_iff in H. destruct H as [Hi Hp].
  apply negb_true_iff in Hn.
  repeat match type of Hn with
    | (_ || _) = false => apply orb_false_iff in Hn; destruct Hn as [Hn ?]
    end.
  repeat split; assumption.
Qed.

Lemma urlopens_mkdirs : forall paths, urlopens (map EvMkdir paths) = [].
Proof. induction paths as [|p paths IH]; [reflexivity | exact IH]. Qed.

Lemma writes_mkdirs : forall paths, writes (map EvMkdir paths) = [].
Proof. induction paths as [|p paths IH]; [reflexivity | exact IH]. Qed.

(** [backup_pulls] on the listings of a repository: the pulls kept of the
    listings are collected, and each entry of the dictionary goes to its
    file. *)
Lemma backup_pulls_listings :
  forall repo_cwd d full repos_template answer detail c ls rest w,
    sget "full_name" d = Some full ->
    under_cutoff c (w_args w) ->
    pulls_only (w_args w) = true ->
    (forall x, sget repo_cwd (w_fs w) <> Some (File x)) ->
    (forall x, sget (Str.path_join repo_cwd "pulls") (w_fs w)
               <> Some (File x)) ->
    (forall k, sget (resource_file (Str.path_join repo_cwd "pulls") k)
                    (w_fs w) <> Some Dir) ->
    List.length ls
    = (if arg_include_pull_details (w_args w) then 1 else 2)%nat ->
    Forall (to_cutoff c) ls ->
    (arg_include_pull_details (w_args w) = true ->
     forall x, In x (flat_map items_kept ls) ->
       r_code (answer x) = 200
       /\ r_body (answer x) = Json (JDict (detail x))) ->
    w_net w
    = flat_map (listing_script
                  (detail_answers (arg_include_pull_details (w_args w))
                                  answer)) ls ++ rest ->
    exists w',
      backup_pulls repo_cwd (JDict d) repos_template w = (Ret tt, w')
      /\ w_net w' = rest
      /\ w_args w' = w_args w
      /\ writes (w_trace w')
         = writes (w_trace w)
           ++ dumps (Str.path_join repo_cwd "pulls")
                (collected_as
                   (stored_value (arg_include_pull_details (w_args w)) detail)
                   (flat_map items_kept ls) [])
      /\ List.length (urlopens (w_trace w'))
         = (List.length (urlopens (w_trace w))
            + List.length
                (flat_map (listing_script
                             (detail_answers
                                (arg_include_pull_details (w_args w)) answer))
                          ls))%nat
      /\ (forall p x, sget p (w_fs w) = Some (File x) ->
                      sget p (w_fs w') <> Some Dir).
Proof.
  intros repo_cwd d full repos_template answer detail c ls rest w
         Hfull Hu Hflags Hd1 Hd2 Hfiles Hlen Hls Hans Hnet.
  destruct (pulls_only_flags _ Hflags)
    as (_ & _ & Hall & _ & _ & _ & _ & _ & _ & _ & _ & _ & Hcomm & Hcommit
        & Hskip & _).
  unfold backup_pulls. unfold bind at 1, get_args. cbv beta iota.
  unfold bind at 1, path_isdir, bind at 1, fs_lookup, ret at 1.
  cbv beta iota. rewrite Hskip. cbn [andb].
  unfold bind at 1, py_item at 1. rewrite Hfull. unfold ret at 1.
  cbv beta iota.
  unfold bind at 1, log_info at 1, tell at 1. cbv beta iota.
  set (pulls_cwd := Str.path_join repo_cwd "pulls") in *.
  set (w0 := emit (EvInfo ("Retrieving " ^^ py_str full ^^ " pull requests"))
                  w).
  destruct (mkdir_p_dirs [repo_cwd; pulls_cwd] w0)
    as (w1 & M1 & N1 & A1 & V1 & C1 & T1 & D1 & O1 & K1).
  { intros p x [<-|[<-|[]]]; [apply Hd1 | apply Hd2]. }
  unfold bind at 1. rewrite M1. cbv beta iota.
  assert (Hargs1 : w_args w1 = w_args w) by (rewrite A1; reflexivity).
  set (t := repos_template ^^ "/" ^^ py_str full ^^ "/pulls").
  destruct (collect_pulls_listings answer detail t c ls rest w1)
    as (w2 & R2 & N2 & A2 & U2).
  { rewrite Hargs1. exact Hu. }
  { rewrite Hargs1. exact Hlen. }
  { exact Hls. }
  { rewrite Hargs1. exact Hans. }
  { rewrite Hargs1, N1. exact Hnet. }
  rewrite Hargs1 in R2, U2.
  pose proof (wn_collect_pulls t w1) as [F2 W2]. rewrite R2 in F2, W2.
  cbn [snd] in F2, W2.
  unfold bind at 1. rewrite R2. cbv beta iota.
  unfold bind at 1, log_info at 1, tell at 1. cbv beta iota.
  set (stored := collected_as _ _ _) in *.
  set (w3 := emit _ w2).
  destruct (dump_all pulls_cwd
              (fun '(number, pull) =>
                 args <- (fun w5 : world => (Ret (w_args w5), w5)) ;;
                 pull0 <-
                   (if arg_include_pull_comments args
                       || arg_include_everything args
                    then
                      data <- retrieve_data
                                (t ^^ "/" ^^ key_str number ^^ "/comments")
                                None false ;;
                      ret (set_field "comment_data" (JList data) pull)
                    else ret pull) ;;
                 pull1 <-
                   (if arg_include_pull_commits args
                       || arg_include_everything args
                    then
                      data <- retrieve_data
                                (t ^^ "/" ^^ key_str number ^^ "/commits")
                                None false ;;
                      ret (set_field "commit_data" (JList data) pull0)
                    else ret pull0) ;;
                 json_dump_to (pulls_cwd ^^ "/" ^^ key_str number ^^ ".json")
                              pull1)
              (fun a => arg_include_pull_comments a = false
                        /\ arg_include_pull_commits a = false
                        /\ arg_include_everything a = false)
              stored w3)
    as (w4 & R4 & N4 & A4 & V4 & C4 & W4 & U4 & K4).
  { intros [number pull] w6 (Hc & He & Hv).
    unfold bind at 1. cbv beta iota. rewrite Hc, He, Hv. cbn [orb].
    unfold bind at 1, ret at 1. cbv beta iota.
    unfold bind at 1, ret at 1. cbv beta iota.
    reflexivity. }
  { unfold w3. cbn [w_args emit]. rewrite A2, Hargs1. auto. }
  { intros kx _. unfold w3. cbn [w_fs emit]. rewrite F2.
    rewrite O1.
    - unfold w0. cbn [w_fs emit]. apply Hfiles.
    - intros [E|[E|[]]].
      + symmetry in E. revert E. apply resource_file_not_parent.
        * reflexivity.
        * discriminate.
      + symmetry in E. revert E. apply resource_file_not_cwd. }
  exists w4. unfold get_args. split; [exact R4|].
  split.
  { rewrite N4. unfold w3. cbn [w_net emit]. exact N2. }
  split.
  { rewrite A4. unfold w3. cbn [w_args emit]. rewrite A2. exact Hargs1. }
  split.
  { rewrite W4. unfold w3. cbn [w_trace emit]. rewrite writes_app.
    cbn [writes flat_map app]. rewrite app_nil_r.
    rewrite W2, T1, writes_app, writes_mkdirs, app_nil_r. unfold w0.
    cbn [w_trace emit]. rewrite writes_app. cbn [writes flat_map app].
    rewrite app_nil_r. reflexivity. }
  split.
  { rewrite U4. unfold w3. cbn [w_trace emit]. rewrite urlopens_app.
    cbn [urlopens flat_map app]. rewrite app_nil_r.
    rewrite U2, T1, urlopens_app, urlopens_mkdirs, app_nil_r. unfold w0.
    cbn [w_trace emit]. rewrite urlopens_app. cbn [urlopens flat_map app].
    rewrite app_nil_r. reflexivity. }
  intros p x Hp. apply K4. unfold w3. cbn [w_fs emit]. rewrite F2.
  rewrite (K1 p (File x)); [discriminate|]. unfold w0. cbn [w_fs emit].
  exact Hp.
Qed.

(** *** The run around the pulls *)

Lemma then_nothing : forall (m : M unit) w, (m ;; ret tt) w = m w.
Proof.
  intros m w. unfold bind, ret. destruct (m w) as [[[]| | | |] w']; reflexivity.
Qed.

(** The URL of a public repository is its [clone_url]. *)
Lemma clone_url_of_listed : forall d name stamp full w,
  arg_prefer_ssh (w_args w) = false ->
  settled_credentials (w_args w) = true ->
  listed_repository d name stamp full ->
  exists url, get_github_repo_url (JDict d) w = (Ret url, w).
Proof.
  intros d name stamp full w Hssh Hcred
         (Hname & Hfull & Hstamp & Hpriv & Hgist & Hstar & [url Hurl] & _).
  destruct (get_auth_settled false true w Hcred) as [auth Hauth].
  exists url.
  unfold get_github_repo_url, py_get, py_get_default, py_item, bind, ret,
         get_args, get_env.
  cbv beta iota. rewrite Hgist. cbn [default truthy]. cbv beta iota.
  rewrite Hssh, Hauth. cbv beta iota. rewrite Hpriv, Hurl.
  destruct auth as [[a|a]|]; reflexivity.
Qed.

(** With the options of [pulls_only], the body of
    [for repository in repositories] is [backup_pulls] in the directory of
    the repository. *)
Lemma backup_repository_pulls_only : forall out t d name stamp full w,
  pulls_only (w_args w) = true ->
  settled_credentials (w_args w) = true ->
  listed_repository d name stamp full ->
  backup_repository out t (JDict d) w
  = backup_pulls (Str.path_join (Str.path_join out "repositories") name)
                 (JDict d) t w.
Proof.
  intros out t d name stamp full w Hflags Hcred Hlisted.
  destruct (pulls_only_flags _ Hflags)
    as (_ & Hpulls & Hall & Hrepo & Hgists & Hsgists & Hwk & Hissues & Hmil
        & Hlab & Hhooks & Hrel & _ & _ & _ & Hssh).
  destruct (clone_url_of_listed d name stamp full w Hssh Hcred Hlisted)
    as [url Hurl].
  destruct Hlisted as (Hname & Hfull & Hstamp & Hpriv & Hgist & Hstar & _
                       & [hw Hwiki]).
  unfold backup_repository, py_get, py_get_default, py_item, join_json,
         as_str, when, bind, ret, get_args.
  cbv beta iota.
  repeat (first [ rewrite Hgist | rewrite Hstar | rewrite Hname
                | rewrite Hurl | rewrite Hall | rewrite Hrepo
                | rewrite Hgists | rewrite Hsgists | rewrite Hwk
                | rewrite Hissues | rewrite Hpulls | rewrite Hmil
                | rewrite Hlab | rewrite Hhooks | rewrite Hrel
                | rewrite Hwiki | rewrite andb_false_r ];
          cbn [default truthy orb andb negb]; cbv beta iota).
  destruct (backup_pulls _ _ _ w) as [[[]| | | |] w']; reflexivity.
Qed.

(** *** What a listing keeps and what it leaves out *)

Lemma skipn_kept : forall (kept dropped : list json),
  skipn (List.length kept) (kept ++ dropped) = dropped.
Proof.
  induction kept as [|x kept IH]; intros dropped; [reflexivity|].
  cbn [List.length app skipn]. apply IH.
Qed.

Lemma full_pages_fresh : forall c (fulls : list (response * list json)),
  Forall (fun p => serves (fst p) (snd p)
                   /\ List.length (snd p) = per_page
                   /\ scan c (snd p) = Some (snd p, false)) fulls ->
  Forall (fresh c) (List.concat (map snd fulls)).
Proof.
  intros c fulls H. induction H as [|p fulls (_ & _ & Hp) _ IH];
    cbn [map List.concat].
  - constructor.
  - destruct (scan_full_page c (snd p) Hp) as [F _].
    apply Forall_app. split; assumption.
Qed.

(** Every pull of a listing is kept or left out; those kept are no older
    than the Cutoff, those left out are older. *)
Lemma to_cutoff_parts : forall c l,
  to_cutoff c l ->
  items_listed l = items_kept l ++ items_left l
  /\ Forall (fresh c) (items_kept l)
  /\ Forall (older c) (items_left l).
Proof.
  intros c l (Hfull & _ & Hscan & Hend & Hshort & Hsorted).
  destruct (scan_spec c _ _ _ Hscan) as (Fk & _ & dropped & Hlast & Hdrop).
  unfold items_listed, items_kept, items_left in *.
  rewrite Hlast in *. rewrite skipn_kept.
  split; [rewrite <- !app_assoc; reflexivity|].
  split; [apply Forall_app; split; [apply full_pages_fresh|]; assumption|].
  destruct dropped as [|old post].
  - destruct Hend as [Hb|Hlen]; [congruence|].
    rewrite (Hshort Hlen). constructor.
  - destruct Hdrop as [_ Hold].
    replace (List.concat (map snd (ls_full l))
             ++ (ls_kept l ++ old :: post) ++ ls_later l)
      with ((List.concat (map snd (ls_full l)) ++ ls_kept l)
            ++ old :: (post ++ ls_later l))
      in Hsorted
      by (rewrite <- !app_assoc; reflexivity).
    exact (sorted_after_older c _ old _ Hsorted Hold).
Qed.

Lemma listings_parts : forall c ls,
  Forall (to_cutoff c) ls ->
  Forall (fun l => items_listed l = items_kept l ++ items_left l) ls
  /\ Forall (fresh c) (flat_map items_kept ls)
  /\ Forall (older c) (flat_map items_left ls).
Proof.
  intros c ls H. induction H as [|l ls Hl _ (IH1 & IH2 & IH3)];
    cbn [flat_map].
  - repeat split; constructor.
  - destruct (to_cutoff_parts c l Hl) as (P1 & P2 & P3).
    split; [constructor; assumption|].
    split; apply Forall_app; split; assumption.
Qed.

(** *** The dictionary of the pulls *)

Lemma collected_as_other_keys : forall value k l d,
  (forall x, In x l -> number_key x <> Some k) ->
  kget k (collected_as value l d) = kget k d.
Proof.
  intros value k l. unfold collected_as.
  induction l as [|x l IH]; intros d H; cbn [fold_left]; [reflexivity|].
  rewrite IH by (intros y Hy; apply H; right; exact Hy).
  unfold store_as.
  destruct (number_key x) as [k'|] eqn:E; [|reflexivity].
  apply kget_kset_other. intros ->. apply (H x); [left; reflexivity|exact E].
Qed.

Lemma collected_as_last : forall value a x b k d,
  number_key x = Some k ->
  (forall y, In y b -> number_key y <> Some k) ->
  kget k (collected_as value (a ++ x :: b) d) = Some (value x).
Proof.
  intros value a x b k d Hk Hb.
  rewrite collected_as_app.
  change (x :: b) with ([x] ++ b). rewrite collected_as_app.
  rewrite (collected_as_other_keys value k b _ Hb).
  unfold collected_as. cbn [fold_left]. unfold store_as. rewrite Hk.
  apply kget_kset_same.
Qed.

(** *** The watermark at both ends of the run *)

(** The head of an incremental run on one repository, with the watermark
    file of the last run in place. *)
Lemma read_watermark_run : forall out d stamp c w,
  arg_incremental (w_args w) = true ->
  sget "updated_at" d = Some (JStr stamp) ->
  watermark out w = Some c ->
  read_watermark out [JDict d] w
  = (Ret (Some (JStr stamp)),
     with_args (set_since (Some (Str.strip c)) (w_args w)) w).
Proof.
  intros out d stamp c w Hincr Hstamp Hmark.
  unfold watermark in Hmark.
  destruct (sget (Str.path_join out "last_update") (w_fs w))
    as [[|[s|v]]|] eqn:E; try discriminate.
  inversion Hmark. subst.
  unfold read_watermark. unfold bind at 1, get_args. cbv beta iota.
  rewrite Hincr. unfold bind at 1, get_env. cbv beta iota.
  cbn [fold_m]. unfold bind at 1. unfold bind at 1.
  unfold bind at 1, py_item at 1. rewrite Hstamp. unfold ret at 1.
  cbv beta iota. unfold ret at 1. cbv beta iota. unfold ret at 1.
  cbv beta iota. cbn [app].
  unfold bind at 1, timegm_now. cbv beta iota.
  unfold bind at 1, py_max, ret at 1. cbv beta iota.
  unfold path_exists, read_file, fs_lookup, set_args, bind, ret.
  cbv beta iota. rewrite E. cbv beta iota. rewrite E. reflexivity.
Qed.

(** C5.  Round trip of the Cutoff through the watermark file.  Run N, an
    incremental run that returns, leaves the Cutoff [c] in the watermark
    file; [c] is a timestamp and so free of surrounding white space.  Run
    N+1 starts on the files of run N, with the options of an incremental
    run for the pull requests, with [--pull-details] or without, on a
    repository whose pulls the API lists newest update first: one listing
    with [--pull-details], the open and then the closed pulls without.
    Then [backup_repositories]

    - returns, with [args.since] set to [c];
    - takes off the network exactly the pages of each listing down to the
      page that holds the first pull older than [c] (or is short), and with
      [--pull-details] one answer more for every pull it keeps: nothing
      behind that page is asked for;
    - writes one file for every entry of the dictionary that holds, under
      its number, every pull of the listings updated at [c] or after it (a
      pull updated exactly at [c] is kept), as listed or, with
      [--pull-details], as the object fetched for it; then the new
      watermark;
    - leaves out the other pulls of the listings, every one of them older
      than [c]. *)
Theorem cutoff_round_trip_bounds_pulls :
  forall out reposN wA wN s0 ss d name stamp full answer detail ls rest w,
    let c := Str.max_from s0 ss in
    let details := arg_include_pull_details (w_args w) in
    let repo_cwd := Str.path_join (Str.path_join out "repositories") name in
    let pulls_cwd := Str.path_join repo_cwd "pulls" in
    let script :=
      flat_map (listing_script (detail_answers details answer)) ls in
    let kept := flat_map items_kept ls in
    let stored := collected_as (stored_value details detail) kept [] in
    arg_incremental (w_args wA) = true ->
    stamps_of reposN = Some (s0 :: ss) ->
    backup_repositories out reposN wA = (Ret tt, wN) ->
    Str.strip c = c ->
    w_fs w = w_fs wN ->
    pulls_only (w_args w) = true ->
    settled_credentials (w_args w) = true ->
    0 <= arg_throttle_pause (w_args w) ->
    listed_repository d name stamp full ->
    (forall x, sget repo_cwd (w_fs w) <> Some (File x)) ->
    (forall x, sget pulls_cwd (w_fs w) <> Some (File x)) ->
    (forall k, sget (resource_file pulls_cwd k) (w_fs w) <> Some Dir) ->
    List.length ls = (if details then 1 else 2)%nat ->
    Forall (to_cutoff c) ls ->
    (details = true ->
     forall x, In x kept ->
       r_code (answer x) = 200
       /\ r_body (answer x) = Json (JDict (detail x))) ->
    w_net w = script ++ rest ->
    exists w',
      backup_repositories out [JDict d] w = (Ret tt, w')
      /\ arg_since (w_args w') = Some c
      /\ w_net w' = rest
      /\ List.length (urlopens (w_trace w'))
         = (List.length (urlopens (w_trace w)) + List.length script)%nat
      /\ writes (w_trace w')
         = writes (w_trace w) ++ dumps pulls_cwd stored
           ++ [(Str.path_join out "last_update", Text stamp)]
      /\ Forall (fun l => items_listed l = items_kept l ++ items_left l) ls
      /\ Forall (fresh c) kept
      /\ Forall (older c) (flat_map items_left ls)
      /\ (forall a x b k,
            kept = a ++ x :: b ->
            number_key x = Some k ->
            (forall y, In y b -> number_key y <> Some k) ->
            kget k stored = Some (stored_value details detail x))
      /\ (forall k,
            (forall x, In x kept -> number_key x <> Some k) ->
            kget k stored = None).
Proof.
  intros out reposN wA wN s0 ss d name stamp full answer detail ls rest w
         c details repo_cwd pulls_cwd script kept stored
         HincrA Hstamps HrunN Hstrip Hfs Hflags Hcred Hpause Hlisted
         Hd1 Hd2 Hfiles Hlen Hls Hans Hnet.
  assert (Hmark : watermark out w = Some c).
  { unfold watermark. rewrite Hfs.
    exact (run_writes_newest out reposN s0 ss wA wN HincrA Hstamps HrunN). }
  destruct (pulls_only_flags _ Hflags) as (Hincr & _).
  pose proof Hlisted as (_ & _ & Hstamp & _).
  unfold backup_repositories. unfold bind at 1, log_info, tell.
  cbv beta iota. unfold bind at 1, get_args. cbv beta iota.
  set (w0 := emit (EvInfo "Backing up repositories") w).
  set (t := "https://" ^^ get_github_api_host (w_args w0) ^^ "/repos").
  unfold bind at 1.
  rewrite (read_watermark_run out d stamp c w0 Hincr Hstamp Hmark).
  rewrite Hstrip. cbv beta iota.
  set (w1 := with_args (set_since (Some c) (w_args w0)) w0).
  unfold bind at 1. cbn [for_each]. rewrite then_nothing.
  rewrite (backup_repository_pulls_only out t d name stamp full w1
             Hflags Hcred Hlisted).
  fold repo_cwd.
  destruct (backup_pulls_listings repo_cwd d full t answer detail c ls rest w1)
    as (w2 & R2 & N2 & A2 & W2 & U2 & K2).
  { destruct Hlisted as (_ & Hfull & _). exact Hfull. }
  { repeat split; [exact Hcred | exact Hpause]. }
  { exact Hflags. }
  { exact Hd1. }
  { exact Hd2. }
  { exact Hfiles. }
  { exact Hlen. }
  { exact Hls. }
  { exact Hans. }
  { exact Hnet. }
  rewrite R2. cbv beta iota.
  assert (Hfree : sget (Str.path_join out "last_update") (w_fs w2)
                  <> Some Dir).
  { unfold watermark in Hmark.
    destruct (sget (Str.path_join out "last_update") (w_fs w))
      as [[|x]|] eqn:E; try discriminate.
    exact (K2 _ x E). }
  unfold write_watermark, bind at 1, get_args. cbv beta iota.
  rewrite A2. change (arg_incremental (w_args w1))
    with (arg_incremental (w_args w)). rewrite Hincr.
  rewrite (write_file_step _ _ _ Hfree).
  eexists. split; [reflexivity|].
  cbn [w_args w_net w_trace with_fs emit].
  split; [rewrite A2; reflexivity|].
  split; [exact N2|].
  split.
  { rewrite urlopens_app. cbn [urlopens flat_map app]. rewrite app_nil_r.
    rewrite U2. unfold w1, w0. cbn [w_trace with_args emit].
    rewrite urlopens_app. cbn [urlopens flat_map app]. rewrite app_nil_r.
    reflexivity. }
  split.
  { rewrite writes_app. cbn [writes flat_map app]. rewrite W2.
    unfold w1, w0. cbn [w_trace with_args emit].
    rewrite writes_app. cbn [writes flat_map app]. rewrite app_nil_r.
    rewrite <- app_assoc. reflexivity. }
  destruct (listings_parts c ls Hls) as (P1 & P2 & P3).
  split; [exact P1|]. split; [exact P2|]. split; [exact P3|].
  split.
  - intros a x b k Hsplit Hk Hb. unfold stored. rewrite Hsplit.
    exact (collected_as_last _ a x b k [] Hk Hb).
  - intros k Hk. unfold stored.
    exact (collected_as_other_keys _ k kept [] Hk).
Qed.

(** C5, two runs after a run that left the Cutoff [c].  Without
    [--pull-details]: of the open pulls a full page is newer than [c], the
    second page holds a pull updated exactly at [c] and then older ones,
    and a third page is never asked for; of the closed pulls one is kept.
    With [--pull-details]: two pulls are kept, each stored as the object
    fetched for it, and the third, older, ends the loop. *)
Lemma cutoff_round_trip_bounds_pulls_witness :
  let c := "2020-01-01T00:00:00Z" in
  let stamp := "2020-03-01T00:00:00Z" in
  let wN := snd (backup_repositories "out" [Sample.repo "r" c]
                   (Sample.world0 Sample.args_incremental [])) in
  let old := "2019-12-31T23:59:59Z" in
  let full := Sample.full_page stamp in
  let kept := [Sample.pull 201 "2020-02-01T00:00:00Z"; Sample.pull 202 c] in
  let lastp := kept ++ map (fun n => Sample.pull (Z.of_nat n) old)
                           (seq 203 98) in
  let opened :=
    {| ls_full := [(Sample.ok_response (JList full), full)];
       ls_last := (Sample.ok_response (JList lastp), lastp);
       ls_kept := kept; ls_broke := true;
       ls_later := [Sample.pull 301 "2018-01-01T00:00:00Z"] |} in
  let closed_page := [Sample.pull 401 "2020-01-15T00:00:00Z";
                      Sample.pull 402 old] in
  let closed :=
    {| ls_full := [];
       ls_last := (Sample.ok_response (JList closed_page), closed_page);
       ls_kept := [Sample.pull 401 "2020-01-15T00:00:00Z"];
       ls_broke := true; ls_later := [] |} in
  let rest := [Sample.ok (JList [])] in
  let w := with_net ([Sample.ok (JList full); Sample.ok (JList lastp);
                      Sample.ok (JList closed_page)] ++ rest)
                    (Sample.next_run (Sample.args_pulls false) wN) in
  let answer := fun x => Sample.ok_response (JDict (Sample.pull_detail x)) in
  let page := [Sample.pull 1 "2020-02-01T00:00:00Z"; Sample.pull 2 c;
               Sample.pull 3 old] in
  let all :=
    {| ls_full := [];
       ls_last := (Sample.ok_response (JList page), page);
       ls_kept := [Sample.pull 1 "2020-02-01T00:00:00Z"; Sample.pull 2 c];
       ls_broke := true; ls_later := [] |} in
  let wd := with_net [Sample.ok (JList page);
                      Responded (answer (Sample.pull 1 "2020-02-01T00:00:00Z"));
                      Responded (answer (Sample.pull 2 c))]
                     (Sample.next_run (Sample.args_pulls true) wN) in
  watermark "out" wN = Some c
  /\ (exists w',
        backup_repositories "out" [JDict (Sample.public_repo "r" stamp)] w
        = (Ret tt, w')
        /\ arg_since (w_args w') = Some c
        /\ w_net w' = rest
        /\ List.length (urlopens (w_trace w')) = 3%nat
        /\ Forall (fresh c) (items_kept opened ++ items_kept closed)
        /\ Forall (older c) (items_left opened ++ items_left closed)
        /\ exists others,
             writes (w_trace w')
             = others
               ++ [("out/repositories/r/pulls/202.json",
                    Json (Sample.pull 202 c));
                   ("out/repositories/r/pulls/401.json",
                    Json (Sample.pull 401 "2020-01-15T00:00:00Z"));
                   ("out/last_update", Text stamp)])
  /\ (exists w',
        backup_repositories "out" [JDict (Sample.public_repo "r" stamp)] wd
        = (Ret tt, w')
        /\ arg_since (w_args w') = Some c
        /\ w_net w' = []
        /\ writes (w_trace w')
           = [("out/repositories/r/pulls/1.json",
               Json (JDict (Sample.pull_detail
                              (Sample.pull 1 "2020-02-01T00:00:00Z"))));
              ("out/repositories/r/pulls/2.json",
               Json (JDict (Sample.pull_detail (Sample.pull 2 c))));
              ("out/last_update", Text stamp)]).
Proof.
  intros c stamp wN old full kept lastp opened closed_page closed rest w
         answer page all wd.
  split; [reflexivity|].
  split.
  - destruct (cutoff_round_trip_bounds_pulls "out" [Sample.repo "r" c]
                (Sample.world0 Sample.args_incremental []) wN c []
                (Sample.public_repo "r" stamp) "r" stamp (JStr "octocat/r")
                answer Sample.pull_detail [opened; closed] rest w)
      as (w' & R & S & N & U & W & _ & F & O & _).
    + reflexivity.
    + reflexivity.
    + reflexivity.
    + reflexivity.
    + reflexivity.
    + reflexivity.
    + reflexivity.
    + vm_compute. discriminate.
    + repeat split; try reflexivity; eexists; reflexivity.
    + intros x. vm_compute. discriminate.
    + intros x. vm_compute. discriminate.
    + intros k. vm_compute. discriminate.
    + reflexivity.
    + constructor; [|constructor; [|constructor]].
      * split; [constructor; [|constructor]|].
        { split; [split; reflexivity|]. split; vm_compute; reflexivity. }
        split; [split; reflexivity|].
        split; [vm_compute; reflexivity|].
        split; [left; reflexivity|].
        split; [vm_compute; lia|].
        apply descending_sorted. vm_compute. reflexivity.
      * split; [constructor|].
        split; [split; reflexivity|].
        split; [vm_compute; reflexivity|].
        split; [left; reflexivity|].
        split; [reflexivity|].
        apply descending_sorted. vm_compute. reflexivity.
    + discriminate.
    + reflexivity.
    + exists w'. split; [exact R|]. split; [exact S|]. split; [exact N|].
      split; [exact U|]. split; [exact F|]. split; [exact O|].
      exists (dumps "out/repositories/r/pulls"
                (collected_as (fun x => x)
                   (full ++ [Sample.pull 201 "2020-02-01T00:00:00Z"]) [])).
      rewrite W. vm_compute. reflexivity.
  - destruct (cutoff_round_trip_bounds_pulls "out" [Sample.repo "r" c]
                (Sample.world0 Sample.args_incremental []) wN c []
                (Sample.public_repo "r" stamp) "r" stamp (JStr "octocat/r")
                answer Sample.pull_detail [all] [] wd)
      as (w' & R & S & N & _ & W & _).
    + reflexivity.
    + reflexivity.
    + reflexivity.
    + reflexivity.
    + reflexivity.
    + reflexivity.
    + reflexivity.
    + vm_compute. discriminate.
    + repeat split; try reflexivity; eexists; reflexivity.
    + intros x. vm_compute. discriminate.
    + intros x. vm_compute. discriminate.
    + intros k. vm_compute. discriminate.
    + reflexivity.
    + constructor; [|constructor].
      split; [constructor|].
      split; [split; reflexivity|].
      split; [vm_compute; reflexivity|].
      split; [left; reflexivity|].
      split; [reflexivity|].
      apply descending_sorted. vm_compute. reflexivity.
    + intros _ x Hx. split; reflexivity.
    + reflexivity.
    + exists w'. split; [exact R|]. split; [exact S|]. split; [exact N|].
      rewrite W. vm_compute. reflexivity.
Defined.

(** * Further properties of the fetcher *)

(** Splits a trace that is known event by event into what came before its
    last event and that event. *)
Ltac split_last_event :=
  rewrite <- ?app_assoc; cbn [app];
  match goal with
  | |- exists evs, ?t ++ ?l = ?t ++ evs ++ [?x] =>
      let p := eval cbv beta iota delta [removelast] in (removelast l) in
      exists p; reflexivity
  end.

(** X2.  An answer that is not HTTP 200 ends the run.  Whatever page of
    whatever collection is being fetched, an answer with another status
    (one that [urlopen] returns, such as 202 or 204, or one that it raises
    as [HTTPError] and that is neither the rate limit nor a 502) is not
    retried: after that one request the process exits with status 1, its
    last line on stderr naming the status and the reason.  No file has been
    touched. *)
Theorem answer_other_than_200_is_fatal : forall auth q t single page o r rest w,
  (o = Responded r \/ (o = HTTPError r /\ rate_limited r = false)) ->
  r_code r <> 200 -> r_code r <> 502 ->
  0 <= arg_throttle_pause (w_args w) ->
  w_net w = o :: rest ->
  exists w1,
    fetch_page auth q t single page w = (Exit 1, w1)
    /\ w_net w1 = rest
    /\ w_fs w1 = w_fs w
    /\ urlopens (w_trace w1)
       = urlopens (w_trace w)
         ++ [page_request per_page page q t auth (arg_as_app (w_args w))]
    /\ sleeps (w_trace w1) = sleeps (w_trace w) ++ throttle_sleep (w_args w) r
    /\ exists evs,
         w_trace w1
         = w_trace w ++ evs
           ++ [EvWarn ("API request returned HTTP " ^^ Str.of_Z (r_code r)
                       ^^ ": " ^^ r_reason r)].
Proof.
  intros auth q t single page o r rest w Ho H200 H502 Hpause Hnet.
  assert (Hp : (arg_throttle_pause (w_args w) <? 0) = false)
    by (apply Z.ltb_ge; exact Hpause).
  apply Z.eqb_neq in H200. apply Z.eqb_neq in H502.
  unfold fetch_page, bind at 1, get_args. cbv beta iota.
  unfold bind at 1, _construct_request, bind at 1, log_info, tell, ret.
  cbv beta iota zeta.
  unfold bind at 1.
  set (rq := page_request per_page page q t auth (arg_as_app (w_args w))).
  set (line := EvInfo ("Requesting " ^^ t ^^ "?"
                       ^^ Url.urlencode (page_query per_page page q))).
  assert (Hget : _get_response rq auth t (emit line w)
                 = (Ret (r, []), with_net rest (emit (EvUrlopen rq) (emit line w)))).
  { destruct Ho as [->|[-> Hrl]].
    - apply get_response_responded. exact Hnet.
    - apply get_response_http_error; [exact Hrl | exact Hnet]. }
  rewrite Hget. cbv beta iota.
  set (msg := "API request returned HTTP " ^^ Str.of_Z (r_code r)
              ^^ ": " ^^ r_reason r).
  unfold throttle_sleep, throttled.
  destruct (negb (arg_throttle_limit (w_args w) =? 0)
            && (default 0 (x_ratelimit_remaining (r_headers r))
                <=? arg_throttle_limit (w_args w))).
  all: unfold when; cbn [retry_502 andb negb].
  all: unfold bind, sleep, log_error, log_warnings, log_warning, tell, sys_exit,
           ret.
  all: cbv beta iota; rewrite ?Hp, ?H502, ?H200.
  all: cbn [negb for_each app].
  all: unfold bind, log_warning, tell, ret, sys_exit; cbv beta iota;
    rewrite ?H200; cbn [negb].
  all: eexists.
  all: (split; [reflexivity|]).
  all: cbn [w_net w_fs w_trace emit with_clock with_net].
  all: rewrite ?urlopens_app, ?sleeps_app.
  all: unfold urlopens, sleeps; cbn [flat_map app]; rewrite ?app_nil_r.
  all: (split; [reflexivity|]).
  all: (split; [reflexivity|]).
  all: (split; [reflexivity|]).
  all: (split; [reflexivity|]).
  all: split_last_event.
Qed.

Lemma answer_other_than_200_is_fatal_witness :
  let w := Sample.world0 Sample.args0 [Sample.http_error 404 "Not Found"] in
  exists w1,
    fetch_page None [] "https://api.github.com/user" true 1 w = (Exit 1, w1)
    /\ w_net w1 = []
    /\ w_fs w1 = w_fs w
    /\ urlopens (w_trace w1)
       = urlopens (w_trace w)
         ++ [page_request per_page 1 [] "https://api.github.com/user" None
                          false]
    /\ sleeps (w_trace w1) = []
    /\ exists evs,
         w_trace w1
         = w_trace w ++ evs
           ++ [EvWarn "API request returned HTTP 404: Not Found"].
Proof.
  intros w.
  apply (answer_other_than_200_is_fatal None [] "https://api.github.com/user"
           true 1 (Sample.http_error 404 "Not Found")
           (Sample.error_response 404 "Not Found") [] w).
  - right. split; reflexivity.
  - discriminate.
  - discriminate.
  - vm_compute. discriminate.
  - reflexivity.
Defined.

(** X1.  A 502 answer is retried three times and no more.  Each retry comes
    5 seconds after the last answer; when the fourth answer to the same page
    is a 502 as well, the process exits with status 1 after exactly four
    requests, its last line on stderr naming the 502. *)
Theorem bad_gateway_is_retried_three_times :
  forall auth q t single page b1 b2 b3 b4 rest w,
    r_code b1 = 502 -> r_code b2 = 502 -> r_code b3 = 502 -> r_code b4 = 502 ->
    0 <= arg_throttle_pause (w_args w) ->
    w_net w = HTTPError b1 :: HTTPError b2 :: HTTPError b3 :: HTTPError b4
              :: rest ->
    let rq := page_request per_page page q t auth (arg_as_app (w_args w)) in
    exists w1,
      fetch_page auth q t single page w = (Exit 1, w1)
      /\ w_net w1 = rest
      /\ urlopens (w_trace w1) = urlopens (w_trace w) ++ [rq; rq; rq; rq]
      /\ sleeps (w_trace w1)
         = sleeps (w_trace w) ++ throttle_sleep (w_args w) b1 ++ [5; 5; 5]
      /\ exists evs,
           w_trace w1
           = w_trace w ++ evs
             ++ [EvWarn ("API request returned HTTP 502: " ^^ r_reason b4)].
Proof.
  intros auth q t single page b1 b2 b3 b4 rest w B1 B2 B3 B4 Hpause Hnet rq.
  assert (Hp : (arg_throttle_pause (w_args w) <? 0) = false)
    by (apply Z.ltb_ge; exact Hpause).
  unfold fetch_page, bind at 1, get_args. cbv beta iota.
  unfold bind at 1, _construct_request, bind at 1, log_info, tell, ret.
  cbv beta iota zeta.
  unfold bind at 1.
  erewrite get_response_http_error by
    (first [apply rate_limited_502; exact B1 | cbn; exact Hnet]).
  cbv beta iota. rewrite B1.
  unfold throttle_sleep, throttled.
  match goal with |- context [when ?c _] => destruct c end.
  all: cbn [retry_502]; change (502 =? 502) with true; cbv beta iota;
    run_fetcher; rewrite ?Hp; run_fetcher.
  all: (erewrite get_response_http_error by
      (first [apply rate_limited_502; exact B2 | reflexivity]));
    rewrite B2; run_fetcher.
  all: (erewrite get_response_http_error by
      (first [apply rate_limited_502; exact B3 | reflexivity]));
    rewrite B3; run_fetcher.
  all: (erewrite get_response_http_error by
      (first [apply rate_limited_502; exact B4 | reflexivity]));
    rewrite B4; run_fetcher.
  all: unfold log_error, log_warnings, bind, log_warning, tell, sys_exit, ret;
    cbn [for_each app]; unfold bind, log_warning, tell, ret; cbv beta iota.
  all: eexists; (split; [reflexivity|]).
  all: cbn [w_net w_fs w_trace emit with_clock with_net].
  all: rewrite ?urlopens_app, ?sleeps_app.
  all: unfold urlopens, sleeps; cbn [flat_map app]; rewrite ?app_nil_r.
  all: rewrite <- ?app_assoc; cbn [app].
  all: (split; [reflexivity|]); (split; [reflexivity|]);
    (split; [reflexivity|]).
  all: split_last_event.
Qed.

Lemma bad_gateway_is_retried_three_times_witness :
  let bad := Sample.error_response 502 "Bad Gateway" in
  let t := "https://api.github.com/user/repos" in
  let w := Sample.world0 Sample.args0
             [HTTPError bad; HTTPError bad; HTTPError bad; HTTPError bad;
              Sample.ok (JList [])] in
  let rq := page_request per_page 1 [] t None false in
  exists w1,
    fetch_page None [] t false 1 w = (Exit 1, w1)
    /\ w_net w1 = [Sample.ok (JList [])]
    /\ urlopens (w_trace w1) = [rq; rq; rq; rq]
    /\ sleeps (w_trace w1) = [5; 5; 5]
    /\ exists evs,
         w_trace w1
         = w_trace w ++ evs
           ++ [EvWarn "API request returned HTTP 502: Bad Gateway"].
Proof.
  intros bad t w rq.
  apply (bad_gateway_is_retried_three_times None [] t false 1 bad bad bad bad
           [Sample.ok (JList [])] w);
    try reflexivity.
  vm_compute. discriminate.
Defined.

(** X3.  The throttle.  When a throttle limit is set and the answer to a
    page leaves no more requests than the limit, the fetcher sleeps for the
    throttle pause, once, before it hands the items on; otherwise it does
    not sleep.  An answer without the [x-ratelimit-remaining] header counts
    as leaving no request, so under a positive limit it always pauses. *)
Theorem throttle_pauses_when_requests_run_low :
  forall auth q t single page r items rest w,
    r_code r = 200 ->
    r_body r = Json (JList items) ->
    0 <= arg_throttle_pause (w_args w) ->
    w_net w = Responded r :: rest ->
    exists w1,
      fetch_page auth q t single page w
      = (Ret (items, if (List.length items <? per_page)%nat then false
                     else negb single), w1)
      /\ sleeps (w_trace w1) = sleeps (w_trace w) ++ throttle_sleep (w_args w) r
      /\ w_clock w1
         = w_clock w
           + (if throttled (w_args w) r then arg_throttle_pause (w_args w)
              else 0)
      /\ (arg_throttle_limit (w_args w) = 0 -> throttled (w_args w) r = false)
      /\ (x_ratelimit_remaining (r_headers r) = None ->
          0 < arg_throttle_limit (w_args w) ->
          throttled (w_args w) r = true).
Proof.
  intros auth q t single page r items rest w Hcode Hbody Hpause Hnet.
  assert (Hp : (arg_throttle_pause (w_args w) <? 0) = false)
    by (apply Z.ltb_ge; exact Hpause).
  unfold fetch_page, bind at 1, get_args. cbv beta iota.
  unfold bind at 1, _construct_request, bind at 1, log_info, tell, ret.
  cbv beta iota zeta.
  unfold bind at 1.
  erewrite get_response_responded by (cbn; exact Hnet).
  cbv beta iota. rewrite Hcode.
  assert (Hedge : (arg_throttle_limit (w_args w) = 0 ->
                   throttled (w_args w) r = false)
                  /\ (x_ratelimit_remaining (r_headers r) = None ->
                      0 < arg_throttle_limit (w_args w) ->
                      throttled (w_args w) r = true)).
  { unfold throttled. split.
    - intros ->. reflexivity.
    - intros -> Hpos. cbn [default].
      apply andb_true_iff. split.
      + apply negb_true_iff. apply Z.eqb_neq. lia.
      + apply Z.leb_le. lia. }
  unfold throttle_sleep. unfold throttled at 1 2.
  match goal with |- context [when ?c _] => destruct c end;
    unfold when; cbn [retry_502];
    unfold bind, sleep, json_loads, ret, log_info, tell; cbv beta iota;
    rewrite ?Hp; cbv beta iota;
    change (200 =? 502) with false; change (negb (200 =? 200)) with false;
    cbv beta iota; rewrite Hbody;
    eexists; (split; [reflexivity|]);
    cbn; rewrite ?sleeps_app; cbn; rewrite ?app_nil_r;
    (split; [reflexivity|]); (split; [lia || reflexivity|]); exact Hedge.
Qed.

Lemma throttle_pauses_when_requests_run_low_witness :
  let a := Sample.throttling 4000 30 in
  let r := Sample.ok_response (JList [Sample.item 1]) in
  let w := Sample.world0 a [Responded r] in
  throttled a r = true
  /\ exists w1,
       fetch_page None [] "https://api.github.com/user/repos" false 1 w
       = (Ret ([Sample.item 1], false), w1)
       /\ sleeps (w_trace w1) = [30]
       /\ w_clock w1 = w_clock w + 30.
Proof.
  intros a r w. split; [reflexivity|].
  destruct (throttle_pauses_when_requests_run_low None []
              "https://api.github.com/user/repos" false 1 r [Sample.item 1]
              [] w) as (w1 & E & S & C & _).
  - reflexivity.
  - reflexivity.
  - vm_compute. discriminate.
  - reflexivity.
  - exists w1. split; [exact E|]. split; [exact S|]. exact C.
Defined.


(** *** The list of errors *)

Lemma request_http_error_errors : forall exc auth errors w errs b w',
  _request_http_error exc auth errors w = (Ret (errs, b), w') ->
  errs = errors.
Proof.
  intros exc auth errors w errs b w'. unfold _request_http_error.
  destruct ((r_code exc =? 403)
            && (default 0 (x_ratelimit_remaining (r_headers exc)) <? 1)).
  - unfold bind, timegm_now, log_warning, tell, when, log_info, sleep, ret.
    destruct auth; cbn; rewrite max10_nonneg; intros H; inversion H;
      reflexivity.
  - unfold ret. intros H. inversion H. reflexivity.
Qed.

Lemma get_response_loop_errors : forall fuel rq auth t rt errors w r errs w',
  _get_response_loop fuel rq auth t rt errors w = (Ret (r, errs), w') ->
  errs = errors.
Proof.
  induction fuel as [|fuel IH]; intros rq auth t rt errors w r errs w' H.
  - discriminate.
  - cbn [_get_response_loop] in H. unfold bind at 1 in H. unfold urlopen in H.
    destruct (w_net w) as [|o rest]; [discriminate|].
    cbv beta iota in H. destruct o as [r0|exc|reason|strerror].
    + inversion H. reflexivity.
    + unfold bind at 1 in H.
      destruct (_request_http_error exc auth errors _) as [[[e1 b]| | | |] w1]
        eqn:E; try discriminate.
      apply request_http_error_errors in E. subst e1.
      destruct b.
      * exact (IH _ _ _ _ _ _ _ _ _ H).
      * inversion H. reflexivity.
    + unfold bind at 1 in H.
      destruct (log_warning_obj reason _) as [[[]| | | |] w1]; try discriminate.
      unfold bind at 1 in H.
      destruct (_request_url_error t rt w1) as [[b| | | |] w2];
        try discriminate.
      destruct b; [exact (IH _ _ _ _ _ _ _ _ _ H) | discriminate].
    + unfold bind at 1 in H.
      destruct (log_warning_obj strerror _) as [[[]| | | |] w1];
        try discriminate.
      unfold bind at 1 in H.
      destruct (_request_url_error t rt w1) as [[b| | | |] w2];
        try discriminate.
      destruct b; [exact (IH _ _ _ _ _ _ _ _ _ H) | discriminate].
Qed.

Lemma retry_502_errors : forall left page q t auth r errors code w r' errs c' w',
  retry_502 left page q t auth r errors code w = (Ret (r', errs, c'), w') ->
  errors = [] -> errs = [].
Proof.
  induction left as [|left IH];
    intros page q t auth r errors code w r' errs c' w' H He;
    cbn [retry_502] in H.
  - inversion H. subst. reflexivity.
  - destruct (code =? 502).
    + unfold bind at 1 in H. unfold log_warning, tell at 1 in H.
      unfold bind at 1 in H.
      destruct (sleep 5 _) as [[[]| | | |] w1]; try discriminate.
      unfold bind at 1 in H. unfold get_args at 1 in H.
      unfold bind at 1 in H.
      destruct (_construct_request _ _ _ _ _ _ w1) as [[rq| | | |] w2];
        try discriminate.
      unfold bind at 1 in H.
      destruct (_get_response rq auth t w2) as [[[r2 e2]| | | |] w3] eqn:E;
        try discriminate.
      unfold _get_response in E. apply get_response_loop_errors in E.
      exact (IH _ _ _ _ _ _ _ _ _ _ _ _ H E).
    + inversion H. subst. reflexivity.
Qed.

(** X4.  The list of errors that [_get_response] returns is always empty:
    [_request_http_error] hands back the list it was given and nothing ever
    appends to it before the status test.  So neither the first answer nor
    the answer left by the 502 retries comes with an error message, and the
    two tests on [len(errors)] in [retrieve_data_gen] always find 0. *)
Theorem errors_list_stays_empty :
  forall rq auth t w r errs w',
    _get_response rq auth t w = (Ret (r, errs), w') ->
    errs = []
    /\ forall left page q r2 errs2 code2 w2,
         retry_502 left page q t auth r errs (r_code r) w'
         = (Ret (r2, errs2, code2), w2) ->
         errs2 = [].
Proof.
  intros rq auth t w r errs w' H.
  unfold _get_response in H. apply get_response_loop_errors in H.
  split; [exact H|].
  intros left page q r2 errs2 code2 w2 H2.
  exact (retry_502_errors _ _ _ _ _ _ _ _ _ _ _ _ _ H2 H).
Qed.

Lemma errors_list_stays_empty_witness :
  let bad := Sample.error_response 502 "Bad Gateway" in
  let w := Sample.world0 Sample.args0 [HTTPError bad; Sample.ok (JList [])] in
  let rq := Sample.page1 "https://api.github.com/user/repos" in
  let run := _get_response rq None "https://api.github.com/user/repos" w in
  fst run = Ret (bad, [])
  /\ forall left page q r2 errs2 code2 w2,
       retry_502 left page q "https://api.github.com/user/repos" None bad []
                 502 (snd run)
       = (Ret (r2, errs2, code2), w2) ->
       errs2 = [].
Proof.
  intros bad w rq run.
  split; [reflexivity|].
  apply (errors_list_stays_empty rq None "https://api.github.com/user/repos"
           w bad [] (snd run)).
  reflexivity.
Defined.

(** *** The pages, in order *)

Lemma pages_requested_app : forall a b,
  pages_requested (a ++ b) = pages_requested a ++ pages_requested b.
Proof.
  intros. unfold pages_requested. rewrite urlopens_app. apply map_app.
Qed.

(** X5.  [retrieve_data] puts the pages of a collection end to end.  When
    the API serves full pages of 100 items and then a shorter one, the
    result is their items in the order served; the pages are asked for one
    after the other under the numbers 1, 2, ..., each once, the short page
    being the last request; what the script holds after it is not read and
    no file is touched.  The caller's own query parameters must not name
    [page]: they are merged after it and would replace it. *)
Theorem retrieve_data_joins_the_pages :
  forall t q rs fulls r lastp rest w auth w0,
    get_auth (negb (arg_as_app (w_args w))) false w = (Ret auth, w0) ->
    0 <= arg_throttle_pause (w_args w) ->
    sget "page" (get_query_args q) = None ->
    Forall2 serves rs fulls ->
    Forall (fun p => List.length p = per_page) fulls ->
    serves r lastp ->
    (List.length lastp < per_page)%nat ->
    w_net w = map Responded rs ++ Responded r :: rest ->
    exists w',
      retrieve_data t q false w = (Ret (List.concat fulls ++ lastp), w')
      /\ w_net w' = rest
      /\ w_fs w' = w_fs w
      /\ pages_requested (w_trace w')
         = pages_requested (w_trace w)
           ++ map (fun n => JNum (Z.of_nat n)) (seq 1 (S (List.length fulls))).
Proof.
  intros t q rs fulls r lastp rest w auth w0 Hauth Hpause Hq HF Hfull Hserve
         Hshort Hnet.
  destruct (retrieve_data_all_pages t q rs fulls r lastp rest w auth w0
              Hauth Hpause HF Hfull Hserve Hshort Hnet)
    as (w' & R & N & _ & F & U).
  exists w'. split; [exact R|]. split; [exact N|]. split; [exact F|].
  unfold pages_requested. rewrite U, map_app, map_map. f_equal.
  apply map_ext. intros n. cbn [req_query page_request].
  rewrite (page_of_page_query per_page (Z.of_nat n) _ Hq). reflexivity.
Qed.

Lemma retrieve_data_joins_the_pages_witness :
  let full := Sample.full_page "2020-03-01T00:00:00Z" in
  let last := [Sample.item 101; Sample.item 102] in
  let w := Sample.world0 Sample.args0
             [Sample.ok (JList full); Sample.ok (JList last);
              Sample.ok (JList [])] in
  exists w',
    retrieve_data "https://api.github.com/user/repos" None false w
    = (Ret (full ++ last), w')
    /\ w_net w' = [Sample.ok (JList [])]
    /\ w_fs w' = []
    /\ pages_requested (w_trace w') = [JNum 1; JNum 2].
Proof.
  intros full last w.
  destruct (retrieve_data_joins_the_pages "https://api.github.com/user/repos"
              None [Sample.ok_response (JList full)] [full]
              (Sample.ok_response (JList last)) last [Sample.ok (JList [])]
              w None w) as (w' & R & N & F & P).
  - reflexivity.
  - vm_compute. discriminate.
  - reflexivity.
  - constructor; [split; reflexivity | constructor].
  - constructor; [vm_compute; reflexivity | constructor].
  - split; reflexivity.
  - vm_compute. lia.
  - reflexivity.
  - exists w'. cbn [List.concat] in R. rewrite app_nil_r in R.
    split; [exact R|]. split; [exact N|]. split; [exact F|]. exact P.
Defined.

(** * Credentials *)

Ltac split_get_auth H :=
  repeat match type of H with
    | context [if ?c then _ else _] =>
        let E := fresh "E" in destruct c eqn:E; cbv beta iota in H
    | context [match env_keychain ?e ?n ?a with _ => _ end] =>
        let E := fresh "E" in
        destruct (env_keychain e n a) eqn:E; cbv beta iota in H
    | context [match sget ?p ?f with _ => _ end] =>
        let E := fresh "E" in
        destruct (sget p f) as [[|?]|] eqn:E; cbv beta iota in H
    | context [match env_getpass ?e with _ => _ end] =>
        let E := fresh "E" in
        destruct (env_getpass e) eqn:E; cbv beta iota in H
    end.

Ltac replay_get_auth :=
  repeat match goal with
    | E : ?c = _ |- context [?c] => rewrite E; cbv beta iota
    end.

Lemma given_not_empty : forall p, Some p <> Some "" -> given (Some p) = true.
Proof.
  intros p H. cbn. destruct (String.eqb_spec p ""); [|reflexivity].
  subst. contradiction.
Qed.



Lemma append_not_empty : forall a b, a <> "" -> (a ^^ b =? "")%string = false.
Proof. intros [|c a] b H; [contradiction | reflexivity]. Qed.

(** X7.  A token file is read once.  With [--token file://path] the first
    call of [get_auth] reads the first line of the file, strips it, and
    puts it in [args.token] in place of the reference.  Every later call
    takes the token from there: it returns the same credential whatever the
    files hold by then, and changes nothing.  (The line must hold a token,
    and one that does not itself read as [file://...].) *)
Theorem token_file_is_read_once :
  forall encode for_git_cli w p c t,
    given (arg_osx_keychain_item_name (w_args w)) = false ->
    given (arg_osx_keychain_item_account (w_args w)) = false ->
    arg_token (w_args w) = Some ("file://" ^^ p) ->
    sget p (w_fs w) = Some (File c) ->
    t = Str.strip (Str.readline (content_text c)) ->
    t <> "" ->
    Str.startswith "file://" t = false ->
    exists a,
      get_auth encode for_git_cli w
      = (Ret (Some a), with_args (set_token (Some t) (w_args w)) w)
      /\ forall w2,
           w_args w2 = set_token (Some t) (w_args w) ->
           get_auth encode for_git_cli w2 = (Ret (Some a), w2).
Proof.
  intros encode for_git_cli w p c t Hn Ha Htok Hfs Ht Hne Hfile.
  assert (Hgiven : given (Some t) = true).
  { cbn. destruct (String.eqb_spec t ""); [contradiction | reflexivity]. }
  assert (Hcred : forall s, s <> "" ->
            exists a,
              (if (s =? "")%string then None
               else if negb encode then Some (Plain s) else Some (B64 s))
              = Some a).
  { intros s Hs. destruct (String.eqb_spec s ""); [contradiction|].
    destruct (negb encode); eexists; reflexivity. }
  set (s := if negb (arg_as_app (w_args w)) then t ^^ ":" ^^ "x-oauth-basic"
            else if negb for_git_cli then t else "x-access-token:" ^^ t).
  assert (Hs : s <> "").
  { unfold s. destruct (negb (arg_as_app (w_args w))).
    - intros E. apply (f_equal (fun x => String.eqb x "")) in E.
      rewrite (append_not_empty t _ Hne) in E. discriminate.
    - destruct (negb for_git_cli); [exact Hne | discriminate]. }
  destruct (Hcred s Hs) as [a Hcreda].
  exists a. split.
  - unfold get_auth, bind, get_args, get_env, when, log_error, log_warnings,
           sys_exit, read_file, fs_lookup, set_args, ret, for_each,
           log_warning, tell.
    cbv beta iota. rewrite Hn, Ha, Htok.
    cbn [given text]. 
    change (negb (("file://" ^^ p =? "")%string)) with true. cbv beta iota.
    change (Str.startswith "file://" ("file://" ^^ p)) with
      (Str.startswith "" p).
    change (Str.drop (String.length "file://") ("file://" ^^ p)) with p.
    replace (Str.startswith "" p) with true
      by (destruct p; reflexivity).
    cbv beta iota. unfold bind, raise. cbv beta iota.
    rewrite Hfs. cbv beta iota. rewrite <- Ht.
    fold s. revert Hcreda. unfold s.
    destruct (negb (arg_as_app (w_args w))); cbv beta iota;
      [|destruct (negb for_git_cli); cbv beta iota];
      destruct (String.eqb _ ""); try discriminate;
      destruct (negb encode); intros E; inversion E; reflexivity.
  - intros w2 Hargs.
    unfold get_auth, bind, get_args, get_env, when, log_error, log_warnings,
           sys_exit, read_file, fs_lookup, set_args, ret, for_each,
           log_warning, tell.
    cbv beta iota. rewrite Hargs.
    cbn [set_token arg_osx_keychain_item_name arg_osx_keychain_item_account
         arg_token arg_as_app].
    rewrite Hn, Ha, Hgiven. cbn [text]. rewrite Hfile. cbv beta iota.
    revert Hcreda. unfold s.
    destruct (negb (arg_as_app (w_args w))); cbv beta iota;
      [|destruct (negb for_git_cli); cbv beta iota];
      destruct (String.eqb _ ""); try discriminate;
      destruct (negb encode); intros E; inversion E; reflexivity.
Qed.

Lemma token_file_is_read_once_witness :
  let a0 := Sample.options None (Some "file://token.txt") false false None None in
  let line := " abc123 " ^^ String "010" "second line" in
  let w := with_fs [("token.txt", File (Text line))] (Sample.world0 a0 []) in
  exists a,
    get_auth true false w
    = (Ret (Some a), with_args (set_token (Some "abc123") a0) w)
    /\ forall w2,
         w_args w2 = set_token (Some "abc123") a0 ->
         get_auth true false w2 = (Ret (Some a), w2).
Proof.
  intros a0 line w.
  apply (token_file_is_read_once true false w "token.txt" (Text line) "abc123").
  - reflexivity.
  - reflexivity.
  - reflexivity.
  - reflexivity.
  - vm_compute. reflexivity.
  - discriminate.
  - reflexivity.
Defined.

(** * Release assets *)

(** X8.  Assets cannot be downloaded without a credential.  The body of the
    loop over the assets of a release asks [get_auth] for the credential
    and hands it to [download_file], which puts it in the [Authorization]
    header before anything else.  When no credential is configured
    ([get_auth] returns [None]) and the asset is not on disk yet, the
    concatenation raises [TypeError]: no request is made and no file is
    written.  An asset that is already on disk is passed over before that
    point, so nothing happens and nothing is raised. *)
Theorem asset_download_needs_a_credential :
  forall url path w w1,
    get_auth true false w = (Ret None, w1) ->
    let step := auth <- get_auth true false ;;
                download_file (JStr url) path auth in
    (sget path (w_fs w) = None -> step w = (Raise TypeError, w1))
    /\ (forall n, sget path (w_fs w) = Some n -> step w = (Ret tt, w1))
    /\ w_trace w1 = w_trace w /\ w_net w1 = w_net w /\ w_fs w1 = w_fs w.
Proof.
  intros url path w w1 Hauth step.
  destruct (get_auth_quiet _ _ _ _ _ Hauth) as (T & N & F & _).
  split; [|split; [|auto]].
  - intros Hfs. unfold step, bind at 1. rewrite Hauth. cbv beta iota.
    unfold download_file, bind at 1, path_exists, bind at 1, fs_lookup.
    cbv beta iota. rewrite F, Hfs. reflexivity.
  - intros n Hfs. unfold step, bind at 1. rewrite Hauth. cbv beta iota.
    unfold download_file, bind at 1, path_exists, bind at 1, fs_lookup.
    cbv beta iota. rewrite F, Hfs. reflexivity.
Qed.

Lemma asset_download_needs_a_credential_witness :
  let w := Sample.world0 Sample.args0 [Sample.ok (JList [])] in
  let step := auth <- get_auth true false ;;
              download_file (JStr "https://api.github.com/assets/1")
                            "out/releases/v1/a.zip" auth in
  step w = (Raise TypeError, w).
Proof.
  intros w step.
  apply (asset_download_needs_a_credential "https://api.github.com/assets/1"
           "out/releases/v1/a.zip" w w); reflexivity.
Defined.

(** *** A download, piece by piece *)

Lemma joined_cons : forall p pieces,
  joined (p :: pieces) = chunk_text p ^^ joined pieces.
Proof.
  intros p pieces. unfold joined. cbn [map String.concat].
  destruct (map chunk_text pieces) as [|q l] eqn:E.
  - cbn. rewrite append_empty_r. reflexivity.
  - reflexivity.
Qed.

Lemma skip_download_warns : forall url o w,
  skip_download url o w
  = (Ret tt, {| w_args := w_args w; w_env := w_env w; w_net := w_net w;
                w_clock := w_clock w; w_fs := w_fs w;
                w_trace := w_trace w ++ skip_warning url o |}).
Proof.
  intros url o w. destruct o; cbn; unfold ret, log_warning, tell, emit;
    rewrite ?app_nil_r; destruct w; reflexivity.
Qed.

Lemma read_body_pieces : forall url path pieces ender rest fuel sofar w,
  Forall (fun p => chunk_text p <> "") pieces ->
  ends_body ender = true ->
  w_net w = map Responded pieces ++ ender :: rest ->
  (List.length pieces < fuel)%nat ->
  exists w1,
    read_body fuel url path sofar w = (Ret tt, w1)
    /\ w_net w1 = rest
    /\ w_args w1 = w_args w
    /\ (forall p, p <> path -> sget p (w_fs w1) = sget p (w_fs w))
    /\ sget path (w_fs w1)
       = match pieces with
         | [] => sget path (w_fs w)
         | _ => Some (File (Text (sofar ^^ joined pieces)))
         end
    /\ w_trace w1 = w_trace w ++ skip_warning url ender.
Proof.
  intros url path pieces. induction pieces as [|p pieces IH];
    intros ender rest fuel sofar w Hne Hend Hnet Hfuel;
    (destruct fuel as [|fuel]; [cbn in Hfuel; lia|]);
    cbn [map app] in Hnet; cbn [read_body];
    unfold bind at 1, read_chunk; rewrite Hnet; cbv beta iota.
  - destruct ender as [e|exc|reason|strerror].
    + cbn [ends_body] in Hend. unfold chunk_text in Hend. rewrite Hend.
      eexists. split; [reflexivity|]. cbn. rewrite app_nil_r. auto.
    + rewrite skip_download_warns. eexists. split; [reflexivity|].
      cbn. auto.
    + rewrite skip_download_warns. eexists. split; [reflexivity|].
      cbn. auto.
    + rewrite skip_download_warns. eexists. split; [reflexivity|].
      cbn. auto.
  - inversion Hne as [|? ? Hp Hrest]. subst.
    unfold chunk_text in Hp. apply String.eqb_neq in Hp. rewrite Hp.
    unfold bind at 1, fs_store. cbv beta iota.
    destruct (IH ender rest fuel (sofar ^^ content_text (r_body p))
                (with_fs (sset path (File (Text (sofar ^^ content_text (r_body p))))
                               (w_fs w))
                         (with_net (map Responded pieces ++ ender :: rest) w))
                Hrest Hend eq_refl) as (w1 & E & N & A & O & P & T).
    { cbn [List.length] in Hfuel. lia. }
    exists w1. split; [exact E|]. split; [exact N|]. split; [exact A|].
    split.
    { intros q Hq. rewrite (O q Hq). cbn [w_fs with_fs].
      apply dict_get_set_other. congruence. }
    split; [|exact T].
    rewrite P. cbn [w_fs with_fs]. rewrite joined_cons.
    destruct pieces as [|p2 pieces].
    + rewrite dict_get_set_same. unfold joined. cbn.
      rewrite append_empty_r. reflexivity.
    + rewrite append_assoc'. reflexivity.
Qed.


